(** * Base64Encoding: a shallow embedding of [src/lib/index.mjs]

    The JavaScript module is embedded function by function.  Conventions:

    - a JS string is the list of its UTF-16 code units ([jsstring]);
      [s[i]] is [None] (undefined) out of range and a one-unit string
      otherwise; [StringCharCodeAt] is [None] (NaN) out of range;
    - array positions, lengths and loop counters are [nat]; character
      codes, 6-bit indices and carries are [Z] with the bit operations of
      [Z];
    - a [Map] is a [gmap]; a [Uint8Array] is a [list Z] of fixed length,
      written with the list insert (which, like a typed array, ignores a
      write out of range);
    - [throw] is the [Throw] completion; the [while] loops, and the [for]
      loops over the input (the counter of the decoding one is reassigned
      in its [catch] block), run on fuel and complete with [OutOfFuel]
      when it is exhausted; the properties below show that they return;
    - a Number is the integer it holds, or NaN; the capacities, computed
      in floating point by the source, are given by their exact values. *)

From Stdlib Require Import ZArith Lia ZifyNat.
From stdpp Require Import gmap strings list fin_maps.

Local Open Scope Z_scope.

(** ** JavaScript values *)

Abbreviation jsstring := (list Z).

(** Code units of a literal. *)
Fixpoint str (s : string) : jsstring :=
  match s with
  | EmptyString => []
  | String a r => Z.of_N (Ascii.N_of_ascii a) :: str r
  end.

Inductive exn : Type :=
  | PADDING
  | RangeError (msg : string)
  | TypeError (msg : string).

Inductive completion (A : Type) : Type :=
  | Return (a : A)
  | Throw (e : exn)
  | OutOfFuel.
Arguments Return {A} a.
Arguments Throw {A} e.
Arguments OutOfFuel {A}.

Definition bind {A B} (c : completion A) (k : A -> completion B) : completion B :=
  match c with
  | Return a => k a
  | Throw e => Throw e
  | OutOfFuel => OutOfFuel
  end.

Notation "'let*' x ':=' c 'in' k" := (bind c (fun x => k))
  (at level 10, x name, c at level 100, k at level 200).

(** [s[i]]: undefined, or the string of the one code unit at [i]. *)
Definition char_at (s : jsstring) (i : nat) : option jsstring :=
  match s !! i with
  | Some c => Some [c]
  | None => None
  end.

(** [StringCharCodeAt(s, i)]: NaN out of range. *)
Definition StringCharCodeAt (s : jsstring) (i : nat) : option Z := s !! i.

(** The string an [alphabet[i]] turns into when it is concatenated. *)
Definition undefined_string : jsstring := str "undefined".

Definition ToString (v : option jsstring) : jsstring :=
  match v with
  | Some s => s
  | None => undefined_string
  end.

(** Comparisons of a number that may be NaN: false on NaN. *)
Definition num_lt (a : option Z) (b : Z) : bool :=
  match a with Some x => x <? b | None => false end.
Definition num_gt (a : option Z) (b : Z) : bool :=
  match a with Some x => b <? x | None => false end.

(** Conversion of a stored value to an element of a [Uint8Array]:
    undefined and NaN become 0, a number is taken modulo 256. *)
Definition ToUint8 (v : option Z) : Z :=
  match v with
  | Some z => z mod 256
  | None => 0
  end.

(** Truthiness of a string and of a number-or-undefined slot. *)
Definition truthy_string (s : jsstring) : bool :=
  match s with [] => false | _ => true end.
Definition truthy_number (v : option Z) : bool :=
  match v with Some z => negb (z =? 0) | None => false end.

(** ** Constants *)

Definition DEFAULT_PADDING : jsstring := str "=".
Definition DEFAULT_PADDING_CHAR_CODE : Z := 0x3d.

Definition ENCODING_SHIFTS (j : nat) : Z := nth j [2; 4; 6] 0.
Definition ENCODING_MASKS (j : nat) : Z := nth j [3; 0xf; 0x3f] 0.
Definition ENCODING_DIGITS (j : nat) : Z := nth j [4; 2; 0] 0.

Definition DECODING_SHIFTS (j : nat) : Z := nth j [2; 4; 6; 0] 0.
Definition DECODING_MASKS (j : nat) : Z := nth j [0; 0xf; 3; 0] 0.
Definition DECODING_DIGITS (j : nat) : Z := nth j [0; 4; 2; 0] 0.

(** ** The internal slots of an instance *)

Record Base64Encoding : Type := {
  Alphabet : jsstring;
  AlphabetLookup : gmap (option jsstring) Z;
  BaseMap : gmap Z (option Z);
  BaseMapLookup : gmap (option Z) Z;
  Padding : jsstring;
  PaddingCharCode : option Z
}.

(** ** Length helpers *)

(** [remaining] is never negative where these are called: the encoding
    loop calls with [index < length], the decoding loops with
    [position <= i < length]. *)
Definition GetEncodingBytes (length index : nat) : nat :=
  let remaining := (length - index)%nat in
  if (remaining <? 3)%nat then remaining else 3%nat.

Definition GetDecodingBytes (length index : nat) : nat :=
  let remaining := (length - index)%nat in
  if (remaining <? 4)%nat then remaining else 4%nat.

Definition GetPaddedLength (length : nat) : nat :=
  let remainder := (length mod 4)%nat in
  if (remainder =? 0)%nat then length else (length + (4 - remainder))%nat.

(** [MathCeil(length * FACTOR)] with [FACTOR = 4 / 3]: the double nearest
    to 4/3 is 4/3 - 2^-52/3, and for every length below 2^50 the product
    rounds to a double with the same ceiling as the exact [4 * length / 3]
    (a multiple of 3 gives back the integer itself). *)
Definition GetCapacity (length : nat) (withPadding : bool) : nat :=
  let capacity := ((length * 4 + 2) / 3)%nat in
  if withPadding then GetPaddedLength capacity else capacity.

(** [MathCeil(length * INVERSE_FACTOR)] with [INVERSE_FACTOR = 3 / 4],
    which is exact in binary. *)
Definition GetInverseCapacity (length : nat) : nat := ((length * 3 + 3) / 4)%nat.

(** ** The constructor *)

Inductive jsoptions (R : Type) : Type :=
  | Undefined
  | NotAnObject
  | Object (o : R).
Arguments Undefined {R}.
Arguments NotAnObject {R}.
Arguments Object {R} o.

Definition RequireOptionsObject {R} (options : jsoptions R) : completion R :=
  match options with
  | Object o => Return o
  | _ => Throw (TypeError "`options` is not an object")
  end.

(** The constructor's options: [padding] is undefined, not a string, or a
    string. *)
Inductive padding_option : Type :=
  | PaddingUndefined
  | PaddingNotAString
  | PaddingString (s : jsstring).

Record tables : Type := {
  alphabetLookup : gmap (option jsstring) Z;
  baseMap : gmap Z (option Z);
  baseMapLookup : gmap (option Z) Z
}.

Definition empty_tables : tables :=
  {| alphabetLookup := ∅; baseMap := ∅; baseMapLookup := ∅ |}.

(** [for (let i = 0; i < 64; i++)]: [n] iterations are left, starting at [i]. *)
Fixpoint constructor_loop (alphabet : jsstring) (n i : nat) (tb : tables)
  : completion tables :=
  match n with
  | O => Return tb
  | S n' =>
    let char := char_at alphabet i in
    if bool_decide (is_Some (alphabetLookup tb !! char)) then
      Throw (RangeError "Invalid alphabet")
    else
      let charCode := StringCharCodeAt alphabet i in
      if num_lt charCode 0x21 || num_gt charCode 0x7e then
        Throw (RangeError "Invalid alphabet")
      else
        constructor_loop alphabet n' (S i)
          {| alphabetLookup := <[char := Z.of_nat i]> (alphabetLookup tb);
             baseMap := <[Z.of_nat i := charCode]> (baseMap tb);
             baseMapLookup := <[charCode := Z.of_nat i]> (baseMapLookup tb) |}
  end.

Definition constructor_padding (options : jsoptions padding_option)
  : completion (jsstring * option Z) :=
  match options with
  | Undefined => Return (DEFAULT_PADDING, Some DEFAULT_PADDING_CHAR_CODE)
  | _ =>
    let* o := RequireOptionsObject options in
    match o with
    | PaddingUndefined => Return (DEFAULT_PADDING, Some DEFAULT_PADDING_CHAR_CODE)
    | PaddingNotAString => Throw (TypeError "`options.padding` is not a string")
    | PaddingString padding =>
      if (1 <? length padding)%nat then Throw (RangeError "Invalid padding")
      else if truthy_string padding then
        let paddingCharCode := StringCharCodeAt padding 0 in
        if num_lt paddingCharCode 0x21 || num_gt paddingCharCode 0x7e then
          Throw (RangeError "Invalid padding")
        else Return (padding, paddingCharCode)
      else Return (padding, None)
    end
  end.

(** [new Base64Encoding(alphabet, options)] for a string [alphabet]. *)
Definition constructor (alphabet : jsstring) (options : jsoptions padding_option)
  : completion Base64Encoding :=
  let length := length alphabet in
  if (length =? 0)%nat || (64 <? length)%nat then
    Throw (RangeError "Alphabet length out of range")
  else
    let* tb := constructor_loop alphabet 64 0 empty_tables in
    let* p := constructor_padding options in
    let '(padding, paddingCharCode) := p in
    if bool_decide (is_Some (alphabetLookup tb !! Some padding)) then
      Throw (RangeError "Invalid padding")
    else
      Return {| Alphabet := alphabet;
                AlphabetLookup := alphabetLookup tb;
                BaseMap := baseMap tb;
                BaseMapLookup := baseMapLookup tb;
                Padding := padding;
                PaddingCharCode := paddingCharCode |}.

Definition basic_alphabet : jsstring :=
  str "ABCDEFGHIJKLMNOPQRSTUVWXYZabcdefghijklmnopqrstuvwxyz0123456789+/".
Definition url_alphabet : jsstring :=
  str "ABCDEFGHIJKLMNOPQRSTUVWXYZabcdefghijklmnopqrstuvwxyz0123456789-_".

(** ** Encoding

    In the bit operations an out-of-range read (NaN, undefined) counts as
    0, as [ToInt32] makes it; code units and bytes are below 2^31 and are
    their own [ToInt32]. *)
Definition ToInt32 (v : option Z) : Z :=
  match v with Some z => z | None => 0 end.

(** [alphabet[k]] for a number [k]. *)
Definition string_index (s : jsstring) (k : Z) : option jsstring :=
  if k <? 0 then None else char_at s (Z.to_nat k).

(** [MapGet(baseMap, k)] as it is stored in a [Uint8Array]. *)
Definition MapGet_code (m : gmap Z (option Z)) (k : Z) : Z :=
  match m !! k with
  | Some v => ToUint8 v
  | None => 0
  end.

(** [GetSlot(target, $Padding) || '\0'] and
    [GetSlot(target, $PaddingCharCode) || 0]. *)
Definition padding_or_nul (t : Base64Encoding) : jsstring :=
  if truthy_string (Padding t) then Padding t else [0].
Definition padding_code_or_zero (t : Base64Encoding) : Z :=
  if truthy_number (PaddingCharCode t) then ToInt32 (PaddingCharCode t) else 0.

(** [while (result.length < paddedLength) result += padding]. *)
Fixpoint pad_while (fuel paddedLength : nat) (padding result : jsstring)
  : completion jsstring :=
  if (length result <? paddedLength)%nat then
    match fuel with
    | O => OutOfFuel
    | S fuel' => pad_while fuel' paddedLength padding (result ++ padding)
    end
  else Return result.

Definition pad_string (t : Base64Encoding) (withPadding : bool) (result : jsstring)
  : completion jsstring :=
  if withPadding then
    let paddedLength := GetPaddedLength (length result) in
    if (length result <? paddedLength)%nat then
      pad_while paddedLength paddedLength (padding_or_nul t) result
    else Return result
  else Return result.

(** [while (index < capacity) result[index++] = paddingCharCode]. *)
Fixpoint fill_while (fuel capacity : nat) (paddingCharCode : Z) (index : nat)
    (result : list Z) : completion (list Z) :=
  if (index <? capacity)%nat then
    match fuel with
    | O => OutOfFuel
    | S fuel' =>
      fill_while fuel' capacity paddingCharCode (S index)
        (<[index := ToUint8 (Some paddingCharCode)]> result)
    end
  else Return result.

Definition pad_bytes (t : Base64Encoding) (withPadding : bool) (capacity index : nat)
    (result : list Z) : completion (list Z) :=
  if withPadding && (index <? capacity)%nat then
    let paddingCharCode := PaddingCharCode t in
    if truthy_number paddingCharCode then
      fill_while capacity capacity (ToInt32 paddingCharCode) index result
    else Return result
  else Return result.

(** *** [Encode]: string to string *)

(** The inner loop over [j]; [n] iterations are left. *)
Fixpoint Encode_group (alphabet string : jsstring) (n j position : nat)
    (carry : Z) (result : jsstring) : completion (nat * Z * jsstring) :=
  match n with
  | O => Return (position, carry, result)
  | S n' =>
    let charCode := StringCharCodeAt string position in
    if num_gt charCode 0xff then Throw (RangeError "Invalid ASCII encoding")
    else
      let charIndex := carry + Z.shiftr (ToInt32 charCode) (ENCODING_SHIFTS j) in
      Encode_group alphabet string n' (S j) (S position)
        (Z.shiftl (Z.land (ToInt32 charCode) (ENCODING_MASKS j)) (ENCODING_DIGITS j))
        (result ++ ToString (string_index alphabet charIndex))
  end.

(** [for (let i = 0; i < length; i += 3)]. *)
Fixpoint Encode_for (alphabet string : jsstring) (fuel i position : nat)
    (result : jsstring) : completion jsstring :=
  if (i <? length string)%nat then
    match fuel with
    | O => OutOfFuel
    | S fuel' =>
      let bytes := GetEncodingBytes (length string) i in
      let* g := Encode_group alphabet string bytes 0 position 0 result in
      let '(position, carry, result) := g in
      Encode_for alphabet string fuel' (i + 3) position
        (result ++ ToString (string_index alphabet carry))
    end
  else Return result.

Definition Encode (target : Base64Encoding) (string : jsstring) (withPadding : bool)
  : completion jsstring :=
  let length := length string in
  if (length =? 0)%nat then Return []
  else
    let* result := Encode_for (Alphabet target) string length 0 0 [] in
    pad_string target withPadding result.

(** *** [EncodeToBytes]: string to bytes *)

Fixpoint EncodeToBytes_group (baseMap : gmap Z (option Z)) (string : jsstring)
    (n j position : nat) (carry : Z) (index : nat) (result : list Z)
  : completion (nat * Z * nat * list Z) :=
  match n with
  | O => Return (position, carry, index, result)
  | S n' =>
    let charCode := StringCharCodeAt string position in
    if num_gt charCode 0xff then Throw (RangeError "Invalid ASCII encoding")
    else
      let charIndex := carry + Z.shiftr (ToInt32 charCode) (ENCODING_SHIFTS j) in
      EncodeToBytes_group baseMap string n' (S j) (S position)
        (Z.shiftl (Z.land (ToInt32 charCode) (ENCODING_MASKS j)) (ENCODING_DIGITS j))
        (S index) (<[index := MapGet_code baseMap charIndex]> result)
  end.

Fixpoint EncodeToBytes_for (baseMap : gmap Z (option Z)) (string : jsstring)
    (fuel i position index : nat) (result : list Z) : completion (nat * list Z) :=
  if (i <? length string)%nat then
    match fuel with
    | O => OutOfFuel
    | S fuel' =>
      let bytes := GetEncodingBytes (length string) i in
      let* g := EncodeToBytes_group baseMap string bytes 0 position 0 index result in
      let '(position, carry, index, result) := g in
      EncodeToBytes_for baseMap string fuel' (i + 3) position (S index)
        (<[index := MapGet_code baseMap carry]> result)
    end
  else Return (index, result).

Definition EncodeToBytes (target : Base64Encoding) (string : jsstring)
    (withPadding : bool) : completion (list Z) :=
  let length := length string in
  if (length =? 0)%nat then Return []
  else
    let capacity := GetCapacity length withPadding in
    let* r := EncodeToBytes_for (BaseMap target) string length 0 0 0
                (replicate capacity 0) in
    let '(index, result) := r in
    pad_bytes target withPadding capacity index result.

(** *** [EncodeBytes]: bytes to bytes *)

Fixpoint EncodeBytes_group (baseMap : gmap Z (option Z)) (source : list Z)
    (n j position : nat) (carry : Z) (index : nat) (result : list Z)
  : nat * Z * nat * list Z :=
  match n with
  | O => (position, carry, index, result)
  | S n' =>
    let byte := source !! position in
    let charIndex := carry + Z.shiftr (ToInt32 byte) (ENCODING_SHIFTS j) in
    EncodeBytes_group baseMap source n' (S j) (S position)
      (Z.shiftl (Z.land (ToInt32 byte) (ENCODING_MASKS j)) (ENCODING_DIGITS j))
      (S index) (<[index := MapGet_code baseMap charIndex]> result)
  end.

Fixpoint EncodeBytes_for (baseMap : gmap Z (option Z)) (source : list Z)
    (fuel i position index : nat) (result : list Z) : completion (nat * list Z) :=
  if (i <? length source)%nat then
    match fuel with
    | O => OutOfFuel
    | S fuel' =>
      let bytes := GetEncodingBytes (length source) i in
      let '(position, carry, index, result) :=
        EncodeBytes_group baseMap source bytes 0 position 0 index result in
      EncodeBytes_for baseMap source fuel' (i + 3) position (S index)
        (<[index := MapGet_code baseMap carry]> result)
    end
  else Return (index, result).

Definition EncodeBytes (target : Base64Encoding) (source : list Z)
    (withPadding : bool) : completion (list Z) :=
  let length := length source in
  if (length =? 0)%nat then Return []
  else
    let capacity := GetCapacity length withPadding in
    let* r := EncodeBytes_for (BaseMap target) source length 0 0 0
                (replicate capacity 0) in
    let '(index, result) := r in
    pad_bytes target withPadding capacity index result.

(** *** [EncodeBytesToString]: bytes to string *)

Fixpoint EncodeBytesToString_group (alphabet : jsstring) (source : list Z)
    (n j position : nat) (carry : Z) (result : jsstring) : nat * Z * jsstring :=
  match n with
  | O => (position, carry, result)
  | S n' =>
    let byte := source !! position in
    let charIndex := carry + Z.shiftr (ToInt32 byte) (ENCODING_SHIFTS j) in
    EncodeBytesToString_group alphabet source n' (S j) (S position)
      (Z.shiftl (Z.land (ToInt32 byte) (ENCODING_MASKS j)) (ENCODING_DIGITS j))
      (result ++ ToString (string_index alphabet charIndex))
  end.

Fixpoint EncodeBytesToString_for (alphabet : jsstring) (source : list Z)
    (fuel i position : nat) (result : jsstring) : completion jsstring :=
  if (i <? length source)%nat then
    match fuel with
    | O => OutOfFuel
    | S fuel' =>
      let bytes := GetEncodingBytes (length source) i in
      let '(position, carry, result) :=
        EncodeBytesToString_group alphabet source bytes 0 position 0 result in
      EncodeBytesToString_for alphabet source fuel' (i + 3) position
        (result ++ ToString (string_index alphabet carry))
    end
  else Return result.

Definition EncodeBytesToString (target : Base64Encoding) (source : list Z)
    (withPadding : bool) : completion jsstring :=
  let length := length source in
  if (length =? 0)%nat then Return []
  else
    let* result := EncodeBytesToString_for (Alphabet target) source length 0 0 [] in
    pad_string target withPadding result.

(** ** Decoding *)

(** How the body of the [try] block ends: it runs to its end with a carry,
    or throws. *)
Inductive group_end : Type :=
  | GroupDone (carry : Z)
  | GroupThrow (e : exn).

(** [charCode === paddingCharCode] for a read that may be NaN. *)
Definition code_is (charCode : option Z) (paddingCharCode : Z) : bool :=
  match charCode with
  | Some c => c =? paddingCharCode
  | None => false
  end.

(** [while (position < length && encodedString[position] === padding)
    position++]. *)
Fixpoint skip_padding (encodedString padding : jsstring) (fuel position : nat)
  : completion nat :=
  if (position <? length encodedString)%nat
     && bool_decide (char_at encodedString position = Some padding) then
    match fuel with
    | O => OutOfFuel
    | S fuel' => skip_padding encodedString padding fuel' (S position)
    end
  else Return position.

(** *** [DecodeToBytes]: string to bytes *)

(** The inner loop over [j]; [n] iterations are left.  What was written
    and read before a [throw] stays written and read. *)
Fixpoint DecodeToBytes_group (baseMapLookup : gmap (option Z) Z)
    (encodedString : jsstring) (paddingCharCode : Z) (ignorePadding : bool)
    (n j : nat) (carry : Z) (position index : nat) (result : list Z)
  : nat * nat * list Z * group_end :=
  match n with
  | O => (position, index, result, GroupDone carry)
  | S n' =>
    let charCode := StringCharCodeAt encodedString position in
    let position := S position in
    match baseMapLookup !! charCode with
    | None =>
      if code_is charCode paddingCharCode && negb ignorePadding then
        (position, index, result, GroupThrow PADDING)
      else
        (position, index, result, GroupThrow (RangeError "Invalid Base64 encoding"))
    | Some charIndex =>
      let mask := DECODING_MASKS j in
      let shift := DECODING_SHIFTS j in
      if negb (mask =? 0) then
        DecodeToBytes_group baseMapLookup encodedString paddingCharCode ignorePadding
          n' (S j) (Z.shiftl (Z.land charIndex mask) shift) position (S index)
          (<[index := ToUint8 (Some (carry + Z.shiftr charIndex (DECODING_DIGITS j)))]>
             result)
      else
        DecodeToBytes_group baseMapLookup encodedString paddingCharCode ignorePadding
          n' (S j) (carry + Z.shiftl charIndex shift) position index result
    end
  end.

(** [for (let i = 0; i < length; i += 4)], with [i = position; continue]
    in the [catch] block: the update [i += 4] runs after the [continue]. *)
Fixpoint DecodeToBytes_for (baseMapLookup : gmap (option Z) Z)
    (encodedString padding : jsstring) (paddingCharCode : Z)
    (ignorePadding allowConcatenation : bool)
    (fuel i position index : nat) (result : list Z) : completion (nat * list Z) :=
  if (i <? length encodedString)%nat then
    match fuel with
    | O => OutOfFuel
    | S fuel' =>
      let bytes := GetDecodingBytes (length encodedString) position in
      match DecodeToBytes_group baseMapLookup encodedString paddingCharCode
              ignorePadding bytes 0 0 position index result with
      | (position, index, result, GroupDone carry) =>
        DecodeToBytes_for baseMapLookup encodedString padding paddingCharCode
          ignorePadding allowConcatenation fuel' (i + 4) position (S index)
          (<[index := ToUint8 (Some carry)]> result)
      | (position, index, result, GroupThrow PADDING) =>
        if allowConcatenation then
          let* position :=
            skip_padding encodedString padding (length encodedString) position in
          DecodeToBytes_for baseMapLookup encodedString padding paddingCharCode
            ignorePadding allowConcatenation fuel' (position + 4) position index result
        else Return (index, result)
      | (_, _, _, GroupThrow e) => Throw e
      end
    end
  else Return (index, result).

Definition DecodeToBytes (target : Base64Encoding) (encodedString : jsstring)
    (ignorePadding allowConcatenation : bool) : completion (list Z) :=
  let length := length encodedString in
  if (length =? 0)%nat then Return []
  else
    let capacity := GetInverseCapacity length in
    let* r := DecodeToBytes_for (BaseMapLookup target) encodedString
                (padding_or_nul target) (padding_code_or_zero target)
                ignorePadding allowConcatenation length 0 0 0
                (replicate capacity 0) in
    let '(index, result) := r in
    Return (if bool_decide (capacity <> index) then take index result else result).

(** *** [Decode]: string to string *)

Definition StringFromCharCode (code : Z) : jsstring := [code mod 65536].

Fixpoint Decode_group (baseMapLookup : gmap (option Z) Z)
    (encodedString : jsstring) (paddingCharCode : Z) (ignorePadding : bool)
    (n j : nat) (carry : Z) (position : nat) (result : jsstring)
  : nat * jsstring * group_end :=
  match n with
  | O => (position, result, GroupDone carry)
  | S n' =>
    let charCode := StringCharCodeAt encodedString position in
    let position := S position in
    match baseMapLookup !! charCode with
    | None =>
      if code_is charCode paddingCharCode && negb ignorePadding then
        (position, result, GroupThrow PADDING)
      else
        (position, result, GroupThrow (RangeError "Invalid Base64 encoding"))
    | Some charIndex =>
      let mask := DECODING_MASKS j in
      let shift := DECODING_SHIFTS j in
      if negb (mask =? 0) then
        let charCode := carry + Z.shiftr charIndex (DECODING_DIGITS j) in
        Decode_group baseMapLookup encodedString paddingCharCode ignorePadding
          n' (S j) (Z.shiftl (Z.land charIndex mask) shift) position
          (result ++ StringFromCharCode charCode)
      else
        Decode_group baseMapLookup encodedString paddingCharCode ignorePadding
          n' (S j) (carry + Z.shiftl charIndex shift) position result
    end
  end.

Fixpoint Decode_for (baseMapLookup : gmap (option Z) Z)
    (encodedString padding : jsstring) (paddingCharCode : Z)
    (ignorePadding allowConcatenation : bool)
    (fuel i position : nat) (result : jsstring) : completion jsstring :=
  if (i <? length encodedString)%nat then
    match fuel with
    | O => OutOfFuel
    | S fuel' =>
      let bytes := GetDecodingBytes (length encodedString) position in
      match Decode_group baseMapLookup encodedString paddingCharCode
              ignorePadding bytes 0 0 position result with
      | (position, result, GroupDone carry) =>
        Decode_for baseMapLookup encodedString padding paddingCharCode
          ignorePadding allowConcatenation fuel' (i + 4) position
          (result ++ StringFromCharCode carry)
      | (position, result, GroupThrow PADDING) =>
        if allowConcatenation then
          let* position :=
            skip_padding encodedString padding (length encodedString) position in
          Decode_for baseMapLookup encodedString padding paddingCharCode
            ignorePadding allowConcatenation fuel' (position + 4) position result
        else Return result
      | (_, _, GroupThrow e) => Throw e
      end
    end
  else Return result.

Definition Decode (target : Base64Encoding) (encodedString : jsstring)
    (ignorePadding allowConcatenation : bool) : completion jsstring :=
  let length := length encodedString in
  if (length =? 0)%nat then Return []
  else
    Decode_for (BaseMapLookup target) encodedString
      (padding_or_nul target) (padding_code_or_zero target)
      ignorePadding allowConcatenation length 0 0 [].

(** ** Integers

    A Number is modelled by the integer it holds ([None] is NaN): the
    arithmetic of [EncodeInt] and [DecodeInt] is exact on the safe integers,
    and a BigInt is an integer. *)

Abbreviation jsnumber := (option Z).
Abbreviation NaN := (@None Z).

Definition MAX_SAFE_INTEGER : Z := 2 ^ 53 - 1.

(** [while (carry)] of [EncodeInt]: [carry % 64] and
    [MathFloor(carry / 64)]. *)
Fixpoint EncodeInt_while (alphabet : jsstring) (fuel : nat) (carry : Z)
    (result : jsstring) : completion jsstring :=
  if carry =? 0 then Return result
  else
    match fuel with
    | O => OutOfFuel
    | S fuel' =>
      let charIndex := Z.rem carry 64 in
      let char := string_index alphabet charIndex in
      EncodeInt_while alphabet fuel' (carry / 64) (ToString char ++ result)
    end.

(** The result is the string, or undefined when [alphabet[0]] is. *)
Definition EncodeInt (target : Base64Encoding) (integer : Z)
  : completion (option jsstring) :=
  let alphabet := Alphabet target in
  if integer =? 0 then Return (string_index alphabet 0)
  else
    let* result :=
      EncodeInt_while alphabet (S (Z.to_nat (Z.log2 integer))) integer [] in
    Return (Some result).

(** [while (leadingZeros < length && encodedInteger[leadingZeros] ===
    zeroChar) leadingZeros++]. *)
Fixpoint leading_zeros (encodedInteger : jsstring) (zeroChar : option jsstring)
    (fuel leadingZeros : nat) : completion nat :=
  if (leadingZeros <? length encodedInteger)%nat
     && bool_decide (char_at encodedInteger leadingZeros = zeroChar) then
    match fuel with
    | O => OutOfFuel
    | S fuel' => leading_zeros encodedInteger zeroChar fuel' (S leadingZeros)
    end
  else Return leadingZeros.

(** [for (let i = leadingZeros; i < length; i++)] with its [return NaN];
    [n] iterations are left. *)
Fixpoint DecodeInt_for (alphabetLookup : gmap (option jsstring) Z)
    (encodedInteger : jsstring) (n i : nat) (result : Z) : jsnumber :=
  match n with
  | O => Some result
  | S n' =>
    let char := char_at encodedInteger i in
    match alphabetLookup !! char with
    | None => NaN
    | Some charIndex =>
      DecodeInt_for alphabetLookup encodedInteger n' (S i) (result * 64 + charIndex)
    end
  end.

Definition DecodeInt (target : Base64Encoding) (encodedInteger : jsstring)
  : completion jsnumber :=
  let length := length encodedInteger in
  if (length =? 0)%nat then Return NaN
  else
    let zeroChar := char_at (Alphabet target) 0 in
    let* leadingZeros := leading_zeros encodedInteger zeroChar length 0 in
    Return (DecodeInt_for (AlphabetLookup target) encodedInteger
              (length - leadingZeros) leadingZeros 0).

(** [while (carry)] of [EncodeBigInt]: [carry % 64n] and [carry /= 64n]
    truncate. *)
Fixpoint EncodeBigInt_while (alphabet : jsstring) (fuel : nat) (carry : Z)
    (result : jsstring) : completion jsstring :=
  if carry =? 0 then Return result
  else
    match fuel with
    | O => OutOfFuel
    | S fuel' =>
      let charIndex := Z.rem carry 64 in
      let char := string_index alphabet charIndex in
      EncodeBigInt_while alphabet fuel' (Z.quot carry 64) (ToString char ++ result)
    end.

Definition EncodeBigInt (target : Base64Encoding) (bigint : Z)
  : completion (option jsstring) :=
  let alphabet := Alphabet target in
  if bigint =? 0 then Return (string_index alphabet 0)
  else
    let* result :=
      EncodeBigInt_while alphabet (S (Z.to_nat (Z.log2 (Z.abs bigint)))) bigint [] in
    Return (Some result).

Fixpoint DecodeBigInt_for (alphabetLookup : gmap (option jsstring) Z)
    (encodedInteger : jsstring) (n i : nat) (result : Z) : completion Z :=
  match n with
  | O => Return result
  | S n' =>
    let char := char_at encodedInteger i in
    match alphabetLookup !! char with
    | None => Throw (RangeError "Invalid Base64 encoded integer")
    | Some charIndex =>
      DecodeBigInt_for alphabetLookup encodedInteger n' (S i) (result * 64 + charIndex)
    end
  end.

Definition DecodeBigInt (target : Base64Encoding) (encodedInteger : jsstring)
  : completion Z :=
  let length := length encodedInteger in
  if (length =? 0)%nat then Throw (RangeError "Invalid Base64 encoded integer")
  else
    let zeroChar := char_at (Alphabet target) 0 in
    let* leadingZeros := leading_zeros encodedInteger zeroChar length 0 in
    DecodeBigInt_for (AlphabetLookup target) encodedInteger
      (length - leadingZeros) leadingZeros 0.

(** ** The methods of [Base64Encoding.prototype]

    [this] is an instance and the first argument already has its type
    ([ToString], [RequireBuffer] and [RequireThis] have passed).  A field
    of the options object is [None] when it is undefined and [Some b] for
    a value that [!!] turns into [b]. *)

Record call_options : Type := {
  withPadding : option bool;
  ignorePadding : option bool;
  allowConcatenation : option bool
}.

(** [!!v]. *)
Definition ToBoolean (v : option bool) : bool :=
  match v with Some b => b | None => false end.

(** [let withPadding = !!GetSlot(this, $Padding)], overridden by a defined
    [options.withPadding]. *)
Definition withPadding_of_table (this : Base64Encoding)
    (options : jsoptions call_options) : completion bool :=
  let withPadding_default := truthy_string (Padding this) in
  match options with
  | Undefined => Return withPadding_default
  | _ =>
    let* o := RequireOptionsObject options in
    match withPadding o with
    | Some b => Return b
    | None => Return withPadding_default
    end
  end.

(** [let withPadding = false], replaced by [!!options.withPadding]. *)
Definition withPadding_or_false (options : jsoptions call_options)
  : completion bool :=
  match options with
  | Undefined => Return false
  | _ =>
    let* o := RequireOptionsObject options in
    Return (ToBoolean (withPadding o))
  end.

(** The two flags of the decoding methods. *)
Definition decoding_flags (this : Base64Encoding)
    (options : jsoptions call_options) : completion (bool * bool) :=
  let ignorePadding_default := negb (truthy_string (Padding this)) in
  match options with
  | Undefined => Return (ignorePadding_default, false)
  | _ =>
    let* o := RequireOptionsObject options in
    Return (match ignorePadding o with
            | Some b => b
            | None => ignorePadding_default
            end,
            ToBoolean (allowConcatenation o))
  end.

Definition encode (this : Base64Encoding) (string : jsstring)
    (options : jsoptions call_options) : completion jsstring :=
  let* withPadding := withPadding_of_table this options in
  Encode this string withPadding.

Definition encodeToBytes (this : Base64Encoding) (string : jsstring)
    (options : jsoptions call_options) : completion (list Z) :=
  let* withPadding := withPadding_or_false options in
  EncodeToBytes this string withPadding.

Definition decode (this : Base64Encoding) (encodedString : jsstring)
    (options : jsoptions call_options) : completion jsstring :=
  let* f := decoding_flags this options in
  Decode this encodedString (fst f) (snd f).

Definition decodeToBytes (this : Base64Encoding) (encodedString : jsstring)
    (options : jsoptions call_options) : completion (list Z) :=
  let* f := decoding_flags this options in
  DecodeToBytes this encodedString (fst f) (snd f).

Definition encodeBytes (this : Base64Encoding) (buffer : list Z)
    (options : jsoptions call_options) : completion (list Z) :=
  let* withPadding := withPadding_or_false options in
  EncodeBytes this buffer withPadding.

Definition encodeBytesToString (this : Base64Encoding) (buffer : list Z)
    (options : jsoptions call_options) : completion jsstring :=
  let* withPadding := withPadding_of_table this options in
  EncodeBytesToString this buffer withPadding.

(** The text variants run the byte variants on the result of the external
    [UTF8Encode], a parameter here. *)
Section Text.
Variable UTF8Encode : jsstring -> list Z.

Definition EncodeText (target : Base64Encoding) (text : jsstring)
    (withPadding : bool) : completion jsstring :=
  EncodeBytesToString target (UTF8Encode text) withPadding.

Definition EncodeTextToBytes (target : Base64Encoding) (text : jsstring)
    (withPadding : bool) : completion (list Z) :=
  EncodeBytes target (UTF8Encode text) withPadding.

Definition encodeText (this : Base64Encoding) (text : jsstring)
    (options : jsoptions call_options) : completion jsstring :=
  let* withPadding := withPadding_of_table this options in
  EncodeText this text withPadding.

Definition encodeTextToBytes (this : Base64Encoding) (text : jsstring)
    (options : jsoptions call_options) : completion (list Z) :=
  let* withPadding := withPadding_or_false options in
  EncodeTextToBytes this text withPadding.
End Text.

(** The result of [ToIntegerOrInfinity]. *)
Inductive integer_or_infinity : Type :=
  | Finite (z : Z)
  | PlusInfinity
  | MinusInfinity.

Definition encodeInt (this : Base64Encoding) (integer : integer_or_infinity)
  : completion (option jsstring) :=
  match integer with
  | MinusInfinity => Throw (RangeError "`integer` cannot be negative")
  | PlusInfinity => Throw (RangeError "`integer` is not finite")
  | Finite z =>
    if z <? 0 then Throw (RangeError "`integer` cannot be negative")
    else EncodeInt this z
  end.

Definition decodeInt (this : Base64Encoding) (encodedInteger : jsstring)
  : completion jsnumber :=
  DecodeInt this encodedInteger.

Definition encodeBigInt (this : Base64Encoding) (bigint : Z)
  : completion (option jsstring) :=
  if bigint <? 0 then Throw (RangeError "`bigint` cannot be negative")
  else EncodeBigInt this bigint.

Definition decodeBigInt (this : Base64Encoding) (encodedInteger : jsstring)
  : completion Z :=
  DecodeBigInt this encodedInteger.

(** ** The two exported instances *)

Definition no_instance : Base64Encoding :=
  {| Alphabet := []; AlphabetLookup := ∅; BaseMap := ∅; BaseMapLookup := ∅;
     Padding := []; PaddingCharCode := None |}.

(** The instance a [new] expression evaluates to (the module fails to load
    when it throws). *)
Definition instance (c : completion Base64Encoding) : Base64Encoding :=
  match c with
  | Return t => t
  | _ => no_instance
  end.

Definition BASIC : Base64Encoding := instance (constructor basic_alphabet Undefined).

Definition URL : Base64Encoding :=
  instance (constructor url_alphabet (Object (PaddingString []))).

(** A 63-character alphabet, the basic one without its last character,
    and what the constructor makes of it. *)
Definition alphabet63 : jsstring :=
  str "ABCDEFGHIJKLMNOPQRSTUVWXYZabcdefghijklmnopqrstuvwxyz0123456789+".

Definition SHORT : Base64Encoding := instance (constructor alphabet63 Undefined).

(** Options objects of the calls below. *)
Definition concatenation_on : jsoptions call_options :=
  Object {| withPadding := None; ignorePadding := None;
            allowConcatenation := Some true |}.
Definition concatenation_off : jsoptions call_options :=
  Object {| withPadding := None; ignorePadding := None;
            allowConcatenation := Some false |}.
Definition padding_on : jsoptions call_options :=
  Object {| withPadding := Some true; ignorePadding := None;
            allowConcatenation := None |}.
Definition padding_off : jsoptions call_options :=
  Object {| withPadding := Some false; ignorePadding := None;
            allowConcatenation := None |}.
Definition ignore_padding : jsoptions call_options :=
  Object {| withPadding := None; ignorePadding := Some true;
            allowConcatenation := None |}.

(** * Definitions for the statements and the proofs *)

(** The tables after the first [i] iterations of the constructor's loop. *)
Definition tables_upto (alphabet : jsstring) (i : nat) (tb : tables) : Prop :=
  (forall key v, alphabetLookup tb !! key = Some v <->
     exists m, (m < i)%nat /\ char_at alphabet m = key /\ v = Z.of_nat m)
  /\ (forall k v, baseMap tb !! k = Some v <->
     exists m, (m < i)%nat /\ k = Z.of_nat m /\ v = StringCharCodeAt alphabet m)
  /\ (forall code v, baseMapLookup tb !! code = Some v <->
     exists m, (m < i)%nat /\ StringCharCodeAt alphabet m = code /\ v = Z.of_nat m)
  /\ (forall m, (m < i)%nat ->
     num_lt (StringCharCodeAt alphabet m) 0x21 = false
     /\ num_gt (StringCharCodeAt alphabet m) 0x7e = false).

(** The three maps of an instance. *)
Definition tables_of (t : Base64Encoding) : tables :=
  {| alphabetLookup := AlphabetLookup t;
     baseMap := BaseMap t;
     baseMapLookup := BaseMapLookup t |}.

(** The code unit of the digit [d], and the value of a digit list. *)
Definition symbol (alphabet : jsstring) (d : Z) : Z := nth (Z.to_nat d) alphabet 0.

Definition horner (ds : list Z) (acc : Z) : Z :=
  fold_left (fun r d => r * 64 + d) ds acc.

(** The 6-bit indices the inner encoding loop emits for the bytes [bs] of
    a group, the carry it leaves, and the indices of a whole input. *)
Fixpoint group_indices (bs : list Z) (j : nat) (carry : Z) : list Z :=
  match bs with
  | [] => []
  | b :: bs' =>
    (carry + Z.shiftr b (ENCODING_SHIFTS j))
    :: group_indices bs' (S j)
         (Z.shiftl (Z.land b (ENCODING_MASKS j)) (ENCODING_DIGITS j))
  end.

Fixpoint group_carry (bs : list Z) (j : nat) (carry : Z) : Z :=
  match bs with
  | [] => carry
  | b :: bs' =>
    group_carry bs' (S j)
      (Z.shiftl (Z.land b (ENCODING_MASKS j)) (ENCODING_DIGITS j))
  end.

Definition sextets (bs : list Z) : list Z :=
  group_indices bs 0 0 ++ [group_carry bs 0 0].

Fixpoint indices (bs : list Z) : list Z :=
  match bs with
  | [] => []
  | b0 :: b1 :: b2 :: rest => sextets [b0; b1; b2] ++ indices rest
  | _ => sextets bs
  end.

(** The output for a list of indices, as a string and as bytes. *)
Definition emit_string (alphabet : jsstring) (ks : list Z) : jsstring :=
  flat_map (fun k => ToString (string_index alphabet k)) ks.

Definition emit_bytes (baseMap : gmap Z (option Z)) (ks : list Z) : list Z :=
  map (MapGet_code baseMap) ks.

Definition is_byte (b : Z) : Prop := 0 <= b <= 0xff.
Definition is_sextet (k : Z) : Prop := 0 <= k < 64.

(** A string that [Encode] and [EncodeToBytes] do not reject. *)
Definition single_byte (string : jsstring) : Prop := Forall is_byte string.

(** The number of padding symbols after [n] symbols. *)
Definition padding_count (n : nat) : nat := (GetPaddedLength n - n)%nat.

(** The byte that fills the padded part of a byte output: the padding
    code, or the 0 the array was created with. *)
Definition padding_byte (t : Base64Encoding) : Z :=
  if truthy_number (PaddingCharCode t) then ToInt32 (PaddingCharCode t) mod 256
  else 0.

(** An output with the padding of [withPadding]. *)
Definition padded {A} (withPadding : bool) (pad : A) (out : list A) : list A :=
  if withPadding then out ++ replicate (padding_count (length out)) pad else out.

(** The values the inner decoding loop stores for the indices [ks] of a
    group, the carry it leaves, and the output for a whole input. *)
Section Octets.
(** How a value is stored: modulo 256 in a byte array, modulo 65536 in a
    string. *)
Variable wrap : Z -> Z.

Fixpoint group_octets (ks : list Z) (j : nat) (carry : Z) : list Z :=
  match ks with
  | [] => []
  | k :: ks' =>
    if negb (DECODING_MASKS j =? 0) then
      wrap (carry + Z.shiftr k (DECODING_DIGITS j))
      :: group_octets ks' (S j)
           (Z.shiftl (Z.land k (DECODING_MASKS j)) (DECODING_SHIFTS j))
    else group_octets ks' (S j) (carry + Z.shiftl k (DECODING_SHIFTS j))
  end.

Fixpoint group_rest (ks : list Z) (j : nat) (carry : Z) : Z :=
  match ks with
  | [] => carry
  | k :: ks' =>
    if negb (DECODING_MASKS j =? 0) then
      group_rest ks' (S j)
        (Z.shiftl (Z.land k (DECODING_MASKS j)) (DECODING_SHIFTS j))
    else group_rest ks' (S j) (carry + Z.shiftl k (DECODING_SHIFTS j))
  end.

Definition octets (ks : list Z) : list Z :=
  group_octets ks 0 0 ++ [wrap (group_rest ks 0 0)].

Fixpoint decoded (ks : list Z) : list Z :=
  match ks with
  | [] => []
  | k0 :: k1 :: k2 :: k3 :: rest => octets [k0; k1; k2; k3] ++ decoded rest
  | _ => octets ks
  end.
End Octets.

(** What the indices [ks] hold: the bytes of the full groups, and of a
    final group of two or three symbols the bytes stored before its end,
    without its carry. *)
Section Payload.
Variable wrap : Z -> Z.

Fixpoint payload (ks : list Z) : list Z :=
  match ks with
  | [] => []
  | k0 :: k1 :: k2 :: k3 :: rest => octets wrap [k0; k1; k2; k3] ++ payload rest
  | _ => group_octets wrap ks 0 0
  end.
End Payload.

Definition wrap_byte (z : Z) : Z := z mod 256.
Definition wrap_unit (z : Z) : Z := z mod 65536.

(** The symbols of [s] from [position] on have the indices [ks]. *)
Definition recognized_at (lookup : gmap (option Z) Z) (s : jsstring)
    (position : nat) (ks : list Z) : Prop :=
  forall p k, ks !! p = Some k -> lookup !! (s !! (position + p)%nat) = Some k.

(** The number of bytes decoded from [n] recognized symbols: 3 for each
    full group and one for each symbol of a final short group. *)
Definition decoded_count (n : nat) : nat := (3 * (n / 4) + n mod 4)%nat.

(** The per-call option [withPadding] of an encode method: [options] that
    do not give it, a method whose default is the table's padding, a
    method whose default is no padding, and a method that uses the value
    it is given. *)
Definition omits_withPadding (options : jsoptions call_options) : Prop :=
  match options with
  | Undefined => True
  | NotAnObject => False
  | Object o => withPadding o = None
  end.

Definition defaults_to_table_padding {I O : Type}
    (method : Base64Encoding -> I -> jsoptions call_options -> completion O)
    (encoder : Base64Encoding -> I -> bool -> completion O) : Prop :=
  forall this input options,
    omits_withPadding options ->
    method this input options = encoder this input (truthy_string (Padding this)).

Definition defaults_to_no_padding {I O : Type}
    (method : Base64Encoding -> I -> jsoptions call_options -> completion O)
    (encoder : Base64Encoding -> I -> bool -> completion O) : Prop :=
  forall this input options,
    omits_withPadding options ->
    method this input options = encoder this input false.

Definition honours_withPadding {I O : Type}
    (method : Base64Encoding -> I -> jsoptions call_options -> completion O)
    (encoder : Base64Encoding -> I -> bool -> completion O) : Prop :=
  forall this input o b,
    withPadding o = Some b ->
    method this input (Object o) = encoder this input b.


(** * The byte and text decoders

    ** Decoding from bytes

    An out-of-range read of the source is undefined, which is no key of
    the map. *)
Definition MapGet_index (m : gmap (option Z) Z) (charCode : option Z) : option Z :=
  match charCode with
  | Some c => m !! Some c
  | None => None
  end.

(** [while (position < length && source[position] === paddingCharCode)
    position++]. *)
Fixpoint skip_padding_bytes (source : list Z) (paddingCharCode : Z)
    (fuel position : nat) : completion nat :=
  if (position <? length source)%nat
     && code_is (source !! position) paddingCharCode then
    match fuel with
    | O => OutOfFuel
    | S fuel' => skip_padding_bytes source paddingCharCode fuel' (S position)
    end
  else Return position.

(** *** [DecodeBytes]: bytes to bytes *)

Fixpoint DecodeBytes_group (baseMapLookup : gmap (option Z) Z)
    (source : list Z) (paddingCharCode : Z) (ignorePadding : bool)
    (n j : nat) (carry : Z) (position index : nat) (result : list Z)
  : nat * nat * list Z * group_end :=
  match n with
  | O => (position, index, result, GroupDone carry)
  | S n' =>
    let charCode := source !! position in
    let position := S position in
    match MapGet_index baseMapLookup charCode with
    | None =>
      if code_is charCode paddingCharCode && negb ignorePadding then
        (position, index, result, GroupThrow PADDING)
      else
        (position, index, result, GroupThrow (RangeError "Invalid Base64 encoding"))
    | Some charIndex =>
      let mask := DECODING_MASKS j in
      let shift := DECODING_SHIFTS j in
      if negb (mask =? 0) then
        DecodeBytes_group baseMapLookup source paddingCharCode ignorePadding
          n' (S j) (Z.shiftl (Z.land charIndex mask) shift) position (S index)
          (<[index := ToUint8 (Some (carry + Z.shiftr charIndex (DECODING_DIGITS j)))]>
             result)
      else
        DecodeBytes_group baseMapLookup source paddingCharCode ignorePadding
          n' (S j) (carry + Z.shiftl charIndex shift) position index result
    end
  end.

Fixpoint DecodeBytes_for (baseMapLookup : gmap (option Z) Z)
    (source : list Z) (paddingCharCode : Z)
    (ignorePadding allowConcatenation : bool)
    (fuel i position index : nat) (result : list Z) : completion (nat * list Z) :=
  if (i <? length source)%nat then
    match fuel with
    | O => OutOfFuel
    | S fuel' =>
      let bytes := GetDecodingBytes (length source) position in
      match DecodeBytes_group baseMapLookup source paddingCharCode
              ignorePadding bytes 0 0 position index result with
      | (position, index, result, GroupDone carry) =>
        DecodeBytes_for baseMapLookup source paddingCharCode
          ignorePadding allowConcatenation fuel' (i + 4) position (S index)
          (<[index := ToUint8 (Some carry)]> result)
      | (position, index, result, GroupThrow PADDING) =>
        if allowConcatenation then
          let* position :=
            skip_padding_bytes source paddingCharCode (length source) position in
          DecodeBytes_for baseMapLookup source paddingCharCode
            ignorePadding allowConcatenation fuel' (position + 4) position index result
        else Return (index, result)
      | (_, _, _, GroupThrow e) => Throw e
      end
    end
  else Return (index, result).

Definition DecodeBytes (target : Base64Encoding) (source : list Z)
    (ignorePadding allowConcatenation : bool) : completion (list Z) :=
  let length := length source in
  if (length =? 0)%nat then Return []
  else
    let capacity := GetInverseCapacity length in
    let* r := DecodeBytes_for (BaseMapLookup target) source
                (padding_code_or_zero target)
                ignorePadding allowConcatenation length 0 0 0
                (replicate capacity 0) in
    let '(index, result) := r in
    Return (if bool_decide (capacity <> index) then take index result else result).

(** *** [DecodeBytesToString]: bytes to string *)

Fixpoint DecodeBytesToString_group (baseMapLookup : gmap (option Z) Z)
    (source : list Z) (paddingCharCode : Z) (ignorePadding : bool)
    (n j : nat) (carry : Z) (position : nat) (result : jsstring)
  : nat * jsstring * group_end :=
  match n with
  | O => (position, result, GroupDone carry)
  | S n' =>
    let charCode := source !! position in
    let position := S position in
    match MapGet_index baseMapLookup charCode with
    | None =>
      if code_is charCode paddingCharCode && negb ignorePadding then
        (position, result, GroupThrow PADDING)
      else
        (position, result, GroupThrow (RangeError "Invalid Base64 encoding"))
    | Some charIndex =>
      let mask := DECODING_MASKS j in
      let shift := DECODING_SHIFTS j in
      if negb (mask =? 0) then
        let charCode := carry + Z.shiftr charIndex (DECODING_DIGITS j) in
        DecodeBytesToString_group baseMapLookup source paddingCharCode ignorePadding
          n' (S j) (Z.shiftl (Z.land charIndex mask) shift) position
          (result ++ StringFromCharCode charCode)
      else
        DecodeBytesToString_group baseMapLookup source paddingCharCode ignorePadding
          n' (S j) (carry + Z.shiftl charIndex shift) position result
    end
  end.

Fixpoint DecodeBytesToString_for (baseMapLookup : gmap (option Z) Z)
    (source : list Z) (paddingCharCode : Z)
    (ignorePadding allowConcatenation : bool)
    (fuel i position : nat) (result : jsstring) : completion jsstring :=
  if (i <? length source)%nat then
    match fuel with
    | O => OutOfFuel
    | S fuel' =>
      let bytes := GetDecodingBytes (length source) position in
      match DecodeBytesToString_group baseMapLookup source paddingCharCode
              ignorePadding bytes 0 0 position result with
      | (position, result, GroupDone carry) =>
        DecodeBytesToString_for baseMapLookup source paddingCharCode
          ignorePadding allowConcatenation fuel' (i + 4) position
          (result ++ StringFromCharCode carry)
      | (position, result, GroupThrow PADDING) =>
        if allowConcatenation then
          let* position :=
            skip_padding_bytes source paddingCharCode (length source) position in
          DecodeBytesToString_for baseMapLookup source paddingCharCode
            ignorePadding allowConcatenation fuel' (position + 4) position result
        else Return result
      | (_, _, GroupThrow e) => Throw e
      end
    end
  else Return result.

Definition DecodeBytesToString (target : Base64Encoding) (source : list Z)
    (ignorePadding allowConcatenation : bool) : completion jsstring :=
  let length := length source in
  if (length =? 0)%nat then Return []
  else
    DecodeBytesToString_for (BaseMapLookup target) source
      (padding_code_or_zero target)
      ignorePadding allowConcatenation length 0 0 [].

(** ** The text decoders, on the external [UTF8Decode] *)
Section TextDecoding.
Variable UTF8Decode : list Z -> jsstring.

Definition DecodeText (target : Base64Encoding) (encodedString : jsstring)
    (ignorePadding allowConcatenation : bool) : completion jsstring :=
  let* buffer := DecodeToBytes target encodedString ignorePadding allowConcatenation in
  Return (UTF8Decode buffer).

Definition DecodeBytesToText (target : Base64Encoding) (buffer : list Z)
    (ignorePadding allowConcatenation : bool) : completion jsstring :=
  let* bytes := DecodeBytes target buffer ignorePadding allowConcatenation in
  Return (UTF8Decode bytes).

Definition decodeText (this : Base64Encoding) (encodedString : jsstring)
    (options : jsoptions call_options) : completion jsstring :=
  let* f := decoding_flags this options in
  DecodeText this encodedString (fst f) (snd f).

Definition decodeBytesToText (this : Base64Encoding) (buffer : list Z)
    (options : jsoptions call_options) : completion jsstring :=
  let* f := decoding_flags this options in
  DecodeBytesToText this buffer (fst f) (snd f).
End TextDecoding.

Definition decodeBytes (this : Base64Encoding) (buffer : list Z)
    (options : jsoptions call_options) : completion (list Z) :=
  let* f := decoding_flags this options in
  DecodeBytes this buffer (fst f) (snd f).

Definition decodeBytesToString (this : Base64Encoding) (buffer : list Z)
    (options : jsoptions call_options) : completion jsstring :=
  let* f := decoding_flags this options in
  DecodeBytesToString this buffer (fst f) (snd f).

(** ** Definitions for the further statements *)

(** The options the constructor accepts for an alphabet: no padding
    option and no character [=] in the alphabet, the empty padding, or one
    padding character that is printable and not in the alphabet. *)
Definition padding_accepted (alphabet : jsstring)
    (options : jsoptions padding_option) : Prop :=
  match options with
  | Undefined | Object PaddingUndefined => DEFAULT_PADDING_CHAR_CODE ∉ alphabet
  | Object (PaddingString []) => True
  | Object (PaddingString [c]) => 0x21 <= c <= 0x7e /\ c ∉ alphabet
  | _ => False
  end.

(** What a decoder may complete with: a result, or the RangeError of an
    invalid symbol. *)
Definition returns_or_rejects {A} (c : completion A) : Prop :=
  match c with
  | Return _ => True
  | Throw (RangeError msg) => msg = "Invalid Base64 encoding"%string
  | _ => False
  end.

(** The number of groups of an input of [n] bytes. *)
Definition groups (n : nat) : nat := ((n + 2) / 3)%nat.

(** * Properties *)

(** ** The exported instances *)

Lemma BASIC_constructed : constructor basic_alphabet Undefined = Return BASIC.
Proof. vm_compute. reflexivity. Qed.

Lemma URL_constructed :
  constructor url_alphabet (Object (PaddingString [])) = Return URL.
Proof. vm_compute. reflexivity. Qed.

Example BASIC_padding : Padding BASIC = str "=" /\ PaddingCharCode BASIC = Some 0x3d.
Proof. split; reflexivity. Qed.

Example URL_padding : Padding URL = [] /\ PaddingCharCode URL = None.
Proof. split; reflexivity. Qed.

Lemma char_at_code (s : jsstring) (m k : nat) :
  char_at s m = char_at s k <-> StringCharCodeAt s m = StringCharCodeAt s k.
Proof.
  unfold char_at, StringCharCodeAt.
  destruct (s !! m), (s !! k); split; intros H; congruence.
Qed.

Lemma tables_upto_empty alphabet : tables_upto alphabet 0 empty_tables.
Proof.
  unfold tables_upto, empty_tables; simpl.
  repeat split; try (intros Hx; rewrite lookup_empty in Hx; discriminate).
  all: try (intros (m & Hm & _); lia).
  all: lia.
Qed.

Lemma tables_upto_step alphabet i tb :
  tables_upto alphabet i tb ->
  alphabetLookup tb !! char_at alphabet i = None ->
  num_lt (StringCharCodeAt alphabet i) 0x21 = false ->
  num_gt (StringCharCodeAt alphabet i) 0x7e = false ->
  tables_upto alphabet (S i)
    {| alphabetLookup := <[char_at alphabet i := Z.of_nat i]> (alphabetLookup tb);
       baseMap := <[Z.of_nat i := StringCharCodeAt alphabet i]> (baseMap tb);
       baseMapLookup := <[StringCharCodeAt alphabet i := Z.of_nat i]> (baseMapLookup tb) |}.
Proof.
  intros (HA & HB & HL & HR) Hfresh Hlo Hhi.
  assert (Hne : forall m, (m < i)%nat -> char_at alphabet i <> char_at alphabet m).
  { intros m Hm Heq.
    assert (alphabetLookup tb !! char_at alphabet m = Some (Z.of_nat m)) as Hin
      by (apply HA; eauto).
    rewrite <- Heq, Hfresh in Hin. discriminate. }
  repeat split; simpl.
  - rewrite lookup_insert_Some. intros [[<- <-] | [Hk Hv]].
    + exists i. split; [lia | auto].
    + apply HA in Hv as (m & Hm & Hc & ->). exists m. split; [lia | auto].
  - intros (m & Hm & <- & ->). rewrite lookup_insert_Some.
    destruct (decide (m = i)) as [-> | Hmi]; [left; auto | right].
    split; [apply Hne; lia |]. apply HA. exists m. split; [lia | auto].
  - rewrite lookup_insert_Some. intros [[<- <-] | [Hk Hv]].
    + exists i. split; [lia | auto].
    + apply HB in Hv as (m & Hm & -> & ->). exists m. split; [lia | auto].
  - intros (m & Hm & -> & ->). rewrite lookup_insert_Some.
    destruct (decide (m = i)) as [-> | Hmi]; [left; auto | right].
    split; [lia |]. apply HB. exists m. split; [lia | auto].
  - rewrite lookup_insert_Some. intros [[<- <-] | [Hk Hv]].
    + exists i. split; [lia | auto].
    + apply HL in Hv as (m & Hm & Hc & ->). exists m. split; [lia | auto].
  - intros (m & Hm & <- & ->). rewrite lookup_insert_Some.
    destruct (decide (m = i)) as [-> | Hmi]; [left; auto | right].
    split.
    + intros Heq. apply (Hne m); [lia |]. apply char_at_code. exact Heq.
    + apply HL. exists m. split; [lia | auto].
  - destruct (decide (m = i)) as [-> | Hmi]; [auto | apply HR; lia].
  - destruct (decide (m = i)) as [-> | Hmi]; [auto | apply HR; lia].
Qed.

Lemma constructor_loop_tables alphabet n : forall i tb tb',
  tables_upto alphabet i tb ->
  constructor_loop alphabet n i tb = Return tb' ->
  tables_upto alphabet (i + n) tb'.
Proof.
  induction n as [| n IH]; intros i tb tb' Hinv Hrun; simpl in Hrun.
  - injection Hrun as <-. rewrite Nat.add_0_r. exact Hinv.
  - destruct (bool_decide _) eqn:Hhas; [discriminate |].
    apply bool_decide_eq_false in Hhas.
    destruct (num_lt _ _) eqn:Hlo; [discriminate |].
    destruct (num_gt _ _) eqn:Hhi; [discriminate |].
    simpl in Hrun. apply IH in Hrun.
    + replace (i + S n)%nat with (S i + n)%nat by lia. exact Hrun.
    + apply tables_upto_step; auto.
      destruct (alphabetLookup tb !! char_at alphabet i) eqn:E; [| reflexivity].
      exfalso. apply Hhas. eauto.
Qed.

Lemma constructor_Return alphabet options t :
  constructor alphabet options = Return t ->
  Alphabet t = alphabet
  /\ (1 <= length alphabet <= 64)%nat
  /\ tables_upto alphabet 64 (tables_of t)
  /\ constructor_padding options = Return (Padding t, PaddingCharCode t)
  /\ AlphabetLookup t !! Some (Padding t) = None.
Proof.
  unfold constructor. intros Hrun.
  destruct (_ || _) eqn:Hlen; [discriminate |].
  apply orb_false_elim in Hlen as [Hz Hbig].
  apply Nat.eqb_neq in Hz. apply Nat.ltb_ge in Hbig.
  destruct (constructor_loop alphabet 64 0 empty_tables) as [tb | |] eqn:Hloop;
    simpl in Hrun; try discriminate.
  destruct (constructor_padding options) as [[padding code] | |] eqn:Hpad;
    simpl in Hrun; try discriminate.
  destruct (bool_decide _) eqn:Hhas; [discriminate |].
  apply bool_decide_eq_false in Hhas.
  injection Hrun as <-. simpl.
  apply constructor_loop_tables in Hloop; [| apply tables_upto_empty].
  split; [reflexivity |]. split; [lia |]. split; [exact Hloop |].
  split; [reflexivity |].
  destruct (alphabetLookup tb !! Some padding) eqn:E; [| reflexivity].
  exfalso. apply Hhas. eauto.
Qed.

(** What a successful construction says about the padding slots. *)
Lemma constructor_padding_Return options padding code :
  constructor_padding options = Return (padding, code) ->
  (padding = [] /\ code = None)
  \/ (exists c, padding = [c] /\ code = Some c /\ 0x21 <= c <= 0x7e).
Proof.
  assert (Hdef : @Return (jsstring * option Z)
                   (DEFAULT_PADDING, Some DEFAULT_PADDING_CHAR_CODE)
                 = Return (padding, code) ->
                 exists c, padding = [c] /\ code = Some c /\ 0x21 <= c <= 0x7e).
  { intros [= <- <-]. exists 0x3d. repeat split; try reflexivity; lia. }
  unfold constructor_padding.
  destruct options as [| | [| | s]]; simpl; intros H; try discriminate;
    try (right; apply Hdef; exact H).
  destruct s as [| c [| c' s]]; simpl in H.

  - injection H as <- <-. left. auto.
  - destruct (c <? 33) eqn:Hlo; [discriminate |].
    destruct (126 <? c) eqn:Hhi; [discriminate |]. simpl in H.
    injection H as <- <-. right. exists c. repeat split; lia.
  - discriminate.
Qed.

Lemma char_at_Some (s : jsstring) (m : nat) (c : Z) :
  char_at s m = Some [c] <-> s !! m = Some c.
Proof.
  unfold char_at. destruct (s !! m); split; intros H; congruence.
Qed.

Lemma char_at_None (s : jsstring) (m : nat) :
  char_at s m = None <-> (length s <= m)%nat.
Proof.
  unfold char_at. rewrite <- lookup_ge_None.
  destruct (s !! m); split; intros H; congruence.
Qed.

Section Constructed.
Variable alphabet : jsstring.
Variable options : jsoptions padding_option.
Variable t : Base64Encoding.
Hypothesis Hnew : constructor alphabet options = Return t.

Lemma constructed_Alphabet : Alphabet t = alphabet.
Proof. apply (constructor_Return _ _ _ Hnew). Qed.

Lemma constructed_tables : tables_upto alphabet 64 (tables_of t).
Proof. apply (constructor_Return _ _ _ Hnew). Qed.

Lemma constructed_length : (63 <= length alphabet <= 64)%nat.
Proof.
  destruct (constructor_Return _ _ _ Hnew) as (_ & Hlen & (HA & _) & _).
  split; [| lia].
  destruct (le_lt_dec 63 (length alphabet)) as [| Hshort]; [assumption |].
  exfalso.
  assert (H62 : char_at alphabet 62 = None) by (apply char_at_None; lia).
  assert (H63 : char_at alphabet 63 = None) by (apply char_at_None; lia).
  assert (E62 : alphabetLookup (tables_of t) !! None = Some (Z.of_nat 62))
    by (apply HA; exists 62%nat; split; [lia | auto]).
  assert (E63 : alphabetLookup (tables_of t) !! None = Some (Z.of_nat 63))
    by (apply HA; exists 63%nat; split; [lia | auto]).
  rewrite E62 in E63. discriminate.
Qed.

Lemma constructed_AlphabetLookup (m : nat) (c : Z) :
  alphabet !! m = Some c ->
  AlphabetLookup t !! Some [c] = Some (Z.of_nat m).
Proof.
  intros Hm. destruct constructed_tables as (HA & _).
  apply (HA (Some [c])). exists m. split; [| split; [| reflexivity]].
  - apply lookup_lt_Some in Hm. pose proof constructed_length. lia.
  - apply char_at_Some. exact Hm.
Qed.

Lemma constructed_AlphabetLookup_None (c : Z) :
  c ∉ alphabet -> AlphabetLookup t !! Some [c] = None.
Proof.
  intros Hc. destruct constructed_tables as (HA & _).
  destruct (AlphabetLookup t !! Some [c]) as [v |] eqn:E; [| reflexivity].
  apply (HA (Some [c])) in E as (m & _ & Hm & _).
  apply char_at_Some in Hm. exfalso. apply Hc.
  apply list_elem_of_lookup. eauto.
Qed.

Lemma constructed_BaseMapLookup (m : nat) (c : Z) :
  alphabet !! m = Some c ->
  BaseMapLookup t !! Some c = Some (Z.of_nat m).
Proof.
  intros Hm. destruct constructed_tables as (_ & _ & HL & _).
  apply (HL (Some c)). exists m. split; [| split; [| reflexivity]].
  - apply lookup_lt_Some in Hm. pose proof constructed_length. lia.
  - exact Hm.
Qed.

Lemma constructed_BaseMapLookup_None (c : Z) :
  c ∉ alphabet -> BaseMapLookup t !! Some c = None.
Proof.
  intros Hc. destruct constructed_tables as (_ & _ & HL & _).
  destruct (BaseMapLookup t !! Some c) as [v |] eqn:E; [| reflexivity].
  apply (HL (Some c)) in E as (m & _ & Hm & _).
  exfalso. apply Hc. apply list_elem_of_lookup. eauto.
Qed.

Lemma constructed_BaseMap (m : nat) (c : Z) :
  alphabet !! m = Some c ->
  BaseMap t !! Z.of_nat m = Some (Some c).
Proof.
  intros Hm. destruct constructed_tables as (_ & HB & _).
  apply (HB (Z.of_nat m)). exists m. split; [| split; [reflexivity |]].
  - apply lookup_lt_Some in Hm. pose proof constructed_length. lia.
  - unfold StringCharCodeAt. congruence.
Qed.

Lemma constructed_code_range (m : nat) (c : Z) :
  alphabet !! m = Some c -> 0x21 <= c <= 0x7e.
Proof.
  intros Hm. destruct constructed_tables as (_ & _ & _ & HR).
  destruct (HR m) as [Hlo Hhi].
  - apply lookup_lt_Some in Hm. pose proof constructed_length. lia.
  - unfold StringCharCodeAt in *. rewrite Hm in Hlo, Hhi. simpl in *. lia.
Qed.

Lemma constructed_NoDup : NoDup alphabet.
Proof.
  apply NoDup_alt. intros i j c Hi Hj.
  pose proof (constructed_AlphabetLookup _ _ Hi) as Ei.
  pose proof (constructed_AlphabetLookup _ _ Hj) as Ej.
  rewrite Ei in Ej. injection Ej. lia.
Qed.

Lemma constructed_padding :
  (Padding t = [] /\ PaddingCharCode t = None)
  \/ (exists c, Padding t = [c] /\ PaddingCharCode t = Some c
                /\ 0x21 <= c <= 0x7e /\ c ∉ alphabet).
Proof.
  destruct (constructor_Return _ _ _ Hnew) as (_ & _ & _ & Hpad & Hfresh).
  apply constructor_padding_Return in Hpad as [? | (c & Hp & Hc & Hr)];
    [left; assumption | right].
  exists c. repeat split; try assumption; try lia.
  intros Hin. apply list_elem_of_lookup in Hin as [m Hm].
  apply constructed_AlphabetLookup in Hm. rewrite Hp in Hfresh. congruence.
Qed.
End Constructed.

(** ** Integer decoding *)

Lemma leading_zeros_Return (s : jsstring) (z : option jsstring) :
  forall fuel lz, (length s - lz <= fuel)%nat ->
  exists lz', leading_zeros s z fuel lz = Return lz'
    /\ (lz <= lz')%nat
    /\ (forall q, (lz <= q < lz')%nat -> (q < length s)%nat /\ char_at s q = z)
    /\ ((lz' < length s)%nat -> char_at s lz' <> z).
Proof.
  induction fuel as [| fuel IH]; intros lz Hfuel.
  - exists lz. simpl.
    assert (Hout : (lz <? length s)%nat = false) by (apply Nat.ltb_ge; lia).
    rewrite Hout. simpl. split; [reflexivity |]. split; [lia |].
    split; intros; lia.
  - simpl. destruct ((lz <? length s)%nat && _) eqn:Hcond.
    + apply andb_true_iff in Hcond as [Hlt Hz].
      apply Nat.ltb_lt in Hlt. apply bool_decide_eq_true in Hz.
      destruct (IH (S lz)) as (lz' & Hrun & Hle & Hzeros & Hstop); [lia |].
      exists lz'. split; [exact Hrun |]. split; [lia |]. split; [| exact Hstop].
      intros q Hq. destruct (decide (q = lz)) as [-> | Hne]; [auto |].
      apply Hzeros. lia.
    + exists lz. split; [reflexivity |]. split; [lia |]. split; [intros; lia |].
      intros Hlt Hz. apply andb_false_iff in Hcond as [Hc | Hc].
      * apply Nat.ltb_ge in Hc. lia.
      * apply bool_decide_eq_false in Hc. contradiction.
Qed.

Lemma DecodeInt_for_NaN (lookup : gmap (option jsstring) Z) (s : jsstring) :
  forall n i result p,
  (i <= p < i + n)%nat -> lookup !! char_at s p = None ->
  DecodeInt_for lookup s n i result = NaN.
Proof.
  induction n as [| n IH]; intros i result p Hp Hbad; [lia |].
  simpl. destruct (lookup !! char_at s i) as [charIndex |] eqn:E; [| reflexivity].
  apply (IH _ _ p); [| exact Hbad].
  destruct (decide (p = i)) as [-> | Hne]; [congruence | lia].
Qed.

Lemma DecodeBigInt_for_Throw (lookup : gmap (option jsstring) Z) (s : jsstring) :
  forall n i result p,
  (i <= p < i + n)%nat -> lookup !! char_at s p = None ->
  DecodeBigInt_for lookup s n i result
  = Throw (RangeError "Invalid Base64 encoded integer").
Proof.
  induction n as [| n IH]; intros i result p Hp Hbad; [lia |].
  simpl. destruct (lookup !! char_at s i) as [charIndex |] eqn:E; [| reflexivity].
  apply (IH _ _ p); [| exact Hbad].
  destruct (decide (p = i)) as [-> | Hne]; [congruence | lia].
Qed.

(** C8. For an instance the constructor has returned and every input that
    contains a symbol outside its alphabet, [decodeInt] returns NaN and does
    not throw, and [decodeBigInt] throws the RangeError
    'Invalid Base64 encoded integer'. *)
Theorem decodeInt_NaN_decodeBigInt_throws
    (alphabet : jsstring) (options : jsoptions padding_option)
    (t : Base64Encoding) (encodedInteger : jsstring) (c : Z) :
  constructor alphabet options = Return t ->
  c ∈ encodedInteger -> c ∉ alphabet ->
  decodeInt t encodedInteger = Return NaN
  /\ decodeBigInt t encodedInteger
     = Throw (RangeError "Invalid Base64 encoded integer").
Proof.
  intros Hnew Hin Hout.
  apply list_elem_of_lookup in Hin as [p Hp].
  pose proof (lookup_lt_Some _ _ _ Hp) as Hlen.
  assert (Hbad : AlphabetLookup t !! char_at encodedInteger p = None).
  { apply char_at_Some in Hp. rewrite Hp.
    eapply constructed_AlphabetLookup_None; eauto. }
  unfold decodeInt, decodeBigInt, DecodeInt, DecodeBigInt.
  destruct (length encodedInteger =? 0)%nat eqn:Hz;
    [apply Nat.eqb_eq in Hz; lia |].
  destruct (leading_zeros_Return encodedInteger (char_at (Alphabet t) 0)
              (length encodedInteger) 0) as (lz & -> & _ & Hzeros & _); [lia |].
  simpl.
  assert (Hlz : (lz <= p)%nat).
  { destruct (le_lt_dec lz p) as [| Hlt]; [assumption | exfalso].
    destruct (Hzeros p) as [_ Hz0]; [lia |].
    rewrite (constructed_Alphabet _ _ _ Hnew) in Hz0.
    apply char_at_Some in Hp. rewrite Hp in Hz0. symmetry in Hz0.
    apply char_at_Some in Hz0. apply Hout. apply list_elem_of_lookup. eauto. }
  split.
  - f_equal. apply (DecodeInt_for_NaN _ _ _ _ _ p); [lia | exact Hbad].
  - apply (DecodeBigInt_for_Throw _ _ _ _ _ p); [lia | exact Hbad].
Qed.

Lemma decodeInt_NaN_decodeBigInt_throws_witness :
  decodeInt BASIC (str "B!") = Return NaN
  /\ decodeBigInt BASIC (str "B!")
     = Throw (RangeError "Invalid Base64 encoded integer").
Proof.
  apply (decodeInt_NaN_decodeBigInt_throws basic_alphabet Undefined BASIC
           (str "B!") 33).
  - exact BASIC_constructed.
  - vm_compute. apply list_elem_of_further, list_elem_of_here.
  - intros H. apply list_elem_of_In in H. vm_compute in H.
    repeat (destruct H as [H | H]; [discriminate H |]). exact H.
Defined.

(** ** Integer encoding *)

Lemma string_index_symbol (alphabet : jsstring) (d : Z) :
  0 <= d < Z.of_nat (length alphabet) ->
  string_index alphabet d = Some [symbol alphabet d]
  /\ alphabet !! Z.to_nat d = Some (symbol alphabet d).
Proof.
  intros Hd. unfold string_index, symbol.
  destruct (d <? 0) eqn:Hneg; [lia |].
  assert (Hlt : (Z.to_nat d < length alphabet)%nat) by lia.
  destruct (lookup_lt_is_Some_2 alphabet (Z.to_nat d) Hlt) as [c Hc].
  rewrite (nth_lookup_Some _ _ 0 _ Hc).
  split; [apply char_at_Some |]; exact Hc.
Qed.

Lemma horner_snoc (ds : list Z) (d acc : Z) :
  horner (ds ++ [d]) acc = horner ds acc * 64 + d.
Proof. unfold horner. rewrite fold_left_app. reflexivity. Qed.

Lemma log2_div_64 (carry : Z) :
  0 < carry / 64 -> Z.log2 (carry / 64) < Z.log2 carry.
Proof.
  intros Hq.
  assert (Hc : 64 <= carry).
  { pose proof (Z.div_mod carry 64). pose proof (Z.mod_pos_bound carry 64). lia. }
  replace (carry / 64) with (Z.shiftr carry 6)
    by (rewrite Z.shiftr_div_pow2 by lia; reflexivity).
  rewrite Z.log2_shiftr by lia.
  assert (6 <= Z.log2 carry) by (apply Z.log2_le_pow2; simpl; lia).
  lia.
Qed.

Lemma EncodeInt_while_zero alphabet fuel result :
  EncodeInt_while alphabet fuel 0 result = Return result.
Proof. destruct fuel; reflexivity. Qed.

Lemma EncodeInt_while_digits (alphabet : jsstring) :
  length alphabet = 64%nat ->
  forall fuel carry result,
  0 < carry -> Z.log2 carry < Z.of_nat fuel ->
  exists ds,
    EncodeInt_while alphabet fuel carry result
    = Return (map (symbol alphabet) ds ++ result)
    /\ Forall (fun d => 0 <= d < 64) ds
    /\ horner ds 0 = carry
    /\ exists d ds', ds = d :: ds' /\ d <> 0.
Proof.
  intros Hlen. induction fuel as [| fuel IH]; intros carry result Hpos Hfuel.
  - pose proof (Z.log2_nonneg carry). lia.
  - simpl. destruct (carry =? 0) eqn:Hz; [lia |].
    rewrite Z.rem_mod_nonneg by lia.
    assert (Hd : 0 <= carry mod 64 < 64) by (apply Z.mod_pos_bound; lia).
    destruct (string_index_symbol alphabet (carry mod 64)) as [-> _]; [lia |].
    simpl.
    destruct (Z_le_gt_dec (carry / 64) 0) as [Hsmall | Hbig].
    + assert (Hq : carry / 64 = 0) by (pose proof (Z.div_pos carry 64); lia).
      rewrite Hq, EncodeInt_while_zero.
      exists [carry mod 64]. split; [reflexivity |].
      split; [repeat constructor; lia |].
      pose proof (Z.div_mod carry 64).
      split; [unfold horner; simpl; lia |].
      exists (carry mod 64), []. split; [reflexivity | lia].
    + destruct (IH (carry / 64) (symbol alphabet (carry mod 64) :: result))
        as (ds & Hrun & Hrange & Hval & d & ds' & Hhd & Hnz); [lia | |].
      { pose proof (log2_div_64 carry). lia. }
      exists (ds ++ [carry mod 64]). rewrite Hrun.
      split; [rewrite map_app, <- app_assoc; reflexivity |].
      split; [apply Forall_app; split; [assumption | repeat constructor; lia] |].
      pose proof (Z.div_mod carry 64).
      split; [rewrite horner_snoc, Hval; lia |].
      exists d, (ds' ++ [carry mod 64]). rewrite Hhd. split; [reflexivity | exact Hnz].
Qed.

Lemma EncodeBigInt_while_EncodeInt_while alphabet :
  forall fuel carry result, 0 <= carry ->
  EncodeBigInt_while alphabet fuel carry result
  = EncodeInt_while alphabet fuel carry result.
Proof.
  induction fuel as [| fuel IH]; intros carry result Hpos; [reflexivity |].
  simpl. destruct (carry =? 0); [reflexivity |].
  rewrite Z.quot_div_nonneg by lia. apply IH. apply Z.div_pos; lia.
Qed.

Lemma drop_cons_inv {A} (l : list A) (i : nat) (x : A) (r : list A) :
  drop i l = x :: r -> l !! i = Some x /\ drop (S i) l = r.
Proof.
  intros H. split.
  - rewrite <- (Nat.add_0_r i), <- lookup_drop, H. reflexivity.
  - replace (S i) with (i + 1)%nat by lia.
    rewrite <- drop_drop, H. reflexivity.
Qed.

Lemma DecodeInt_for_horner (alphabet : jsstring)
    (lookup : gmap (option jsstring) Z) (s : jsstring) :
  forall ds i acc,
  drop i s = map (symbol alphabet) ds ->
  Forall (fun d => lookup !! Some [symbol alphabet d] = Some d) ds ->
  DecodeInt_for lookup s (length ds) i acc = Some (horner ds acc).
Proof.
  induction ds as [| d ds IH]; intros i acc Hdrop Hds; [reflexivity |].
  simpl in Hdrop. apply drop_cons_inv in Hdrop as [Hi Hrest].
  apply Forall_cons in Hds as [Hd Hds].
  simpl. apply char_at_Some in Hi. rewrite Hi, Hd.
  apply IH; assumption.
Qed.

Lemma DecodeBigInt_for_horner (alphabet : jsstring)
    (lookup : gmap (option jsstring) Z) (s : jsstring) :
  forall ds i acc,
  drop i s = map (symbol alphabet) ds ->
  Forall (fun d => lookup !! Some [symbol alphabet d] = Some d) ds ->
  DecodeBigInt_for lookup s (length ds) i acc = Return (horner ds acc).
Proof.
  induction ds as [| d ds IH]; intros i acc Hdrop Hds; [reflexivity |].
  simpl in Hdrop. apply drop_cons_inv in Hdrop as [Hi Hrest].
  apply Forall_cons in Hds as [Hd Hds].
  simpl. apply char_at_Some in Hi. rewrite Hi, Hd.
  apply IH; assumption.
Qed.

Section IntegerRoundTrip.
Variable alphabet : jsstring.
Variable options : jsoptions padding_option.
Variable t : Base64Encoding.
Hypothesis Hnew : constructor alphabet options = Return t.
Hypothesis Hlen : length alphabet = 64%nat.

Lemma digit_lookup (d : Z) :
  0 <= d < 64 ->
  alphabet !! Z.to_nat d = Some (symbol alphabet d)
  /\ AlphabetLookup t !! Some [symbol alphabet d] = Some d.
Proof.
  intros Hd.
  destruct (string_index_symbol alphabet d) as [_ Hsym]; [lia |].
  split; [exact Hsym |].
  rewrite (constructed_AlphabetLookup _ _ _ Hnew _ _ Hsym). f_equal. lia.
Qed.

Lemma digits_lookup (ds : list Z) :
  Forall (fun d => 0 <= d < 64) ds ->
  Forall (fun d => AlphabetLookup t !! Some [symbol alphabet d] = Some d) ds.
Proof.
  intros Hds. eapply Forall_impl; [exact Hds |].
  intros d Hd. apply digit_lookup. exact Hd.
Qed.

Lemma zero_char : char_at (Alphabet t) 0 = Some [symbol alphabet 0].
Proof.
  rewrite (constructed_Alphabet _ _ _ Hnew).
  apply char_at_Some. apply (digit_lookup 0). lia.
Qed.

Lemma leading_zeros_of_digits (d : Z) (ds : list Z) :
  0 <= d < 64 -> d <> 0 ->
  let s := map (symbol alphabet) (d :: ds) in
  leading_zeros s (char_at (Alphabet t) 0) (length s) 0 = Return 0%nat.
Proof.
  intros Hd Hnz s.
  destruct (leading_zeros_Return s (char_at (Alphabet t) 0) (length s) 0)
    as (lz & Hrun & _ & Hzeros & _); [lia |].
  rewrite Hrun. f_equal.
  destruct lz as [| lz]; [reflexivity | exfalso].
  destruct (Hzeros 0%nat) as [_ Hz]; [lia |].
  rewrite zero_char in Hz. simpl in Hz. injection Hz as Hz.
  destruct (digit_lookup d Hd) as [_ Ed].
  destruct (digit_lookup 0) as [_ E0]; [lia |].
  rewrite Hz, E0 in Ed. congruence.
Qed.

Lemma leading_zeros_of_zero :
  leading_zeros [symbol alphabet 0] (char_at (Alphabet t) 0) 1 0 = Return 1%nat.
Proof.
  simpl. rewrite zero_char.
  rewrite bool_decide_eq_true_2 by reflexivity. reflexivity.
Qed.

Lemma roundtrip_positive (n : Z) :
  0 < n ->
  exists s,
    EncodeInt t n = Return (Some s)
    /\ DecodeInt t s = Return (Some n)
    /\ EncodeBigInt t n = Return (Some s)
    /\ DecodeBigInt t s = Return n.
Proof.
  intros Hn.
  destruct (EncodeInt_while_digits alphabet Hlen (S (Z.to_nat (Z.log2 n))) n [])
    as (ds & Hrun & Hrange & Hval & d & ds' & Hhd & Hnz); [lia | |].
  { pose proof (Z.log2_nonneg n). lia. }
  rewrite app_nil_r in Hrun.
  exists (map (symbol alphabet) ds).
  assert (Hd : 0 <= d < 64).
  { rewrite Hhd in Hrange. apply Forall_cons in Hrange as [Hd _]. exact Hd. }
  assert (Hne : (length (map (symbol alphabet) ds) =? 0)%nat = false).
  { rewrite Hhd. reflexivity. }
  assert (Hzeros : leading_zeros (map (symbol alphabet) ds)
                     (char_at (Alphabet t) 0)
                     (length (map (symbol alphabet) ds)) 0 = Return 0%nat).
  { rewrite Hhd. apply leading_zeros_of_digits; assumption. }
  assert (Hencode : EncodeInt t n = Return (Some (map (symbol alphabet) ds))).
  { unfold EncodeInt. destruct (n =? 0) eqn:Hz; [lia |].
    rewrite (constructed_Alphabet _ _ _ Hnew), Hrun. reflexivity. }
  split; [exact Hencode |]. split; [| split].
  - unfold DecodeInt. rewrite Hne, Hzeros. simpl.
    rewrite Nat.sub_0_r, length_map. f_equal.
    rewrite (DecodeInt_for_horner alphabet); [congruence | reflexivity |].
    apply digits_lookup. exact Hrange.
  - unfold EncodeBigInt. destruct (n =? 0) eqn:Hz; [lia |].
    rewrite EncodeBigInt_while_EncodeInt_while by lia.
    rewrite Z.abs_eq by lia.
    rewrite (constructed_Alphabet _ _ _ Hnew), Hrun. reflexivity.
  - unfold DecodeBigInt. rewrite Hne, Hzeros. simpl.
    rewrite Nat.sub_0_r, length_map.
    rewrite (DecodeBigInt_for_horner alphabet); [congruence | reflexivity |].
    apply digits_lookup. exact Hrange.
Qed.

Lemma roundtrip_zero :
  EncodeInt t 0 = Return (Some [symbol alphabet 0])
  /\ DecodeInt t [symbol alphabet 0] = Return (Some 0)
  /\ EncodeBigInt t 0 = Return (Some [symbol alphabet 0])
  /\ DecodeBigInt t [symbol alphabet 0] = Return 0.
Proof.
  assert (Hfirst : string_index (Alphabet t) 0 = Some [symbol alphabet 0]).
  { rewrite (constructed_Alphabet _ _ _ Hnew).
    apply string_index_symbol. lia. }
  unfold EncodeInt, EncodeBigInt, DecodeInt, DecodeBigInt. simpl length.
  change (1 =? 0)%nat with false. cbv iota.
  rewrite leading_zeros_of_zero. simpl. rewrite Hfirst. auto.
Qed.
End IntegerRoundTrip.

(** C7. For an instance the constructor has returned from a 64-character
    alphabet: [decodeBigInt(encodeBigInt(n))] is [n] for every non-negative
    integer [n]; [decodeInt(encodeInt(n))] is [n] for every non-negative
    safe integer [n]; and [encodeInt(0)] and [encodeBigInt(0)] are the
    first character of the alphabet. *)
Theorem decodeInt_encodeInt
    (alphabet : jsstring) (options : jsoptions padding_option)
    (t : Base64Encoding) :
  constructor alphabet options = Return t ->
  length alphabet = 64%nat ->
  (forall n, 0 <= n ->
     exists s, encodeBigInt t n = Return (Some s)
               /\ decodeBigInt t s = Return n)
  /\ (forall n, 0 <= n <= MAX_SAFE_INTEGER ->
     exists s, encodeInt t (Finite n) = Return (Some s)
               /\ decodeInt t s = Return (Some n))
  /\ encodeInt t (Finite 0) = Return (char_at alphabet 0)
  /\ encodeBigInt t 0 = Return (char_at alphabet 0)
  /\ exists first, char_at alphabet 0 = Some [first].
Proof.
  intros Hnew Hlen.
  destruct (roundtrip_zero _ _ _ Hnew Hlen) as (Hz1 & Hz2 & Hz3 & Hz4).
  assert (Hfirst : char_at alphabet 0 = Some [symbol alphabet 0]).
  { pose proof (zero_char alphabet options t Hnew Hlen) as Hz.
    rewrite (constructed_Alphabet _ _ _ Hnew) in Hz. exact Hz. }
  assert (Hall : forall n, 0 <= n ->
            exists s, EncodeInt t n = Return (Some s)
                      /\ DecodeInt t s = Return (Some n)
                      /\ EncodeBigInt t n = Return (Some s)
                      /\ DecodeBigInt t s = Return n).
  { intros n Hn. destruct (Z.eq_dec n 0) as [-> | Hnz].
    - exists [symbol alphabet 0]. auto.
    - apply (roundtrip_positive _ _ _ Hnew Hlen). lia. }
  split; [| split; [| split; [| split]]].
  - intros n Hn. destruct (Hall n Hn) as (s & _ & _ & He & Hd).
    exists s. unfold encodeBigInt, decodeBigInt.
    destruct (n <? 0) eqn:Hneg; [lia | auto].
  - intros n [Hn _]. destruct (Hall n Hn) as (s & He & Hd & _).
    exists s. unfold encodeInt, decodeInt.
    destruct (n <? 0) eqn:Hneg; [lia | auto].
  - rewrite Hfirst. exact Hz1.
  - rewrite Hfirst. exact Hz3.
  - eauto.
Qed.

Lemma decodeInt_encodeInt_witness :
  (forall n, 0 <= n ->
     exists s, encodeBigInt BASIC n = Return (Some s)
               /\ decodeBigInt BASIC s = Return n)
  /\ (forall n, 0 <= n <= MAX_SAFE_INTEGER ->
     exists s, encodeInt BASIC (Finite n) = Return (Some s)
               /\ decodeInt BASIC s = Return (Some n))
  /\ encodeInt BASIC (Finite 0) = Return (char_at basic_alphabet 0)
  /\ encodeBigInt BASIC 0 = Return (char_at basic_alphabet 0)
  /\ exists first, char_at basic_alphabet 0 = Some [first].
Proof.
  apply (decodeInt_encodeInt basic_alphabet Undefined BASIC).
  - exact BASIC_constructed.
  - reflexivity.
Defined.

(** ** Encoding *)

Lemma list_ind3 {A} (P : list A -> Prop) :
  P [] -> (forall a, P [a]) -> (forall a b, P [a; b]) ->
  (forall a b c l, P l -> P (a :: b :: c :: l)) ->
  forall l, P l.
Proof.
  intros H0 H1 H2 H3 l.
  assert (H : P l /\ (forall a, P (a :: l)) /\ (forall a b, P (a :: b :: l))).
  { induction l as [| c l (IH0 & IH1 & IH2)]; [auto |].
    split; [apply IH1 |]. split; [intros a; apply IH2 |].
    intros a b. apply H3. exact IH0. }
  apply H.
Qed.

Lemma emit_string_app alphabet ks ks' :
  emit_string alphabet (ks ++ ks')
  = emit_string alphabet ks ++ emit_string alphabet ks'.
Proof. apply flat_map_app. Qed.

Lemma take_drop_step {A} (l : list A) (position n : nat) :
  (position + S n <= length l)%nat ->
  exists b, l !! position = Some b
    /\ take (S n) (drop position l) = b :: take n (drop (S position) l).
Proof.
  intros Hlen.
  destruct (lookup_lt_is_Some_2 l position) as [b Hb]; [lia |].
  exists b. split; [exact Hb |].
  rewrite (drop_S _ _ _ Hb). reflexivity.
Qed.

Lemma EncodeBytesToString_group_eq (alphabet : jsstring) (source : list Z) :
  forall n j position carry result,
  (position + n <= length source)%nat ->
  EncodeBytesToString_group alphabet source n j position carry result
  = ((position + n)%nat,
     group_carry (take n (drop position source)) j carry,
     result ++ emit_string alphabet
                 (group_indices (take n (drop position source)) j carry)).
Proof.
  induction n as [| n IH]; intros j position carry result Hlen.
  - simpl. rewrite Nat.add_0_r, app_nil_r. reflexivity.
  - destruct (take_drop_step source position n Hlen) as (b & Hb & ->).
    simpl. rewrite Hb. simpl. rewrite IH by lia.
    rewrite <- app_assoc, Nat.add_succ_r. reflexivity.
Qed.

Lemma EncodeBytesToString_for_exit alphabet source fuel i position result :
  (length source <= i)%nat ->
  EncodeBytesToString_for alphabet source fuel i position result = Return result.
Proof.
  intros Hi. apply Nat.ltb_ge in Hi. destruct fuel; simpl; rewrite Hi; reflexivity.
Qed.

Lemma indices_short (bs : list Z) :
  (0 < length bs < 3)%nat -> indices bs = sextets bs.
Proof.
  destruct bs as [| b0 [| b1 [| b2 rest]]]; simpl; intros H; try lia; reflexivity.
Qed.

Lemma indices_full (bs : list Z) :
  (3 <= length bs)%nat ->
  indices bs = sextets (take 3 bs) ++ indices (drop 3 bs).
Proof.
  destruct bs as [| b0 [| b1 [| b2 rest]]]; simpl; intros H; try lia; reflexivity.
Qed.

Lemma EncodeBytesToString_for_eq (alphabet : jsstring) (source : list Z) :
  forall fuel i result,
  (length source - i <= fuel)%nat ->
  EncodeBytesToString_for alphabet source fuel i i result
  = Return (result ++ emit_string alphabet (indices (drop i source))).
Proof.
  induction fuel as [| fuel IH]; intros i result Hfuel.
  - rewrite EncodeBytesToString_for_exit by lia.
    rewrite drop_ge by lia. simpl. rewrite app_nil_r. reflexivity.
  - destruct (le_lt_dec (length source) i) as [Hout | Hin].
    { rewrite EncodeBytesToString_for_exit by lia.
      rewrite drop_ge by lia. simpl. rewrite app_nil_r. reflexivity. }
    simpl. rewrite (proj2 (Nat.ltb_lt _ _) Hin).
    unfold GetEncodingBytes.
    destruct (length source - i <? 3)%nat eqn:Hshort.
    + apply Nat.ltb_lt in Hshort.
      rewrite EncodeBytesToString_group_eq by lia.
      rewrite EncodeBytesToString_for_exit by lia.
      rewrite take_ge by (rewrite length_drop; lia).
      rewrite indices_short by (rewrite length_drop; lia).
      unfold sextets. rewrite emit_string_app, <- app_assoc. simpl.
      rewrite app_nil_r. reflexivity.
    + apply Nat.ltb_ge in Hshort.
      rewrite EncodeBytesToString_group_eq by lia.
      rewrite IH by lia.
      rewrite (indices_full (drop i source)) by (rewrite length_drop; lia).
      rewrite drop_drop.
      unfold sextets. rewrite !emit_string_app, <- !app_assoc. simpl.
      rewrite app_nil_r. reflexivity.
Qed.

Lemma single_byte_lookup string position c :
  single_byte string -> string !! position = Some c ->
  num_gt (Some c) 0xff = false.
Proof.
  intros Hall Hc. unfold single_byte in Hall. rewrite Forall_lookup in Hall.
  apply Hall in Hc. unfold is_byte in Hc. simpl. lia.
Qed.

Lemma Encode_group_eq (alphabet string : jsstring) :
  single_byte string ->
  forall n j position carry result,
  (position + n <= length string)%nat ->
  Encode_group alphabet string n j position carry result
  = Return ((position + n)%nat,
            group_carry (take n (drop position string)) j carry,
            result ++ emit_string alphabet
                        (group_indices (take n (drop position string)) j carry)).
Proof.
  intros Hbyte.
  induction n as [| n IH]; intros j position carry result Hlen.
  - simpl. rewrite Nat.add_0_r, app_nil_r. reflexivity.
  - destruct (take_drop_step string position n Hlen) as (b & Hb & ->).
    simpl. unfold StringCharCodeAt. rewrite Hb.
    rewrite (single_byte_lookup _ _ _ Hbyte Hb). simpl. rewrite IH by lia.
    rewrite <- app_assoc, Nat.add_succ_r. reflexivity.
Qed.

Lemma Encode_for_exit alphabet string fuel i position result :
  (length string <= i)%nat ->
  Encode_for alphabet string fuel i position result = Return result.
Proof.
  intros Hi. apply Nat.ltb_ge in Hi. destruct fuel; simpl; rewrite Hi; reflexivity.
Qed.

Lemma Encode_for_eq (alphabet string : jsstring) :
  single_byte string ->
  forall fuel i result,
  (length string - i <= fuel)%nat ->
  Encode_for alphabet string fuel i i result
  = Return (result ++ emit_string alphabet (indices (drop i string))).
Proof.
  intros Hbyte.
  induction fuel as [| fuel IH]; intros i result Hfuel.
  - rewrite Encode_for_exit by lia.
    rewrite drop_ge by lia. simpl. rewrite app_nil_r. reflexivity.
  - destruct (le_lt_dec (length string) i) as [Hout | Hin].
    { rewrite Encode_for_exit by lia.
      rewrite drop_ge by lia. simpl. rewrite app_nil_r. reflexivity. }
    simpl. rewrite (proj2 (Nat.ltb_lt _ _) Hin).
    unfold GetEncodingBytes.
    destruct (length string - i <? 3)%nat eqn:Hshort.
    + apply Nat.ltb_lt in Hshort.
      rewrite Encode_group_eq by (auto; lia). simpl.
      rewrite Encode_for_exit by lia.
      rewrite take_ge by (rewrite length_drop; lia).
      rewrite indices_short by (rewrite length_drop; lia).
      unfold sextets. rewrite emit_string_app, <- app_assoc. simpl.
      rewrite app_nil_r. reflexivity.
    + apply Nat.ltb_ge in Hshort.
      rewrite Encode_group_eq by (auto; lia). simpl.
      rewrite IH by lia.
      rewrite (indices_full (drop i string)) by (rewrite length_drop; lia).
      rewrite drop_drop.
      unfold sextets. rewrite !emit_string_app, <- !app_assoc. simpl.
      rewrite app_nil_r. reflexivity.
Qed.

(** *** Byte output *)

Lemma insert_zeros (pre : list Z) (k : nat) (v : Z) :
  <[length pre := v]> (pre ++ 0 :: replicate k 0) = (pre ++ [v]) ++ replicate k 0.
Proof.
  rewrite insert_app_r_alt by lia. rewrite Nat.sub_diag. simpl.
  rewrite <- app_assoc. reflexivity.
Qed.

Lemma EncodeBytes_group_eq (baseMap : gmap Z (option Z)) (source : list Z) :
  forall n j position carry pre k,
  (position + n <= length source)%nat -> (n <= k)%nat ->
  EncodeBytes_group baseMap source n j position carry
    (length pre) (pre ++ replicate k 0)
  = ((position + n)%nat,
     group_carry (take n (drop position source)) j carry,
     (length pre + n)%nat,
     (pre ++ emit_bytes baseMap
               (group_indices (take n (drop position source)) j carry))
     ++ replicate (k - n) 0).
Proof.
  induction n as [| n IH]; intros j position carry pre k Hlen Hk.
  - simpl. rewrite !Nat.add_0_r, app_nil_r, Nat.sub_0_r. reflexivity.
  - destruct (take_drop_step source position n Hlen) as (b & Hb & ->).
    destruct k as [| k]; [lia |].
    simpl. rewrite Hb. simpl. rewrite insert_zeros.
    replace (S (length pre)) with (length (pre ++ [MapGet_code baseMap
      (carry + Z.shiftr b (ENCODING_SHIFTS j))])) by (rewrite length_app; simpl; lia).
    rewrite IH by lia.
    rewrite length_app, <- !app_assoc. simpl.
    rewrite !Nat.add_succ_r, Nat.add_0_r. reflexivity.
Qed.

Lemma write_next (pre : list Z) (k : nat) (v : Z) :
  (0 < k)%nat ->
  <[length pre := v]> (pre ++ replicate k 0) = (pre ++ [v]) ++ replicate (k - 1) 0.
Proof.
  intros Hk. destruct k as [| k]; [lia |]. simpl.
  rewrite Nat.sub_0_r. apply insert_zeros.
Qed.

Lemma group_indices_length (bs : list Z) :
  forall j carry, length (group_indices bs j carry) = length bs.
Proof. induction bs as [| b bs IH]; intros j carry; simpl; [| rewrite IH]; reflexivity. Qed.

Lemma sextets_length (bs : list Z) : length (sextets bs) = S (length bs).
Proof.
  unfold sextets. rewrite length_app, group_indices_length. simpl. lia.
Qed.

Lemma emit_bytes_length baseMap ks : length (emit_bytes baseMap ks) = length ks.
Proof. apply length_map. Qed.

Lemma emit_bytes_app baseMap ks ks' :
  emit_bytes baseMap (ks ++ ks') = emit_bytes baseMap ks ++ emit_bytes baseMap ks'.
Proof. apply map_app. Qed.

Lemma EncodeBytes_for_exit baseMap source fuel i position index result :
  (length source <= i)%nat ->
  EncodeBytes_for baseMap source fuel i position index result
  = Return (index, result).
Proof.
  intros Hi. apply Nat.ltb_ge in Hi. destruct fuel; simpl; rewrite Hi; reflexivity.
Qed.

(** One iteration of the outer loop on an array whose written part is
    [pre]: the group's codes and then the carry's code are appended. *)
Lemma group_then_carry (baseMap : gmap Z (option Z)) (pre : list Z)
    (k : nat) (g : list Z) (c : Z) (n : nat) :
  length g = n -> (n < k)%nat ->
  <[(length pre + n)%nat := MapGet_code baseMap c]>
    ((pre ++ emit_bytes baseMap g) ++ replicate (k - n) 0)
  = (pre ++ emit_bytes baseMap (g ++ [c])) ++ replicate (k - S n) 0.
Proof.
  intros <- Hk.
  replace (length pre + length g)%nat with (length (pre ++ emit_bytes baseMap g))
    by (rewrite length_app, emit_bytes_length; reflexivity).
  rewrite write_next by lia.
  rewrite emit_bytes_app, <- !app_assoc. simpl.
  replace (k - length g - 1)%nat with (k - S (length g))%nat by lia.
  reflexivity.
Qed.

Lemma EncodeBytes_for_eq (baseMap : gmap Z (option Z)) (source : list Z) :
  forall fuel i pre k,
  (length source - i <= fuel)%nat ->
  (length (indices (drop i source)) <= k)%nat ->
  EncodeBytes_for baseMap source fuel i i (length pre) (pre ++ replicate k 0)
  = Return ((length pre + length (indices (drop i source)))%nat,
            (pre ++ emit_bytes baseMap (indices (drop i source)))
            ++ replicate (k - length (indices (drop i source))) 0).
Proof.
  assert (Hdone : forall i pre k, (length source <= i)%nat ->
            @Return (nat * list Z) (length pre, pre ++ replicate k 0)
            = Return ((length pre + length (indices (drop i source)))%nat,
                      (pre ++ emit_bytes baseMap (indices (drop i source)))
                      ++ replicate (k - length (indices (drop i source))) 0)).
  { intros i pre k Hi. rewrite drop_ge by lia. simpl.
    rewrite Nat.add_0_r, app_nil_r, Nat.sub_0_r. reflexivity. }
  induction fuel as [| fuel IH]; intros i pre k Hfuel Hk.
  - rewrite EncodeBytes_for_exit by lia. apply Hdone. lia.
  - destruct (le_lt_dec (length source) i) as [Hout | Hin].
    { rewrite EncodeBytes_for_exit by lia. apply Hdone. lia. }
    simpl. rewrite (proj2 (Nat.ltb_lt _ _) Hin).
    unfold GetEncodingBytes.
    destruct (length source - i <? 3)%nat eqn:Hshort.
    + apply Nat.ltb_lt in Hshort.
      rewrite indices_short in * by (rewrite length_drop; lia).
      rewrite sextets_length, length_drop in Hk.
      rewrite EncodeBytes_group_eq by lia.
      rewrite EncodeBytes_for_exit by lia.
      rewrite take_ge by (rewrite length_drop; lia).
      f_equal. unfold sextets.
      set (g := group_indices (drop i source) 0 0).
      assert (Hg : length g = (length source - i)%nat)
        by (unfold g; rewrite group_indices_length, length_drop; reflexivity).
      rewrite (group_then_carry _ _ _ g) by (auto; lia).
      rewrite length_app. simpl. f_equal; [lia |].
      f_equal. f_equal. lia.
    + apply Nat.ltb_ge in Hshort.
      rewrite (indices_full (drop i source)) in * by (rewrite length_drop; lia).
      rewrite drop_drop in *.
      rewrite length_app, sextets_length in Hk.
      assert (Ht : length (take 3 (drop i source)) = 3%nat)
        by (rewrite length_take, length_drop; lia).
      rewrite Ht in Hk.
      rewrite EncodeBytes_group_eq by lia.
      unfold sextets.
      set (g := group_indices (take 3 (drop i source)) 0 0).
      assert (Hg : length g = 3%nat)
        by (unfold g; rewrite group_indices_length; exact Ht).
      rewrite (group_then_carry _ _ _ g) by (auto; lia).
      replace (S (length pre + 3))
        with (length (pre ++ emit_bytes baseMap
                               (g ++ [group_carry (take 3 (drop i source)) 0 0])))
        by (rewrite length_app, emit_bytes_length, length_app; simpl; lia).
      rewrite IH by lia.
      rewrite !length_app, !emit_bytes_length, !length_app, !emit_bytes_app.
      simpl. rewrite <- !app_assoc. simpl. rewrite Hg.
      replace (k - 4 - length (indices (drop (i + 3) source)))%nat
        with (k - (3 + 1 + length (indices (drop (i + 3) source))))%nat by lia.
      do 2 f_equal. lia.
Qed.

Lemma EncodeToBytes_group_eq (baseMap : gmap Z (option Z)) (string : jsstring) :
  single_byte string ->
  forall n j position carry pre k,
  (position + n <= length string)%nat -> (n <= k)%nat ->
  EncodeToBytes_group baseMap string n j position carry
    (length pre) (pre ++ replicate k 0)
  = Return ((position + n)%nat,
            group_carry (take n (drop position string)) j carry,
            (length pre + n)%nat,
            (pre ++ emit_bytes baseMap
                      (group_indices (take n (drop position string)) j carry))
            ++ replicate (k - n) 0).
Proof.
  intros Hbyte.
  induction n as [| n IH]; intros j position carry pre k Hlen Hk.
  - simpl. rewrite !Nat.add_0_r, app_nil_r, Nat.sub_0_r. reflexivity.
  - destruct (take_drop_step string position n Hlen) as (b & Hb & ->).
    destruct k as [| k]; [lia |].
    simpl. unfold StringCharCodeAt. rewrite Hb.
    rewrite (single_byte_lookup _ _ _ Hbyte Hb). simpl. rewrite insert_zeros.
    replace (S (length pre)) with (length (pre ++ [MapGet_code baseMap
      (carry + Z.shiftr b (ENCODING_SHIFTS j))])) by (rewrite length_app; simpl; lia).
    rewrite IH by lia.
    rewrite length_app, <- !app_assoc. simpl.
    rewrite !Nat.add_succ_r, Nat.add_0_r. reflexivity.
Qed.

Lemma EncodeToBytes_for_exit baseMap string fuel i position index result :
  (length string <= i)%nat ->
  EncodeToBytes_for baseMap string fuel i position index result
  = Return (index, result).
Proof.
  intros Hi. apply Nat.ltb_ge in Hi. destruct fuel; simpl; rewrite Hi; reflexivity.
Qed.

Lemma EncodeToBytes_for_eq (baseMap : gmap Z (option Z)) (string : jsstring) :
  single_byte string ->
  forall fuel i pre k,
  (length string - i <= fuel)%nat ->
  (length (indices (drop i string)) <= k)%nat ->
  EncodeToBytes_for baseMap string fuel i i (length pre) (pre ++ replicate k 0)
  = Return ((length pre + length (indices (drop i string)))%nat,
            (pre ++ emit_bytes baseMap (indices (drop i string)))
            ++ replicate (k - length (indices (drop i string))) 0).
Proof.
  intros Hbyte.
  assert (Hdone : forall i pre k, (length string <= i)%nat ->
            @Return (nat * list Z) (length pre, pre ++ replicate k 0)
            = Return ((length pre + length (indices (drop i string)))%nat,
                      (pre ++ emit_bytes baseMap (indices (drop i string)))
                      ++ replicate (k - length (indices (drop i string))) 0)).
  { intros i pre k Hi. rewrite drop_ge by lia. simpl.
    rewrite Nat.add_0_r, app_nil_r, Nat.sub_0_r. reflexivity. }
  induction fuel as [| fuel IH]; intros i pre k Hfuel Hk.
  - rewrite EncodeToBytes_for_exit by lia. apply Hdone. lia.
  - destruct (le_lt_dec (length string) i) as [Hout | Hin].
    { rewrite EncodeToBytes_for_exit by lia. apply Hdone. lia. }
    simpl. rewrite (proj2 (Nat.ltb_lt _ _) Hin).
    unfold GetEncodingBytes.
    destruct (length string - i <? 3)%nat eqn:Hshort.
    + apply Nat.ltb_lt in Hshort.
      rewrite indices_short in * by (rewrite length_drop; lia).
      rewrite sextets_length, length_drop in Hk.
      rewrite EncodeToBytes_group_eq by (auto; lia). simpl.
      rewrite EncodeToBytes_for_exit by lia.
      rewrite take_ge by (rewrite length_drop; lia).
      f_equal. unfold sextets.
      set (g := group_indices (drop i string) 0 0).
      assert (Hg : length g = (length string - i)%nat)
        by (unfold g; rewrite group_indices_length, length_drop; reflexivity).
      rewrite (group_then_carry _ _ _ g) by (auto; lia).
      rewrite length_app. simpl. f_equal; [lia |].
      f_equal. f_equal. lia.
    + apply Nat.ltb_ge in Hshort.
      rewrite (indices_full (drop i string)) in * by (rewrite length_drop; lia).
      rewrite drop_drop in *.
      rewrite length_app, sextets_length in Hk.
      assert (Ht : length (take 3 (drop i string)) = 3%nat)
        by (rewrite length_take, length_drop; lia).
      rewrite Ht in Hk.
      rewrite EncodeToBytes_group_eq by (auto; lia). simpl.
      unfold sextets.
      set (g := group_indices (take 3 (drop i string)) 0 0).
      assert (Hg : length g = 3%nat)
        by (unfold g; rewrite group_indices_length; exact Ht).
      rewrite (group_then_carry _ _ _ g) by (auto; lia).
      replace (S (length pre + 3))
        with (length (pre ++ emit_bytes baseMap
                               (g ++ [group_carry (take 3 (drop i string)) 0 0])))
        by (rewrite length_app, emit_bytes_length, length_app; simpl; lia).
      rewrite IH by lia.
      rewrite !length_app, !emit_bytes_length, !length_app, !emit_bytes_app.
      simpl. rewrite <- !app_assoc. simpl. rewrite Hg.
      replace (k - 4 - length (indices (drop (i + 3) string)))%nat
        with (k - (3 + 1 + length (indices (drop (i + 3) string))))%nat by lia.
      do 2 f_equal. lia.
Qed.

(** *** Lengths and ranges *)

Lemma indices_length (bs : list Z) :
  length (indices bs) = ((length bs * 4 + 2) / 3)%nat.
Proof.
  induction bs as [| a | a b | a b c l IH] using list_ind3; try reflexivity.
  change (indices (a :: b :: c :: l)) with (sextets [a; b; c] ++ indices l).
  rewrite length_app, sextets_length, IH. simpl length.
  replace (S (S (S (length l))) * 4 + 2)%nat
    with ((length l * 4 + 2) + 4 * 3)%nat by lia.
  rewrite Nat.div_add by lia. lia.
Qed.

Lemma GetPaddedLength_spec (n : nat) :
  (n <= GetPaddedLength n < n + 4)%nat /\ (GetPaddedLength n mod 4 = 0)%nat.
Proof.
  unfold GetPaddedLength.
  pose proof (Nat.mod_upper_bound n 4) as Hm.
  pose proof (Nat.div_mod_eq n 4) as Hd.
  destruct (n mod 4 =? 0)%nat eqn:Hz.
  - apply Nat.eqb_eq in Hz. split; [lia | exact Hz].
  - apply Nat.eqb_neq in Hz. split; [lia |].
    replace (n + (4 - n mod 4))%nat with ((n / 4 + 1) * 4)%nat by lia.
    apply Nat.Div0.mod_mul.
Qed.

Lemma shiftr_byte (b : Z) :
  is_byte b ->
  0 <= Z.shiftr b 2 < 64 /\ 0 <= Z.shiftr b 4 < 16 /\ 0 <= Z.shiftr b 6 < 4.
Proof.
  unfold is_byte. intros Hb. rewrite !Z.shiftr_div_pow2 by lia.
  change (2 ^ 2) with 4. change (2 ^ 4) with 16. change (2 ^ 6) with 64.
  Z.div_mod_to_equations. lia.
Qed.

Lemma land_shiftl_byte (b : Z) :
  is_byte b ->
  (exists q, 0 <= q < 4 /\ Z.shiftl (Z.land b 3) 4 = 16 * q)
  /\ (exists q, 0 <= q < 16 /\ Z.shiftl (Z.land b 0xf) 2 = 4 * q)
  /\ 0 <= Z.shiftl (Z.land b 0x3f) 0 < 64.
Proof.
  unfold is_byte. intros Hb.
  change 3 with (Z.ones 2). change 0xf with (Z.ones 4). change 0x3f with (Z.ones 6).
  rewrite !Z.land_ones by lia. rewrite !Z.shiftl_mul_pow2 by lia.
  change (2 ^ 2) with 4. change (2 ^ 4) with 16. change (2 ^ 6) with 64.
  change (2 ^ 0) with 1.
  split; [exists (b mod 4); split; [apply Z.mod_pos_bound |]; lia |].
  split; [exists (b mod 16); split; [apply Z.mod_pos_bound |]; lia |].
  pose proof (Z.mod_pos_bound b 64). lia.
Qed.

Lemma sextets_range (bs : list Z) :
  (length bs <= 3)%nat -> Forall is_byte bs -> Forall is_sextet (sextets bs).
Proof.
  intros Hlen Hall.
  destruct bs as [| a [| b [| c [| d rest]]]]; simpl in Hlen; try lia;
    unfold sextets; simpl; unfold is_sextet;
    repeat match goal with
           | H : Forall _ (_ :: _) |- _ => apply Forall_cons in H as [? H]
           end;
    repeat match goal with
           | H : is_byte ?x |- _ =>
             pose proof (shiftr_byte x H) as (? & ? & ?);
             pose proof (land_shiftl_byte x H) as ((? & ? & ?) & (? & ? & ?) & ?);
             clear H
           end;
    cbn [ENCODING_SHIFTS ENCODING_MASKS ENCODING_DIGITS nth] in *;
    repeat constructor; lia.
Qed.

Lemma indices_range (bs : list Z) :
  Forall is_byte bs -> Forall is_sextet (indices bs).
Proof.
  induction bs as [| a | a b | a b c l IH] using list_ind3; intros Hall.
  - constructor.
  - apply (sextets_range [a]); [simpl; lia | exact Hall].
  - apply (sextets_range [a; b]); [simpl; lia | exact Hall].
  - change (indices (a :: b :: c :: l)) with (sextets [a; b; c] ++ indices l).
    apply Forall_cons in Hall as [Ha Hall].
    apply Forall_cons in Hall as [Hb Hall].
    apply Forall_cons in Hall as [Hc Hall].
    apply Forall_app. split; [| apply IH; exact Hall].
    apply sextets_range; [simpl; lia |].
    repeat (apply Forall_cons; split; [assumption |]). apply Forall_nil. exact I.
Qed.

(** *** Padding *)

Lemma pad_while_Return (c : Z) (paddedLength : nat) :
  forall fuel result,
  (paddedLength - length result <= fuel)%nat ->
  pad_while fuel paddedLength [c] result
  = Return (result ++ replicate (paddedLength - length result) c).
Proof.
  induction fuel as [| fuel IH]; intros result Hfuel.
  - simpl. rewrite (proj2 (Nat.ltb_ge _ _)) by lia.
    replace (paddedLength - length result)%nat with 0%nat by lia.
    simpl. rewrite app_nil_r. reflexivity.
  - simpl. destruct (length result <? paddedLength)%nat eqn:Hlt.
    + apply Nat.ltb_lt in Hlt.
      rewrite IH by (rewrite length_app; simpl; lia).
      rewrite length_app. simpl.
      replace (paddedLength - length result)%nat
        with (S (paddedLength - (length result + 1)))%nat by lia.
      simpl. rewrite <- app_assoc. reflexivity.
    + apply Nat.ltb_ge in Hlt.
      replace (paddedLength - length result)%nat with 0%nat by lia.
      simpl. rewrite app_nil_r. reflexivity.
Qed.

Lemma padding_count_spec (n : nat) :
  (padding_count n < 4)%nat
  /\ ((n + padding_count n) mod 4 = 0)%nat
  /\ ((n mod 4 <> 0)%nat -> (0 < padding_count n)%nat).
Proof.
  unfold padding_count. destruct (GetPaddedLength_spec n) as [Hb Hm].
  split; [lia |]. split.
  - replace (n + (GetPaddedLength n - n))%nat with (GetPaddedLength n) by lia.
    exact Hm.
  - intros Hnz. destruct (Nat.eq_dec (GetPaddedLength n) n) as [E |]; [| lia].
    rewrite E in Hm. contradiction.
Qed.

Lemma pad_string_Return (t : Base64Encoding) (c : Z) (withPadding : bool)
    (result : jsstring) :
  padding_or_nul t = [c] ->
  pad_string t withPadding result
  = Return (if withPadding
            then result ++ replicate (padding_count (length result)) c
            else result).
Proof.
  intros Hpad. unfold pad_string, padding_count. destruct withPadding; [| reflexivity].
  rewrite Hpad.
  destruct (length result <? GetPaddedLength (length result))%nat eqn:Hlt.
  - apply pad_while_Return. lia.
  - apply Nat.ltb_ge in Hlt.
    replace (GetPaddedLength (length result) - length result)%nat with 0%nat by lia.
    simpl. rewrite app_nil_r. reflexivity.
Qed.

Lemma fill_while_Return (capacity : nat) (code : Z) :
  forall fuel pre k,
  (length pre + k)%nat = capacity -> (k <= fuel)%nat ->
  fill_while fuel capacity code (length pre) (pre ++ replicate k 0)
  = Return (pre ++ replicate k (code mod 256)).
Proof.
  induction fuel as [| fuel IH]; intros pre k Hcap Hfuel.
  - assert (k = 0%nat) as -> by lia. simpl.
    rewrite (proj2 (Nat.ltb_ge _ _)) by lia. reflexivity.
  - simpl. destruct (length pre <? capacity)%nat eqn:Hlt.
    + apply Nat.ltb_lt in Hlt. destruct k as [| k]; [lia |].
      simpl replicate. rewrite insert_zeros.
      replace (S (length pre)) with (length (pre ++ [code mod 256]))
        by (rewrite length_app; simpl; lia).
      rewrite IH by (try rewrite length_app; simpl; lia).
      rewrite <- app_assoc. reflexivity.
    + apply Nat.ltb_ge in Hlt. assert (k = 0%nat) as -> by lia. reflexivity.
Qed.

Lemma pad_bytes_Return (t : Base64Encoding) (withPadding : bool)
    (capacity : nat) (pre : list Z) (k : nat) :
  (length pre + k)%nat = capacity ->
  pad_bytes t withPadding capacity (length pre) (pre ++ replicate k 0)
  = Return (if withPadding then pre ++ replicate k (padding_byte t)
            else pre ++ replicate k 0).
Proof.
  intros Hcap. unfold pad_bytes, padding_byte.
  destruct withPadding; [| reflexivity]. simpl.
  destruct (length pre <? capacity)%nat eqn:Hlt.
  - destruct (truthy_number (PaddingCharCode t)); [| reflexivity].
    apply fill_while_Return; [exact Hcap | lia].
  - apply Nat.ltb_ge in Hlt. assert (k = 0%nat) as -> by lia. reflexivity.
Qed.

(** *** The four encoders in closed form *)

Lemma EncodeBytesToString_eq (t : Base64Encoding) (c : Z) (source : list Z)
    (withPadding : bool) :
  padding_or_nul t = [c] ->
  EncodeBytesToString t source withPadding
  = Return (padded withPadding c (emit_string (Alphabet t) (indices source))).
Proof.
  intros Hpad. unfold EncodeBytesToString, padded.
  destruct (length source =? 0)%nat eqn:Hz.
  - apply Nat.eqb_eq in Hz. apply nil_length_inv in Hz. subst source.
    destruct withPadding; reflexivity.
  - rewrite EncodeBytesToString_for_eq by lia. simpl.
    apply pad_string_Return. exact Hpad.
Qed.

Lemma Encode_eq (t : Base64Encoding) (c : Z) (string : jsstring)
    (withPadding : bool) :
  padding_or_nul t = [c] -> single_byte string ->
  Encode t string withPadding
  = Return (padded withPadding c (emit_string (Alphabet t) (indices string))).
Proof.
  intros Hpad Hbyte. unfold Encode, padded.
  destruct (length string =? 0)%nat eqn:Hz.
  - apply Nat.eqb_eq in Hz. apply nil_length_inv in Hz. subst string.
    destruct withPadding; reflexivity.
  - rewrite Encode_for_eq by (auto; lia). simpl.
    apply pad_string_Return. exact Hpad.
Qed.

Lemma GetCapacity_indices (bs : list Z) (withPadding : bool) :
  GetCapacity (length bs) withPadding
  = (length (indices bs)
     + (if withPadding then padding_count (length (indices bs)) else 0))%nat.
Proof.
  unfold GetCapacity, padding_count. rewrite <- indices_length.
  destruct withPadding; [| lia].
  destruct (GetPaddedLength_spec (length (indices bs))). lia.
Qed.

Lemma EncodeBytes_eq (t : Base64Encoding) (source : list Z) (withPadding : bool) :
  EncodeBytes t source withPadding
  = Return (padded withPadding (padding_byte t)
              (emit_bytes (BaseMap t) (indices source))).
Proof.
  unfold EncodeBytes, padded.
  destruct (length source =? 0)%nat eqn:Hz.
  - apply Nat.eqb_eq in Hz. apply nil_length_inv in Hz. subst source.
    destruct withPadding; reflexivity.
  - rewrite GetCapacity_indices.
    pose proof (EncodeBytes_for_eq (BaseMap t) source (length source) 0 []) as Hfor.
    simpl length in Hfor. simpl app in Hfor. rewrite drop_0 in Hfor.
    rewrite Hfor by lia. simpl.
    rewrite <- (emit_bytes_length (BaseMap t) (indices source)).
    set (out := emit_bytes (BaseMap t) (indices source)).
    rewrite pad_bytes_Return by lia.
    destruct withPadding; f_equal.
    + f_equal. f_equal. lia.
    + replace (length out + 0 - length out)%nat with 0%nat by lia.
      simpl. apply app_nil_r.
Qed.

Lemma EncodeToBytes_eq (t : Base64Encoding) (string : jsstring)
    (withPadding : bool) :
  single_byte string ->
  EncodeToBytes t string withPadding
  = Return (padded withPadding (padding_byte t)
              (emit_bytes (BaseMap t) (indices string))).
Proof.
  intros Hbyte. unfold EncodeToBytes, padded.
  destruct (length string =? 0)%nat eqn:Hz.
  - apply Nat.eqb_eq in Hz. apply nil_length_inv in Hz. subst string.
    destruct withPadding; reflexivity.
  - rewrite GetCapacity_indices.
    pose proof (EncodeToBytes_for_eq (BaseMap t) string Hbyte (length string) 0 [])
      as Hfor.
    simpl length in Hfor. simpl app in Hfor. rewrite drop_0 in Hfor.
    rewrite Hfor by lia. simpl.
    rewrite <- (emit_bytes_length (BaseMap t) (indices string)).
    set (out := emit_bytes (BaseMap t) (indices string)).
    rewrite pad_bytes_Return by lia.
    destruct withPadding; f_equal.
    + f_equal. f_equal. lia.
    + replace (length out + 0 - length out)%nat with 0%nat by lia.
      simpl. apply app_nil_r.
Qed.

Lemma padded_length {A} (pad : A) (out : list A) :
  (length (padded true pad out) mod 4 = 0)%nat.
Proof.
  unfold padded. rewrite length_app, length_replicate.
  apply padding_count_spec.
Qed.

Lemma emit_string_alphabet (alphabet : jsstring) (ks : list Z) :
  length alphabet = 64%nat -> Forall is_sextet ks ->
  forall x, x ∈ emit_string alphabet ks -> x ∈ alphabet.
Proof.
  intros Hlen. induction ks as [| k ks IH]; intros Hks x Hx.
  - simpl in Hx. inversion Hx.
  - apply Forall_cons in Hks as [Hk Hks]. unfold is_sextet in Hk.
    simpl in Hx. apply elem_of_app in Hx as [Hx | Hx]; [| apply IH; assumption].
    destruct (string_index_symbol alphabet k) as [Hs Hl]; [lia |].
    rewrite Hs in Hx. simpl in Hx. apply list_elem_of_singleton in Hx. subst x.
    apply list_elem_of_lookup. eauto.
Qed.

Lemma emit_bytes_alphabet (alphabet : jsstring) options (t : Base64Encoding)
    (ks : list Z) :
  constructor alphabet options = Return t ->
  length alphabet = 64%nat -> Forall is_sextet ks ->
  forall x, x ∈ emit_bytes (BaseMap t) ks -> x ∈ alphabet.
Proof.
  intros Hnew Hlen. induction ks as [| k ks IH]; intros Hks x Hx.
  - simpl in Hx. inversion Hx.
  - apply Forall_cons in Hks as [Hk Hks]. unfold is_sextet in Hk.
    simpl in Hx. apply elem_of_cons in Hx as [Hx | Hx]; [| apply IH; assumption].
    destruct (string_index_symbol alphabet k) as [_ Hl]; [lia |].
    pose proof (constructed_BaseMap _ _ _ Hnew _ _ Hl) as Hmap.
    pose proof (constructed_code_range _ _ _ Hnew _ _ Hl) as Hrange.
    rewrite Z2Nat.id in Hmap by lia.
    unfold MapGet_code in Hx. rewrite Hmap in Hx. simpl in Hx.
    rewrite Z.mod_small in Hx by lia. subst x.
    apply list_elem_of_lookup. eauto.
Qed.

Lemma constructed_padding_or_nul alphabet options t :
  constructor alphabet options = Return t ->
  exists c, padding_or_nul t = [c].
Proof.
  intros Hnew. unfold padding_or_nul.
  destruct (constructed_padding _ _ _ Hnew) as [[-> _] | (c & -> & _)];
    simpl; eauto.
Qed.

(** C9. For an instance the constructor has returned from a 64-character
    alphabet and every input of byte values, each of the four encoders
    returns; with [withPadding = true] the length of its output is a
    multiple of 4, and with [withPadding = false] its output does not
    contain the padding character (for the byte outputs, its code). *)
Theorem encode_padding_determinism
    (alphabet : jsstring) (options : jsoptions padding_option)
    (t : Base64Encoding) (b : list Z) :
  constructor alphabet options = Return t ->
  length alphabet = 64%nat ->
  Forall is_byte b ->
  (exists out, Encode t b true = Return out /\ (length out mod 4 = 0)%nat)
  /\ (exists out, EncodeToBytes t b true = Return out
                  /\ (length out mod 4 = 0)%nat)
  /\ (exists out, EncodeBytes t b true = Return out
                  /\ (length out mod 4 = 0)%nat)
  /\ (exists out, EncodeBytesToString t b true = Return out
                  /\ (length out mod 4 = 0)%nat)
  /\ (exists out, Encode t b false = Return out
                  /\ forall c, Padding t = [c] -> c ∉ out)
  /\ (exists out, EncodeToBytes t b false = Return out
                  /\ forall c, PaddingCharCode t = Some c -> c ∉ out)
  /\ (exists out, EncodeBytes t b false = Return out
                  /\ forall c, PaddingCharCode t = Some c -> c ∉ out)
  /\ (exists out, EncodeBytesToString t b false = Return out
                  /\ forall c, Padding t = [c] -> c ∉ out).
Proof.
  intros Hnew Hlen Hb.
  destruct (constructed_padding_or_nul _ _ _ Hnew) as [pad Hpad].
  pose proof (indices_range b Hb) as Hks.
  assert (Hstring : forall c, Padding t = [c] ->
            c ∉ emit_string (Alphabet t) (indices b)).
  { intros c Hc Hin. rewrite (constructed_Alphabet _ _ _ Hnew) in Hin.
    apply (emit_string_alphabet _ _ Hlen Hks) in Hin.
    destruct (constructed_padding _ _ _ Hnew) as [[E _] | (c' & E & _ & _ & Hout)];
      congruence. }
  assert (Hbytes : forall c, PaddingCharCode t = Some c ->
            c ∉ emit_bytes (BaseMap t) (indices b)).
  { intros c Hc Hin.
    apply (emit_bytes_alphabet _ _ _ _ Hnew Hlen Hks) in Hin.
    destruct (constructed_padding _ _ _ Hnew) as [[_ E] | (c' & _ & E & _ & Hout)];
      congruence. }
  rewrite !(Encode_eq t pad b) by assumption.
  rewrite !(EncodeBytesToString_eq t pad b) by assumption.
  rewrite !EncodeToBytes_eq by assumption.
  rewrite !EncodeBytes_eq.
  repeat split; eexists; (split; [reflexivity |]);
    try apply padded_length; assumption.
Qed.

Lemma encode_padding_determinism_witness :
  (exists out, Encode BASIC [0x4D; 0x61] true = Return out
               /\ (length out mod 4 = 0)%nat)
  /\ (exists out, EncodeToBytes BASIC [0x4D; 0x61] true = Return out
                  /\ (length out mod 4 = 0)%nat)
  /\ (exists out, EncodeBytes BASIC [0x4D; 0x61] true = Return out
                  /\ (length out mod 4 = 0)%nat)
  /\ (exists out, EncodeBytesToString BASIC [0x4D; 0x61] true = Return out
                  /\ (length out mod 4 = 0)%nat)
  /\ (exists out, Encode BASIC [0x4D; 0x61] false = Return out
                  /\ forall c, Padding BASIC = [c] -> c ∉ out)
  /\ (exists out, EncodeToBytes BASIC [0x4D; 0x61] false = Return out
                  /\ forall c, PaddingCharCode BASIC = Some c -> c ∉ out)
  /\ (exists out, EncodeBytes BASIC [0x4D; 0x61] false = Return out
                  /\ forall c, PaddingCharCode BASIC = Some c -> c ∉ out)
  /\ (exists out, EncodeBytesToString BASIC [0x4D; 0x61] false = Return out
                  /\ forall c, Padding BASIC = [c] -> c ∉ out).
Proof.
  apply (encode_padding_determinism basic_alphabet Undefined BASIC [0x4D; 0x61]).
  - exact BASIC_constructed.
  - reflexivity.
  - repeat (apply Forall_cons; split; [unfold is_byte; lia |]). apply Forall_nil. exact I.
Defined.

Lemma emit_string_length (alphabet : jsstring) (ks : list Z) :
  length alphabet = 64%nat -> Forall is_sextet ks ->
  length (emit_string alphabet ks) = length ks.
Proof.
  intros Hlen. induction ks as [| k ks IH]; intros Hks; [reflexivity |].
  apply Forall_cons in Hks as [Hk Hks]. unfold is_sextet in Hk.
  change (emit_string alphabet (k :: ks))
    with (ToString (string_index alphabet k) ++ emit_string alphabet ks).
  destruct (string_index_symbol alphabet k) as [-> _]; [lia |].
  rewrite length_app, IH by assumption. reflexivity.
Qed.

(** The ceil(4n/3) symbols of [n] bytes and their padding fill
    4 * ceil(n/3) positions. *)
Lemma padded_capacity (n : nat) :
  ((n * 4 + 2) / 3 + padding_count ((n * 4 + 2) / 3) = 4 * ((n + 2) / 3))%nat.
Proof.
  unfold padding_count, GetPaddedLength.
  destruct (((n * 4 + 2) / 3) mod 4 =? 0)%nat eqn:E.
  - apply Nat.eqb_eq in E. zify. Z.div_mod_to_equations. lia.
  - apply Nat.eqb_neq in E. zify. Z.div_mod_to_equations. lia.
Qed.

(** C10. For an instance constructed with the empty padding string and
    every input [b] of [n] byte values: without padding each encoder
    returns its symbols, and with [withPadding = true] it returns these
    symbols followed by U+0000 characters (the string encoders) or 0x00
    bytes (the byte encoders), as many as bring the length to the next
    multiple of 4, at least one when the symbol count is not a multiple
    of 4.  The byte encoders return ceil(4n/3) symbols and, with padding,
    a buffer of the padded capacity 4 * ceil(n/3), which is
    [GetCapacity n true]; nothing is trimmed.  For a 64-character alphabet
    the string encoders return as many characters, and the symbols of
    all four encoders are characters of the alphabet, none of them 0, so
    that the zeros of the padded output are exactly its padding. *)
Theorem encode_without_padding_symbol_pads_with_zero
    (alphabet : jsstring) (t : Base64Encoding) (b : list Z) :
  constructor alphabet (Object (PaddingString [])) = Return t ->
  Forall is_byte b ->
  let zeros (out : list Z) := replicate (padding_count (length out)) 0 in
  let symbols := ((length b * 4 + 2) / 3)%nat in
  let capacity := (4 * ((length b + 2) / 3))%nat in
  (exists out, Encode t b false = Return out
               /\ Encode t b true = Return (out ++ zeros out)
               /\ (length alphabet = 64%nat ->
                   length out = symbols
                   /\ length (out ++ zeros out) = capacity
                   /\ Forall (fun x => x ∈ alphabet) out
                   /\ 0 ∉ out))
  /\ (exists out, EncodeBytesToString t b false = Return out
                  /\ EncodeBytesToString t b true = Return (out ++ zeros out)
                  /\ (length alphabet = 64%nat ->
                      length out = symbols
                      /\ length (out ++ zeros out) = capacity
                      /\ Forall (fun x => x ∈ alphabet) out
                      /\ 0 ∉ out))
  /\ (exists out, EncodeToBytes t b false = Return out
                  /\ EncodeToBytes t b true = Return (out ++ zeros out)
                  /\ length out = symbols
                  /\ length (out ++ zeros out) = capacity
                  /\ (length alphabet = 64%nat ->
                      Forall (fun x => x ∈ alphabet) out /\ 0 ∉ out))
  /\ (exists out, EncodeBytes t b false = Return out
                  /\ EncodeBytes t b true = Return (out ++ zeros out)
                  /\ length out = symbols
                  /\ length (out ++ zeros out) = capacity
                  /\ (length alphabet = 64%nat ->
                      Forall (fun x => x ∈ alphabet) out /\ 0 ∉ out))
  /\ (forall out : list Z,
        ((length out + length (zeros out)) mod 4 = 0)%nat
        /\ ((length out mod 4 <> 0)%nat -> (0 < length (zeros out))%nat))
  /\ symbols = GetCapacity (length b) false
  /\ capacity = GetCapacity (length b) true.
Proof.
  intros Hnew Hb zeros symbols capacity.
  assert (Hslots : Padding t = [] /\ PaddingCharCode t = None).
  { destruct (constructor_Return _ _ _ Hnew) as (_ & _ & _ & Hpad & _).
    simpl in Hpad. injection Hpad as <- <-. auto. }
  destruct Hslots as [Hp Hc].
  assert (Hnul : padding_or_nul t = [0]) by (unfold padding_or_nul; rewrite Hp; reflexivity).
  assert (Hbyte : padding_byte t = 0) by (unfold padding_byte; rewrite Hc; reflexivity).
  pose proof (indices_range b Hb) as Hks.
  pose proof (indices_length b) as Hn. fold symbols in Hn.
  assert (Hfill : forall out : list Z, length out = symbols ->
            length (out ++ zeros out) = capacity).
  { intros out Hout. unfold zeros.
    rewrite length_app, length_replicate, Hout. apply padded_capacity. }
  assert (Hzero : forall out : list Z,
            Forall (fun x => x ∈ alphabet) out -> 0 ∉ out).
  { intros out Hall Hin. rewrite Forall_forall in Hall.
    specialize (Hall _ Hin). apply list_elem_of_lookup in Hall as [m Hm].
    pose proof (constructed_code_range _ _ _ Hnew _ _ Hm). lia. }
  assert (Hstring : length alphabet = 64%nat ->
            length (emit_string (Alphabet t) (indices b)) = symbols
            /\ length (emit_string (Alphabet t) (indices b)
                       ++ zeros (emit_string (Alphabet t) (indices b))) = capacity
            /\ Forall (fun x => x ∈ alphabet) (emit_string (Alphabet t) (indices b))
            /\ 0 ∉ emit_string (Alphabet t) (indices b)).
  { intros Hlen. rewrite (constructed_Alphabet _ _ _ Hnew).
    assert (Hout : length (emit_string alphabet (indices b)) = symbols)
      by (rewrite emit_string_length by assumption; exact Hn).
    assert (Hall : Forall (fun x => x ∈ alphabet) (emit_string alphabet (indices b)))
      by (apply Forall_forall; intros x Hx;
          exact (emit_string_alphabet _ _ Hlen Hks x Hx)).
    auto. }
  assert (Hcount : length (emit_bytes (BaseMap t) (indices b)) = symbols)
    by (rewrite emit_bytes_length; exact Hn).
  assert (Hsymbols : length alphabet = 64%nat ->
            Forall (fun x => x ∈ alphabet) (emit_bytes (BaseMap t) (indices b))
            /\ 0 ∉ emit_bytes (BaseMap t) (indices b)).
  { intros Hlen.
    assert (Hall : Forall (fun x => x ∈ alphabet)
                     (emit_bytes (BaseMap t) (indices b)))
      by (apply Forall_forall; intros x Hx;
          exact (emit_bytes_alphabet _ _ _ _ Hnew Hlen Hks x Hx)).
    auto. }
  rewrite !(Encode_eq t 0 b) by assumption.
  rewrite !(EncodeBytesToString_eq t 0 b) by assumption.
  rewrite !EncodeToBytes_eq by assumption.
  rewrite !EncodeBytes_eq. rewrite Hbyte.
  split; [| split; [| split; [| split; [| split; [| split]]]]].
  - eexists. split; [reflexivity |]. split; [reflexivity | exact Hstring].
  - eexists. split; [reflexivity |]. split; [reflexivity | exact Hstring].
  - eexists. split; [reflexivity |]. split; [reflexivity |].
    split; [exact Hcount |]. split; [exact (Hfill _ Hcount) | exact Hsymbols].
  - eexists. split; [reflexivity |]. split; [reflexivity |].
    split; [exact Hcount |]. split; [exact (Hfill _ Hcount) | exact Hsymbols].
  - intros out. unfold zeros. rewrite length_replicate. split.
    + apply padding_count_spec.
    + apply padding_count_spec.
  - reflexivity.
  - rewrite (GetCapacity_indices b true), Hn. symmetry. apply padded_capacity.
Qed.

Lemma encode_without_padding_symbol_pads_with_zero_witness :
  Encode URL [0x4D] false = Return (str "TQ")
  /\ Encode URL [0x4D] true = Return (str "TQ" ++ [0; 0])
  /\ EncodeBytesToString URL [0x4D] false = Return (str "TQ")
  /\ EncodeBytesToString URL [0x4D] true = Return (str "TQ" ++ [0; 0])
  /\ EncodeToBytes URL [0x4D] false = Return (str "TQ")
  /\ EncodeToBytes URL [0x4D] true = Return (str "TQ" ++ [0; 0])
  /\ EncodeBytes URL [0x4D] false = Return (str "TQ")
  /\ EncodeBytes URL [0x4D] true = Return (str "TQ" ++ [0; 0])
  /\ GetCapacity 1 false = 2%nat
  /\ GetCapacity 1 true = 4%nat
  /\ 0 ∉ str "TQ".
Proof.
  pose proof (encode_without_padding_symbol_pads_with_zero url_alphabet URL [0x4D]
                URL_constructed) as H.
  cbv zeta in H.
  destruct H as ((o1 & Ha1 & Hb1 & Hc1) & (o2 & Ha2 & Hb2 & Hc2)
                 & (o3 & Ha3 & Hb3 & Hc3 & Hd3 & _)
                 & (o4 & Ha4 & Hb4 & Hc4 & Hd4 & _) & _ & Hs & Hk).
  { apply Forall_cons; split; [unfold is_byte; lia |]. apply Forall_nil. exact I. }
  destruct (Hc1 eq_refl) as (_ & _ & _ & Hz1).
  assert (E1 : Return o1 = Return (str "TQ"))
    by (rewrite <- Ha1; vm_compute; reflexivity).
  assert (E2 : Return o2 = Return (str "TQ"))
    by (rewrite <- Ha2; vm_compute; reflexivity).
  assert (E3 : Return o3 = Return (str "TQ"))
    by (rewrite <- Ha3; vm_compute; reflexivity).
  assert (E4 : Return o4 = Return (str "TQ"))
    by (rewrite <- Ha4; vm_compute; reflexivity).
  injection E1 as ->. injection E2 as ->. injection E3 as ->. injection E4 as ->.
  split; [exact Ha1 |]. split; [rewrite Hb1; vm_compute; reflexivity |].
  split; [exact Ha2 |]. split; [rewrite Hb2; vm_compute; reflexivity |].
  split; [exact Ha3 |]. split; [rewrite Hb3; vm_compute; reflexivity |].
  split; [exact Ha4 |]. split; [rewrite Hb4; vm_compute; reflexivity |].
  split; [symmetry; exact Hs |]. split; [symmetry; exact Hk | exact Hz1].
Defined.

(** ** Decoding *)

Lemma recognized_at_cons lookup s position k ks :
  recognized_at lookup s position (k :: ks) ->
  lookup !! (s !! position) = Some k
  /\ recognized_at lookup s (S position) ks.
Proof.
  intros H. split.
  - specialize (H 0%nat k eq_refl). rewrite Nat.add_0_r in H. exact H.
  - intros p k' Hp. specialize (H (S p) k' Hp).
    rewrite Nat.add_succ_r in H. exact H.
Qed.

Lemma DecodeToBytes_group_recognized (lookup : gmap (option Z) Z)
    (s : jsstring) (pc : Z) (ip : bool) :
  forall ks n j carry position pre k,
  recognized_at lookup s position ks ->
  (length (group_octets wrap_byte ks j carry) <= k)%nat ->
  DecodeToBytes_group lookup s pc ip (length ks + n) j carry position
    (length pre) (pre ++ replicate k 0)
  = DecodeToBytes_group lookup s pc ip n (j + length ks)
      (group_rest ks j carry) (position + length ks)
      (length pre + length (group_octets wrap_byte ks j carry))
      ((pre ++ group_octets wrap_byte ks j carry)
       ++ replicate (k - length (group_octets wrap_byte ks j carry)) 0).
Proof.
  induction ks as [| k0 ks IH]; intros n j carry position pre k Hrec Hk.
  - simpl. rewrite !Nat.add_0_r, app_nil_r, Nat.sub_0_r. reflexivity.
  - apply recognized_at_cons in Hrec as [Hk0 Hrec].
    simpl length. simpl plus. cbn [DecodeToBytes_group].
    unfold StringCharCodeAt. rewrite Hk0.
    simpl in Hk. simpl group_octets. simpl group_rest.
    destruct (negb (DECODING_MASKS j =? 0)).
    + simpl in Hk. destruct k as [| k]; [lia |].
      simpl replicate. rewrite insert_zeros.
      replace (S (length pre))
        with (length (pre ++ [wrap_byte (carry + Z.shiftr k0 (DECODING_DIGITS j))]))
        by (rewrite length_app; simpl; lia).
      unfold ToUint8. fold (wrap_byte (carry + Z.shiftr k0 (DECODING_DIGITS j))).
      rewrite IH by (auto; lia).
      rewrite length_app, <- !app_assoc. simpl.
      rewrite !Nat.add_succ_r, Nat.add_0_r. simpl. reflexivity.
    + rewrite IH by (auto; lia).
      rewrite !Nat.add_succ_r. reflexivity.
Qed.

Lemma DecodeToBytes_for_exit lookup s padding pc ip ac fuel i position index result :
  (length s <= i)%nat ->
  DecodeToBytes_for lookup s padding pc ip ac fuel i position index result
  = Return (index, result).
Proof.
  intros Hi. apply Nat.ltb_ge in Hi. destruct fuel; simpl; rewrite Hi; reflexivity.
Qed.

Lemma octets_length wrap ks :
  length (octets wrap ks) = S (length (group_octets wrap ks 0 0)).
Proof. unfold octets. rewrite length_app. simpl. lia. Qed.

(** One iteration on a group whose symbols are all recognized. *)
Lemma DecodeToBytes_for_group (lookup : gmap (option Z) Z) (s padding : jsstring)
    (pc : Z) (ip ac : bool) (fuel i : nat) (pre : list Z) (k : nat) (ks : list Z) :
  (i < length s)%nat ->
  length ks = GetDecodingBytes (length s) i ->
  recognized_at lookup s i ks ->
  (length (octets wrap_byte ks) <= k)%nat ->
  DecodeToBytes_for lookup s padding pc ip ac (S fuel) i i
    (length pre) (pre ++ replicate k 0)
  = DecodeToBytes_for lookup s padding pc ip ac fuel (i + 4) (i + length ks)
      (length pre + length (octets wrap_byte ks))
      ((pre ++ octets wrap_byte ks)
       ++ replicate (k - length (octets wrap_byte ks)) 0).
Proof.
  intros Hi Hlen Hrec Hk. rewrite octets_length in *.
  cbn [DecodeToBytes_for]. rewrite (proj2 (Nat.ltb_lt _ _) Hi).
  rewrite <- Hlen. rewrite <- (Nat.add_0_r (length ks)) at 1.
  rewrite DecodeToBytes_group_recognized by (auto; lia).
  cbn [DecodeToBytes_group].
  set (g := group_octets wrap_byte ks 0 0) in *.
  replace (length pre + length g)%nat with (length (pre ++ g))
    by (rewrite length_app; reflexivity).
  rewrite write_next by lia.
  f_equal.
  - rewrite length_app. lia.
  - unfold octets. fold g. rewrite <- !app_assoc. simpl.
    replace (k - length g - 1)%nat with (k - S (length g))%nat by lia.
    reflexivity.
Qed.

Lemma decoded_short wrap (ks : list Z) :
  (0 < length ks < 4)%nat -> decoded wrap ks = octets wrap ks.
Proof.
  destruct ks as [| k0 [| k1 [| k2 [| k3 rest]]]]; simpl; intros H;
    try lia; reflexivity.
Qed.

Lemma decoded_full wrap (ks : list Z) :
  (4 <= length ks)%nat ->
  decoded wrap ks = octets wrap (take 4 ks) ++ decoded wrap (drop 4 ks).
Proof.
  destruct ks as [| k0 [| k1 [| k2 [| k3 rest]]]]; simpl; intros H;
    try lia; reflexivity.
Qed.

Lemma recognized_at_take lookup s position ks n :
  recognized_at lookup s position ks ->
  recognized_at lookup s position (take n ks).
Proof.
  intros H p k Hp. apply H. apply lookup_take_Some in Hp as [Hp _]. exact Hp.
Qed.

Lemma recognized_at_drop lookup s position ks n :
  recognized_at lookup s position ks ->
  recognized_at lookup s (position + n) (drop n ks).
Proof.
  intros H p k Hp. rewrite lookup_drop in Hp.
  rewrite <- Nat.add_assoc. apply H. exact Hp.
Qed.

Lemma DecodeToBytes_for_recognized (lookup : gmap (option Z) Z)
    (s padding : jsstring) (pc : Z) (ip ac : bool) :
  forall fuel i pre k ks,
  (length s - i <= fuel)%nat ->
  length ks = (length s - i)%nat ->
  recognized_at lookup s i ks ->
  (length (decoded wrap_byte ks) <= k)%nat ->
  DecodeToBytes_for lookup s padding pc ip ac fuel i i
    (length pre) (pre ++ replicate k 0)
  = Return ((length pre + length (decoded wrap_byte ks))%nat,
            (pre ++ decoded wrap_byte ks)
            ++ replicate (k - length (decoded wrap_byte ks)) 0).
Proof.
  induction fuel as [| fuel IH]; intros i pre k ks Hfuel Hlen Hrec Hk.
  - rewrite DecodeToBytes_for_exit by lia.
    destruct ks; [| simpl in Hlen; lia]. simpl.
    rewrite Nat.add_0_r, app_nil_r, Nat.sub_0_r. reflexivity.
  - destruct (le_lt_dec (length s) i) as [Hout | Hin].
    { rewrite DecodeToBytes_for_exit by lia.
      destruct ks; [| simpl in Hlen; lia]. simpl.
      rewrite Nat.add_0_r, app_nil_r, Nat.sub_0_r. reflexivity. }
    destruct (le_lt_dec 4 (length s - i)) as [Hfull | Hshort].
    + rewrite (decoded_full _ ks) in * by lia.
      rewrite length_app in Hk.
      rewrite (DecodeToBytes_for_group _ _ _ _ _ _ _ _ _ _ (take 4 ks)).
      * rewrite length_take, Nat.min_l by lia.
        replace (length pre + length (octets wrap_byte (take 4 ks)))%nat
          with (length (pre ++ octets wrap_byte (take 4 ks)))
          by (rewrite length_app; reflexivity).
        rewrite (IH _ _ _ (drop 4 ks)).
        -- rewrite !length_app, <- !app_assoc.
           rewrite Nat.add_assoc, Nat.sub_add_distr. reflexivity.
        -- lia.
        -- rewrite length_drop. lia.
        -- apply recognized_at_drop. exact Hrec.
        -- lia.
      * exact Hin.
      * rewrite length_take. unfold GetDecodingBytes.
        rewrite (proj2 (Nat.ltb_ge _ _)) by lia. lia.
      * apply recognized_at_take. exact Hrec.
      * lia.
    + rewrite (decoded_short _ ks) in * by lia.
      rewrite (DecodeToBytes_for_group _ _ _ _ _ _ _ _ _ _ ks).
      * apply DecodeToBytes_for_exit. lia.
      * exact Hin.
      * unfold GetDecodingBytes. rewrite (proj2 (Nat.ltb_lt _ _)) by lia. lia.
      * exact Hrec.
      * exact Hk.
Qed.

Lemma Decode_group_recognized (lookup : gmap (option Z) Z)
    (s : jsstring) (pc : Z) (ip : bool) :
  forall ks n j carry position result,
  recognized_at lookup s position ks ->
  Decode_group lookup s pc ip (length ks + n) j carry position result
  = Decode_group lookup s pc ip n (j + length ks)
      (group_rest ks j carry) (position + length ks)
      (result ++ group_octets wrap_unit ks j carry).
Proof.
  induction ks as [| k0 ks IH]; intros n j carry position result Hrec.
  - simpl. rewrite !Nat.add_0_r, app_nil_r. reflexivity.
  - apply recognized_at_cons in Hrec as [Hk0 Hrec].
    simpl length. simpl plus. cbn [Decode_group].
    unfold StringCharCodeAt. rewrite Hk0.
    simpl group_octets. simpl group_rest.
    destruct (negb (DECODING_MASKS j =? 0)).
    + rewrite IH by auto. unfold StringFromCharCode.
      rewrite <- !app_assoc. simpl.
      rewrite !Nat.add_succ_r. reflexivity.
    + rewrite IH by auto. rewrite !Nat.add_succ_r. reflexivity.
Qed.

Lemma Decode_for_exit lookup s padding pc ip ac fuel i position result :
  (length s <= i)%nat ->
  Decode_for lookup s padding pc ip ac fuel i position result = Return result.
Proof.
  intros Hi. apply Nat.ltb_ge in Hi. destruct fuel; simpl; rewrite Hi; reflexivity.
Qed.

Lemma Decode_for_group (lookup : gmap (option Z) Z) (s padding : jsstring)
    (pc : Z) (ip ac : bool) (fuel i : nat) (result : jsstring) (ks : list Z) :
  (i < length s)%nat ->
  length ks = GetDecodingBytes (length s) i ->
  recognized_at lookup s i ks ->
  Decode_for lookup s padding pc ip ac (S fuel) i i result
  = Decode_for lookup s padding pc ip ac fuel (i + 4) (i + length ks)
      (result ++ octets wrap_unit ks).
Proof.
  intros Hi Hlen Hrec.
  cbn [Decode_for]. rewrite (proj2 (Nat.ltb_lt _ _) Hi).
  rewrite <- Hlen. rewrite <- (Nat.add_0_r (length ks)) at 1.
  rewrite Decode_group_recognized by auto.
  cbn [Decode_group]. unfold octets, StringFromCharCode.
  rewrite <- !app_assoc. reflexivity.
Qed.

Lemma Decode_for_recognized (lookup : gmap (option Z) Z)
    (s padding : jsstring) (pc : Z) (ip ac : bool) :
  forall fuel i result ks,
  (length s - i <= fuel)%nat ->
  length ks = (length s - i)%nat ->
  recognized_at lookup s i ks ->
  Decode_for lookup s padding pc ip ac fuel i i result
  = Return (result ++ decoded wrap_unit ks).
Proof.
  induction fuel as [| fuel IH]; intros i result ks Hfuel Hlen Hrec.
  - rewrite Decode_for_exit by lia.
    destruct ks; [| simpl in Hlen; lia]. simpl. rewrite app_nil_r. reflexivity.
  - destruct (le_lt_dec (length s) i) as [Hout | Hin].
    { rewrite Decode_for_exit by lia.
      destruct ks; [| simpl in Hlen; lia]. simpl. rewrite app_nil_r. reflexivity. }
    destruct (le_lt_dec 4 (length s - i)) as [Hfull | Hshort].
    + rewrite (decoded_full _ ks) by lia.
      rewrite (Decode_for_group _ _ _ _ _ _ _ _ _ (take 4 ks)).
      * rewrite length_take, Nat.min_l by lia.
        rewrite (IH _ _ (drop 4 ks)).
        -- rewrite <- !app_assoc. reflexivity.
        -- lia.
        -- rewrite length_drop. lia.
        -- apply recognized_at_drop. exact Hrec.
      * exact Hin.
      * rewrite length_take. unfold GetDecodingBytes.
        rewrite (proj2 (Nat.ltb_ge _ _)) by lia. lia.
      * apply recognized_at_take. exact Hrec.
    + rewrite (decoded_short _ ks) by lia.
      rewrite (Decode_for_group _ _ _ _ _ _ _ _ _ ks).
      * apply Decode_for_exit. lia.
      * exact Hin.
      * unfold GetDecodingBytes. rewrite (proj2 (Nat.ltb_lt _ _)) by lia. lia.
      * exact Hrec.
Qed.

Lemma list_ind4 {A} (P : list A -> Prop) :
  P [] -> (forall a, P [a]) -> (forall a b, P [a; b]) ->
  (forall a b c, P [a; b; c]) ->
  (forall a b c d l, P l -> P (a :: b :: c :: d :: l)) ->
  forall l, P l.
Proof.
  intros H0 H1 H2 H3 H4 l.
  assert (H : P l /\ (forall a, P (a :: l)) /\ (forall a b, P (a :: b :: l))
              /\ (forall a b c, P (a :: b :: c :: l))).
  { induction l as [| d l (IH0 & IH1 & IH2 & IH3)]; [auto |].
    split; [apply IH1 |]. split; [intros a; apply IH2 |].
    split; [intros a b; apply IH3 |].
    intros a b c. apply H4. exact IH0. }
  apply H.
Qed.

Lemma decoded_length wrap (ks : list Z) :
  length (decoded wrap ks) = decoded_count (length ks).
Proof.
  induction ks as [| a | a b | a b c | a b c d l IH] using list_ind4;
    try reflexivity.
  change (decoded wrap (a :: b :: c :: d :: l))
    with (octets wrap [a; b; c; d] ++ decoded wrap l).
  rewrite length_app, IH. unfold decoded_count. simpl length.
  replace (S (S (S (S (length l))))) with (length l + 1 * 4)%nat by lia.
  rewrite Nat.div_add, Nat.Div0.mod_add by lia. lia.
Qed.

Lemma GetInverseCapacity_decoded_count (n : nat) :
  GetInverseCapacity n = decoded_count n.
Proof.
  unfold GetInverseCapacity, decoded_count.
  pose proof (Nat.div_mod_eq n 4) as Hn.
  pose proof (Nat.mod_upper_bound n 4) as Hr.
  assert (Hcases : (n mod 4 = 0 \/ n mod 4 = 1 \/ n mod 4 = 2 \/ n mod 4 = 3)%nat)
    by lia.
  set (q := (n / 4)%nat) in *. set (r := (n mod 4)%nat) in *.
  rewrite Hn.
  replace (((4 * q + r) * 3 + 3))%nat with ((r * 3 + 3) + (3 * q) * 4)%nat by lia.
  rewrite Nat.div_add by lia.
  destruct Hcases as [-> | [-> | [-> | ->]]]; simpl; lia.
Qed.

Lemma decoded_snoc wrap (ks : list Z) (k : Z) :
  (length ks mod 4 = 0)%nat ->
  decoded wrap (ks ++ [k]) = decoded wrap ks ++ [wrap (Z.shiftl k 2)].
Proof.
  induction ks as [| a | a b | a b c | a b c d l IH] using list_ind4;
    simpl length; intros Hlen; try discriminate.
  - reflexivity.
  - change ((a :: b :: c :: d :: l) ++ [k]) with (a :: b :: c :: d :: (l ++ [k])).
    change (decoded wrap (a :: b :: c :: d :: (l ++ [k])))
      with (octets wrap [a; b; c; d] ++ decoded wrap (l ++ [k])).
    change (decoded wrap (a :: b :: c :: d :: l))
      with (octets wrap [a; b; c; d] ++ decoded wrap l).
    rewrite IH, <- app_assoc; [reflexivity |].
    replace (S (S (S (S (length l))))) with (length l + 1 * 4)%nat in Hlen by lia.
    rewrite Nat.Div0.mod_add in Hlen. exact Hlen.
Qed.

Lemma DecodeToBytes_recognized (t : Base64Encoding) (s : jsstring) (ks : list Z)
    (ip ac : bool) :
  length ks = length s ->
  recognized_at (BaseMapLookup t) s 0 ks ->
  DecodeToBytes t s ip ac = Return (decoded wrap_byte ks).
Proof.
  intros Hlen Hrec. unfold DecodeToBytes.
  destruct (length s =? 0)%nat eqn:Hz.
  - apply Nat.eqb_eq in Hz. destruct ks; [reflexivity | simpl in Hlen; lia].
  - pose proof (DecodeToBytes_for_recognized (BaseMapLookup t) s
                  (padding_or_nul t) (padding_code_or_zero t) ip ac
                  (length s) 0 [] (GetInverseCapacity (length s)) ks) as Hfor.
    simpl length in Hfor. simpl app in Hfor.
    rewrite Hfor; try lia; try assumption.
    + simpl. rewrite decoded_length, Hlen, GetInverseCapacity_decoded_count.
      rewrite Nat.sub_diag. simpl. rewrite app_nil_r.
      rewrite bool_decide_eq_false_2 by (intros H; apply H; reflexivity).
      reflexivity.
    + rewrite decoded_length, Hlen, GetInverseCapacity_decoded_count. lia.
Qed.

Lemma Decode_recognized (t : Base64Encoding) (s : jsstring) (ks : list Z)
    (ip ac : bool) :
  length ks = length s ->
  recognized_at (BaseMapLookup t) s 0 ks ->
  Decode t s ip ac = Return (decoded wrap_unit ks).
Proof.
  intros Hlen Hrec. unfold Decode.
  destruct (length s =? 0)%nat eqn:Hz.
  - apply Nat.eqb_eq in Hz. destruct ks; [reflexivity | simpl in Hlen; lia].
  - rewrite (Decode_for_recognized _ _ _ _ _ _ _ _ _ ks); try lia; try assumption.
    reflexivity.
Qed.

Lemma recognized_at_string_cons lookup (c : Z) (s : jsstring) (k : Z) (ks : list Z) :
  lookup !! Some c = Some k ->
  recognized_at lookup s 0 ks ->
  recognized_at lookup (c :: s) 0 (k :: ks).
Proof.
  intros Hc Hrec p k' Hp. destruct p as [| p]; simpl in *.
  - congruence.
  - apply (Hrec p k' Hp).
Qed.

Lemma recognized_at_string_app lookup (s s' : jsstring) (ks ks' : list Z) :
  length ks = length s ->
  recognized_at lookup s 0 ks ->
  recognized_at lookup s' 0 ks' ->
  recognized_at lookup (s ++ s') 0 (ks ++ ks').
Proof.
  intros Hlen Hrec Hrec' p k Hp. simpl.
  destruct (le_lt_dec (length s) p) as [Hge | Hlt].
  - rewrite lookup_app_r in Hp by lia. rewrite lookup_app_r by lia.
    rewrite Hlen in Hp. apply (Hrec' _ _ Hp).
  - rewrite lookup_app_l in Hp by lia. rewrite lookup_app_l by lia.
    apply (Hrec _ _ Hp).
Qed.

Lemma alphabet_recognized alphabet options t (s : jsstring) :
  constructor alphabet options = Return t ->
  Forall (fun x => x ∈ alphabet) s ->
  exists ks, length ks = length s
    /\ recognized_at (BaseMapLookup t) s 0 ks.
Proof.
  intros Hnew. induction s as [| c s IH]; intros Hall.
  - exists []. split; [reflexivity |]. intros p k Hp. discriminate.
  - apply Forall_cons in Hall as [Hc Hall].
    destruct (IH Hall) as (ks & Hlen & Hrec).
    apply list_elem_of_lookup in Hc as [m Hm].
    exists (Z.of_nat m :: ks). split; [simpl; lia |].
    apply recognized_at_string_cons; [| exact Hrec].
    apply (constructed_BaseMapLookup _ _ _ Hnew). exact Hm.
Qed.

(** C2, amended.  For an instance the constructor has returned and an
    input whose symbols all belong to its alphabet, decoding returns 3
    bytes for each full group of 4 symbols and one byte for each symbol of
    a final shorter group: the carry is emitted after every group,
    whatever the number of symbols consumed.  A single leftover symbol
    (input length congruent to 1 modulo 4) adds one byte to the output,
    4 times its index in the alphabet. *)
Theorem decode_emits_carry_after_every_group
    (alphabet : jsstring) (options : jsoptions padding_option)
    (t : Base64Encoding) (s : jsstring) (c : Z) (d : nat) (ip ac : bool) :
  constructor alphabet options = Return t ->
  Forall (fun x => x ∈ alphabet) s ->
  alphabet !! d = Some c ->
  (exists out,
     DecodeToBytes t s ip ac = Return out
     /\ length out = (3 * (length s / 4) + length s mod 4)%nat
     /\ ((length s mod 4 = 0)%nat ->
         DecodeToBytes t (s ++ [c]) ip ac = Return (out ++ [4 * Z.of_nat d])))
  /\ (exists out,
     Decode t s ip ac = Return out
     /\ length out = (3 * (length s / 4) + length s mod 4)%nat
     /\ ((length s mod 4 = 0)%nat ->
         Decode t (s ++ [c]) ip ac = Return (out ++ [4 * Z.of_nat d]))).
Proof.
  intros Hnew Hall Hd.
  destruct (alphabet_recognized _ _ _ s Hnew Hall) as (ks & Hlen & Hrec).
  assert (Hc : recognized_at (BaseMapLookup t) [c] 0 [Z.of_nat d]).
  { apply recognized_at_string_cons.
    - apply (constructed_BaseMapLookup _ _ _ Hnew). exact Hd.
    - intros p k Hp. discriminate. }
  assert (Hrec' : recognized_at (BaseMapLookup t) (s ++ [c]) 0 (ks ++ [Z.of_nat d]))
    by (apply recognized_at_string_app; assumption).
  assert (Hlen' : length (ks ++ [Z.of_nat d]) = length (s ++ [c]))
    by (rewrite !length_app; simpl; lia).
  assert (Hsmall : (d < 64)%nat).
  { apply lookup_lt_Some in Hd.
    pose proof (constructed_length _ _ _ Hnew). lia. }
  assert (Hshift : Z.shiftl (Z.of_nat d) 2 = 4 * Z.of_nat d).
  { rewrite Z.shiftl_mul_pow2 by lia. change (2 ^ 2) with 4. lia. }
  split.
  - exists (decoded wrap_byte ks).
    split; [apply DecodeToBytes_recognized; assumption |].
    split; [rewrite decoded_length, Hlen; reflexivity |].
    intros Hmod. rewrite (DecodeToBytes_recognized t _ _ ip ac Hlen' Hrec').
    rewrite decoded_snoc by (rewrite Hlen; exact Hmod).
    unfold wrap_byte. rewrite Hshift, Z.mod_small by lia. reflexivity.
  - exists (decoded wrap_unit ks).
    split; [apply Decode_recognized; assumption |].
    split; [rewrite decoded_length, Hlen; reflexivity |].
    intros Hmod. rewrite (Decode_recognized t _ _ ip ac Hlen' Hrec').
    rewrite decoded_snoc by (rewrite Hlen; exact Hmod).
    unfold wrap_unit. rewrite Hshift, Z.mod_small by lia. reflexivity.
Qed.

(** ** The constructor *)

(** What the constructor does check: it returns only for an alphabet of
    63 or 64 characters, without duplicates, with codes in [0x21, 0x7E]. *)
Lemma constructor_validates alphabet options t :
  constructor alphabet options = Return t ->
  (63 <= length alphabet <= 64)%nat
  /\ NoDup alphabet
  /\ Forall (fun c => 0x21 <= c <= 0x7e) alphabet.
Proof.
  intros Hnew.
  split; [exact (constructed_length _ _ _ Hnew) |].
  split; [exact (constructed_NoDup _ _ _ Hnew) |].
  apply Forall_lookup. intros m c Hm.
  exact (constructed_code_range _ _ _ Hnew _ _ Hm).
Qed.

(** C3. The constructor returns an instance for the 63-character
    alphabet [A-Za-z0-9+]: an alphabet of fewer than 64 characters is not
    rejected.  In that instance the index 63 has no character, and the
    three bytes 0xFF are encoded as four times the text of undefined. *)
Theorem constructor_accepts_63_characters :
  length alphabet63 = 63%nat
  /\ constructor alphabet63 Undefined = Return SHORT
  /\ Alphabet SHORT = alphabet63
  /\ string_index (Alphabet SHORT) 63 = None
  /\ encodeBytesToString SHORT [0xFF; 0xFF; 0xFF] Undefined
     = Return (str "undefinedundefinedundefinedundefined").
Proof. repeat apply conj; vm_compute; reflexivity. Qed.

(** ** The default of [withPadding] *)

(** C4, as the claim states it, fails: without options [encodeBytes] of
    the basic instance, which has the padding symbol [=], encodes without
    padding. *)
Lemma encodeBytes_default_is_not_the_table_padding :
  ~ defaults_to_table_padding encodeBytes EncodeBytes.
Proof.
  intros H. specialize (H BASIC [0x4D] Undefined I).
  vm_compute in H. discriminate H.
Qed.

Lemma withPadding_of_table_omitted this options :
  omits_withPadding options ->
  withPadding_of_table this options = Return (truthy_string (Padding this)).
Proof.
  destruct options as [| | o]; simpl; intros H; [reflexivity | contradiction |].
  rewrite H. reflexivity.
Qed.

Lemma withPadding_or_false_omitted options :
  omits_withPadding options -> withPadding_or_false options = Return false.
Proof.
  destruct options as [| | o]; simpl; intros H; [reflexivity | contradiction |].
  rewrite H. reflexivity.
Qed.

(** C4, amended.  Every encode method uses the [withPadding] it is given.
    When the caller omits it, the methods with a string output ([encode],
    [encodeBytesToString], [encodeText]) take the default from the table:
    true exactly when the instance has a padding symbol; the methods with
    a byte output ([encodeToBytes], [encodeBytes], [encodeTextToBytes])
    encode without padding, whatever the table. *)
Theorem withPadding_defaults (UTF8Encode : jsstring -> list Z) :
  (honours_withPadding encode Encode
   /\ honours_withPadding encodeBytesToString EncodeBytesToString
   /\ honours_withPadding (encodeText UTF8Encode) (EncodeText UTF8Encode)
   /\ honours_withPadding encodeToBytes EncodeToBytes
   /\ honours_withPadding encodeBytes EncodeBytes
   /\ honours_withPadding (encodeTextToBytes UTF8Encode)
        (EncodeTextToBytes UTF8Encode))
  /\ (defaults_to_table_padding encode Encode
      /\ defaults_to_table_padding encodeBytesToString EncodeBytesToString
      /\ defaults_to_table_padding (encodeText UTF8Encode) (EncodeText UTF8Encode))
  /\ (defaults_to_no_padding encodeToBytes EncodeToBytes
      /\ defaults_to_no_padding encodeBytes EncodeBytes
      /\ defaults_to_no_padding (encodeTextToBytes UTF8Encode)
           (EncodeTextToBytes UTF8Encode)).
Proof.
  split; [| split].
  - repeat split; intros this input o b Hb;
      unfold encode, encodeBytesToString, encodeText, encodeToBytes,
        encodeBytes, encodeTextToBytes; simpl; rewrite Hb; reflexivity.
  - repeat split; intros this input options Homit;
      unfold encode, encodeBytesToString, encodeText;
      rewrite withPadding_of_table_omitted by exact Homit; reflexivity.
  - repeat split; intros this input options Homit;
      unfold encodeToBytes, encodeBytes, encodeTextToBytes;
      rewrite withPadding_or_false_omitted by exact Homit; reflexivity.
Qed.

(** ** Round trip *)

Lemma land_3 (x : Z) : Z.land x 3 = x mod 4.
Proof. change 3 with (Z.ones 2). rewrite Z.land_ones by lia. reflexivity. Qed.

Lemma land_15 (x : Z) : Z.land x 15 = x mod 16.
Proof. change 15 with (Z.ones 4). rewrite Z.land_ones by lia. reflexivity. Qed.

Lemma land_63 (x : Z) : Z.land x 63 = x mod 64.
Proof. change 63 with (Z.ones 6). rewrite Z.land_ones by lia. reflexivity. Qed.

Lemma shiftl_0 (x : Z) : Z.shiftl x 0 = x.
Proof. apply Z.shiftl_0_r. Qed.

Lemma shiftl_2 (x : Z) : Z.shiftl x 2 = x * 4.
Proof. rewrite Z.shiftl_mul_pow2 by lia. reflexivity. Qed.

Lemma shiftl_4 (x : Z) : Z.shiftl x 4 = x * 16.
Proof. rewrite Z.shiftl_mul_pow2 by lia. reflexivity. Qed.

Lemma shiftl_6 (x : Z) : Z.shiftl x 6 = x * 64.
Proof. rewrite Z.shiftl_mul_pow2 by lia. reflexivity. Qed.

Lemma shiftr_0 (x : Z) : Z.shiftr x 0 = x.
Proof. apply Z.shiftr_0_r. Qed.

Lemma shiftr_2 (x : Z) : Z.shiftr x 2 = x / 4.
Proof. rewrite Z.shiftr_div_pow2 by lia. reflexivity. Qed.

Lemma shiftr_4 (x : Z) : Z.shiftr x 4 = x / 16.
Proof. rewrite Z.shiftr_div_pow2 by lia. reflexivity. Qed.

Lemma shiftr_6 (x : Z) : Z.shiftr x 6 = x / 64.
Proof. rewrite Z.shiftr_div_pow2 by lia. reflexivity. Qed.

Create Rewrite HintDb bits.
#[local] Hint Rewrite land_3 land_15 land_63 shiftl_0 shiftl_2 shiftl_4 shiftl_6
  shiftr_0 shiftr_2 shiftr_4 shiftr_6 : bits.

Ltac bits :=
  cbn [indices payload decoded
       sextets group_indices group_carry octets group_octets group_rest app
       ENCODING_SHIFTS ENCODING_MASKS ENCODING_DIGITS
       DECODING_SHIFTS DECODING_MASKS DECODING_DIGITS nth negb Z.eqb];
  unfold wrap_byte; autorewrite with bits.

Lemma octets_sextets (a b c : Z) :
  is_byte a -> is_byte b -> is_byte c ->
  octets wrap_byte (sextets [a; b; c]) = [a; b; c].
Proof.
  unfold is_byte. intros Ha Hb Hc. bits.
  repeat f_equal; Z.div_mod_to_equations; lia.
Qed.

Lemma payload_indices (b : list Z) :
  Forall is_byte b -> payload wrap_byte (indices b) = b.
Proof.
  induction b as [| x | x y | x y z l IH] using list_ind3; intros Hall.
  - reflexivity.
  - apply Forall_cons in Hall as [Hx _]. unfold is_byte in Hx.
    cbn [indices payload]. bits. repeat f_equal. Z.div_mod_to_equations. lia.
  - apply Forall_cons in Hall as [Hx Hall]. apply Forall_cons in Hall as [Hy _].
    unfold is_byte in Hx, Hy.
    cbn [indices payload]. bits. repeat f_equal; Z.div_mod_to_equations; lia.
  - apply Forall_cons in Hall as [Hx Hall]. apply Forall_cons in Hall as [Hy Hall].
    apply Forall_cons in Hall as [Hz Hall].
    change (indices (x :: y :: z :: l)) with (sextets [x; y; z] ++ indices l).
    pose proof (octets_sextets x y z Hx Hy Hz) as Hgroup.
    cbn [sextets group_indices group_carry app] in *.
    cbn [payload]. rewrite Hgroup, IH by assumption. reflexivity.
Qed.

(** What the decoder makes of the indices of [b]: [b], and after a final
    group of one or two bytes one more byte, 0. *)
Lemma decoded_indices (b : list Z) :
  Forall is_byte b ->
  decoded wrap_byte (indices b)
  = b ++ (if (length b mod 3 =? 0)%nat then [] else [0]).
Proof.
  induction b as [| x | x y | x y z l IH] using list_ind3; intros Hall.
  - reflexivity.
  - apply Forall_cons in Hall as [Hx _]. unfold is_byte in Hx.
    cbn [indices decoded]. bits. simpl.
    repeat f_equal; Z.div_mod_to_equations; lia.
  - apply Forall_cons in Hall as [Hx Hall]. apply Forall_cons in Hall as [Hy _].
    unfold is_byte in Hx, Hy.
    cbn [indices decoded]. bits. simpl.
    repeat f_equal; Z.div_mod_to_equations; lia.
  - apply Forall_cons in Hall as [Hx Hall]. apply Forall_cons in Hall as [Hy Hall].
    apply Forall_cons in Hall as [Hz Hall].
    change (indices (x :: y :: z :: l)) with (sextets [x; y; z] ++ indices l).
    pose proof (octets_sextets x y z Hx Hy Hz) as Hgroup.
    cbn [sextets group_indices group_carry app] in *.
    cbn [decoded]. rewrite Hgroup, IH by assumption.
    replace (length (x :: y :: z :: l)) with (length l + 1 * 3)%nat
      by (simpl; lia).
    rewrite Nat.Div0.mod_add. reflexivity.
Qed.

(** One iteration on a group that meets the padding after the recognized
    symbols [ks], without concatenation: the loop is left. *)
Lemma DecodeToBytes_for_boundary (lookup : gmap (option Z) Z) (s padding : jsstring)
    (pc : Z) (fuel i : nat) (pre : list Z) (k : nat) (ks : list Z) :
  (i < length s)%nat ->
  (length ks < GetDecodingBytes (length s) i)%nat ->
  recognized_at lookup s i ks ->
  lookup !! (s !! (i + length ks)%nat) = None ->
  code_is (s !! (i + length ks)%nat) pc = true ->
  (length (group_octets wrap_byte ks 0 0) <= k)%nat ->
  DecodeToBytes_for lookup s padding pc false false (S fuel) i i
    (length pre) (pre ++ replicate k 0)
  = Return ((length pre + length (group_octets wrap_byte ks 0 0))%nat,
            (pre ++ group_octets wrap_byte ks 0 0)
            ++ replicate (k - length (group_octets wrap_byte ks 0 0)) 0).
Proof.
  intros Hi Hlen Hrec Hnone Hpad Hk.
  cbn [DecodeToBytes_for]. rewrite (proj2 (Nat.ltb_lt _ _) Hi).
  replace (GetDecodingBytes (length s) i)
    with (length ks + S (GetDecodingBytes (length s) i - S (length ks)))%nat by lia.
  rewrite DecodeToBytes_group_recognized by (auto; lia).
  cbn [DecodeToBytes_group]. unfold StringCharCodeAt.
  rewrite Hnone, Hpad. reflexivity.
Qed.

Lemma payload_short wrap (ks : list Z) :
  (length ks < 4)%nat -> payload wrap ks = group_octets wrap ks 0 0.
Proof.
  destruct ks as [| k0 [| k1 [| k2 [| k3 rest]]]]; simpl; intros H;
    try lia; reflexivity.
Qed.

Lemma payload_full wrap (ks : list Z) :
  (4 <= length ks)%nat ->
  payload wrap ks = octets wrap (take 4 ks) ++ payload wrap (drop 4 ks).
Proof.
  destruct ks as [| k0 [| k1 [| k2 [| k3 rest]]]]; simpl; intros H;
    try lia; reflexivity.
Qed.

(** The loop on recognized symbols [ks] followed by a padding symbol,
    where the padding does not start a group. *)
Lemma DecodeToBytes_for_padded (lookup : gmap (option Z) Z)
    (s padding : jsstring) (pc : Z) :
  forall fuel i pre k ks,
  (length s - i <= fuel)%nat ->
  recognized_at lookup s i ks ->
  (length ks mod 4 <> 0)%nat ->
  (i + length ks < length s)%nat ->
  lookup !! (s !! (i + length ks)%nat) = None ->
  code_is (s !! (i + length ks)%nat) pc = true ->
  (length (payload wrap_byte ks) <= k)%nat ->
  DecodeToBytes_for lookup s padding pc false false fuel i i
    (length pre) (pre ++ replicate k 0)
  = Return ((length pre + length (payload wrap_byte ks))%nat,
            (pre ++ payload wrap_byte ks)
            ++ replicate (k - length (payload wrap_byte ks)) 0).
Proof.
  induction fuel as [| fuel IH]; intros i pre k ks Hfuel Hrec Hmod Hin Hnone Hpad Hk;
    [lia |].
  destruct (le_lt_dec 4 (length ks)) as [Hfull | Hshort].
  - rewrite (payload_full _ ks) in * by lia.
    rewrite length_app in Hk.
    rewrite (DecodeToBytes_for_group _ _ _ _ _ _ _ _ _ _ (take 4 ks)).
    + rewrite length_take, Nat.min_l by lia.
      replace (length pre + length (octets wrap_byte (take 4 ks)))%nat
        with (length (pre ++ octets wrap_byte (take 4 ks)))
        by (rewrite length_app; reflexivity).
      assert (Hdrop : length (drop 4 ks) = (length ks - 4)%nat)
        by apply length_drop.
      rewrite (IH _ _ _ (drop 4 ks)).
      * rewrite !length_app, <- !app_assoc.
        rewrite Nat.add_assoc, Nat.sub_add_distr. reflexivity.
      * lia.
      * apply recognized_at_drop. exact Hrec.
      * rewrite Hdrop.
        replace (length ks) with ((length ks - 4) + 1 * 4)%nat in Hmod by lia.
        rewrite Nat.Div0.mod_add in Hmod. exact Hmod.
      * rewrite Hdrop. lia.
      * rewrite Hdrop. replace (i + 4 + (length ks - 4))%nat
          with (i + length ks)%nat by lia. exact Hnone.
      * rewrite Hdrop. replace (i + 4 + (length ks - 4))%nat
          with (i + length ks)%nat by lia. exact Hpad.
      * lia.
    + lia.
    + rewrite length_take. unfold GetDecodingBytes.
      rewrite (proj2 (Nat.ltb_ge _ _)) by lia. lia.
    + apply recognized_at_take. exact Hrec.
    + lia.
  - rewrite (payload_short _ ks) in * by lia.
    apply DecodeToBytes_for_boundary; try assumption; try lia.
    unfold GetDecodingBytes.
    destruct (length s - i <? 4)%nat eqn:E; [| lia].
    lia.
Qed.

Ltac nat_div_lia := zify; Z.div_mod_to_equations; lia.

Lemma emit_string_symbols (alphabet : jsstring) (ks : list Z) :
  length alphabet = 64%nat -> Forall is_sextet ks ->
  emit_string alphabet ks = map (symbol alphabet) ks.
Proof.
  intros Hlen. induction ks as [| k ks IH]; intros Hks; [reflexivity |].
  apply Forall_cons in Hks as [Hk Hks]. unfold is_sextet in Hk.
  simpl. destruct (string_index_symbol alphabet k) as [-> _]; [lia |].
  simpl. rewrite <- IH by assumption. reflexivity.
Qed.

Lemma recognized_symbols alphabet options t (ks : list Z) (tail : jsstring) :
  constructor alphabet options = Return t ->
  length alphabet = 64%nat -> Forall is_sextet ks ->
  recognized_at (BaseMapLookup t) (map (symbol alphabet) ks ++ tail) 0 ks.
Proof.
  intros Hnew Hlen Hks p k Hp. simpl.
  rewrite lookup_app_l by (rewrite length_map; apply lookup_lt_Some in Hp; exact Hp).
  rewrite list_lookup_fmap, Hp. simpl.
  rewrite Forall_lookup in Hks. specialize (Hks _ _ Hp). unfold is_sextet in Hks.
  destruct (string_index_symbol alphabet k) as [_ Hsym]; [lia |].
  rewrite (constructed_BaseMapLookup _ _ _ Hnew _ _ Hsym). f_equal. lia.
Qed.

(** The padding symbol the decoder looks for is the one the encoder
    appends, and it has no index. *)
Lemma constructed_padding_symbol alphabet options t :
  constructor alphabet options = Return t ->
  exists c, padding_or_nul t = [c]
    /\ padding_code_or_zero t = c
    /\ BaseMapLookup t !! Some c = None.
Proof.
  intros Hnew. unfold padding_or_nul, padding_code_or_zero.
  destruct (constructed_padding _ _ _ Hnew)
    as [[-> ->] | (c & -> & -> & Hrange & Hout)]; simpl.
  - exists 0. repeat split.
    apply (constructed_BaseMapLookup_None _ _ _ Hnew).
    intros Hin. apply list_elem_of_lookup in Hin as [m Hm].
    pose proof (constructed_code_range _ _ _ Hnew _ _ Hm). lia.
  - exists c. destruct (c =? 0) eqn:Hz; [lia |]. simpl. repeat split.
    apply (constructed_BaseMapLookup_None _ _ _ Hnew). exact Hout.
Qed.

Lemma slice_written (capacity : nat) (out : list Z) :
  (if bool_decide (capacity <> length out)
   then take (length out) (out ++ replicate (capacity - length out) 0)
   else out ++ replicate (capacity - length out) 0) = out.
Proof.
  destruct (bool_decide _) eqn:E.
  - apply take_app_length.
  - apply bool_decide_eq_false in E.
    assert (capacity = length out) as -> by (destruct (Nat.eq_dec capacity (length out)); [assumption | contradiction]).
    rewrite Nat.sub_diag. apply app_nil_r.
Qed.

(** With padding on both sides the round trip holds: for an instance the
    constructor has returned from a 64-character alphabet (with a padding
    symbol or, like the URL-safe instance, without one) and every byte
    sequence [b], encoding [b] with [withPadding = true] and decoding the
    result with [ignorePadding = false] returns [b]. *)
Lemma padded_round_trip
    (alphabet : jsstring) (options : jsoptions padding_option)
    (t : Base64Encoding) (b : list Z) :
  constructor alphabet options = Return t ->
  length alphabet = 64%nat ->
  Forall is_byte b ->
  exists e, EncodeBytesToString t b true = Return e
            /\ DecodeToBytes t e false false = Return b.
Proof.
  intros Hnew Hlen Hb.
  destruct (constructed_padding_symbol _ _ _ Hnew) as (c & Hpad & Hcode & Hnone).
  pose proof (indices_range b Hb) as Hks.
  pose proof (indices_length b) as Hn.
  rewrite (EncodeBytesToString_eq t c b true Hpad).
  eexists. split; [reflexivity |].
  rewrite (constructed_Alphabet _ _ _ Hnew), emit_string_symbols by assumption.
  unfold padded. rewrite length_map.
  set (ks := indices b) in *.
  set (pads := replicate (padding_count (length ks)) c).
  pose proof (recognized_symbols _ _ _ ks pads Hnew Hlen Hks) as Hrec.
  destruct (Nat.eq_dec (length b mod 3)%nat 0%nat) as [Hfull | Hshort].
  - assert (Hcount : padding_count (length ks) = 0%nat).
    { unfold padding_count, GetPaddedLength.
      assert (length ks mod 4 = 0)%nat as -> by nat_div_lia. simpl. lia. }
    assert (Hnil : pads = []) by (unfold pads; rewrite Hcount; reflexivity).
    rewrite Hnil in *. rewrite app_nil_r in *.
    rewrite (DecodeToBytes_recognized t _ ks) by (try rewrite length_map; auto).
    unfold ks. rewrite decoded_indices by assumption.
    rewrite (proj2 (Nat.eqb_eq _ _) Hfull). rewrite app_nil_r. reflexivity.
  - assert (Hmod : (length ks mod 4 <> 0)%nat) by nat_div_lia.
    assert (Hcount : (0 < padding_count (length ks))%nat)
      by (apply padding_count_spec; exact Hmod).
    assert (Hpads : pads !! 0%nat = Some c)
      by (unfold pads; apply lookup_replicate_2; exact Hcount).
    assert (Hat : (map (symbol alphabet) ks ++ pads) !! (0 + length ks)%nat = Some c).
    { simpl. rewrite lookup_app_r by (rewrite length_map; lia).
      rewrite length_map, Nat.sub_diag. exact Hpads. }
    assert (Hlene : length (map (symbol alphabet) ks ++ pads)
                    = GetPaddedLength (length ks)).
    { rewrite length_app, length_map. unfold pads. rewrite length_replicate.
      unfold padding_count. destruct (GetPaddedLength_spec (length ks)). lia. }
    assert (Hpayload : payload wrap_byte ks = b) by (apply payload_indices; exact Hb).
    unfold DecodeToBytes. rewrite Hlene.
    destruct (GetPaddedLength (length ks) =? 0)%nat eqn:Hz.
    { apply Nat.eqb_eq in Hz. destruct (GetPaddedLength_spec (length ks)). lia. }
    pose proof (DecodeToBytes_for_padded (BaseMapLookup t)
                  (map (symbol alphabet) ks ++ pads) (padding_or_nul t)
                  (padding_code_or_zero t) (GetPaddedLength (length ks)) 0 []
                  (GetInverseCapacity (GetPaddedLength (length ks))) ks) as Hfor.
    simpl length in Hfor. simpl app in Hfor.
    rewrite Hfor; clear Hfor.
    + simpl. rewrite Hpayload. f_equal. apply slice_written.
    + rewrite Hlene. lia.
    + exact Hrec.
    + exact Hmod.
    + rewrite Hlene. simpl. unfold padding_count in Hcount. lia.
    + rewrite Hat. exact Hnone.
    + rewrite Hat, Hcode. simpl. apply Z.eqb_refl.
    + rewrite Hpayload. unfold GetInverseCapacity, GetPaddedLength.
      rewrite Hn.
      destruct (((length b * 4 + 2) / 3) mod 4 =? 0)%nat; nat_div_lia.
Qed.

(** Without padding on either side the round trip appends a byte: for
    every byte sequence [b] whose length is not a multiple of 3, decoding
    the unpadded encoding of [b] with [ignorePadding = true] returns
    [b] followed by 0x00. *)
Lemma unpadded_round_trip
    (alphabet : jsstring) (options : jsoptions padding_option)
    (t : Base64Encoding) (b : list Z) (ac : bool) :
  constructor alphabet options = Return t ->
  length alphabet = 64%nat ->
  Forall is_byte b ->
  exists e, EncodeBytesToString t b false = Return e
            /\ DecodeToBytes t e true ac
               = Return (b ++ (if (length b mod 3 =? 0)%nat then [] else [0])).
Proof.
  intros Hnew Hlen Hb.
  destruct (constructed_padding_symbol _ _ _ Hnew) as (c & Hpad & _).
  pose proof (indices_range b Hb) as Hks.
  rewrite (EncodeBytesToString_eq t c b false Hpad).
  eexists. split; [reflexivity |].
  rewrite (constructed_Alphabet _ _ _ Hnew), emit_string_symbols by assumption.
  unfold padded.
  pose proof (recognized_symbols _ _ _ (indices b) [] Hnew Hlen Hks) as Hrec.
  rewrite app_nil_r in Hrec.
  rewrite (DecodeToBytes_recognized t _ (indices b))
    by (try rewrite length_map; auto).
  rewrite decoded_indices by assumption. reflexivity.
Qed.

(** ** Concrete inputs *)

(** C1. With the URL-safe instance and its default options, that is
    without padding on both sides, the byte 0x4D is encoded as [TQ] and
    [TQ] is decoded as the two bytes 0x4D, 0x00: decoding the encoding
    does not return the input.  The same happens with the basic instance
    when padding is off on both sides. *)
Theorem unpadded_round_trip_appends_a_zero_byte :
  encodeBytesToString URL [0x4D] Undefined = Return (str "TQ")
  /\ decodeToBytes URL (str "TQ") Undefined = Return [0x4D; 0x00]
  /\ encodeBytesToString BASIC [0x4D; 0x61] padding_off = Return (str "TWE")
  /\ decodeToBytes BASIC (str "TWE") ignore_padding = Return [0x4D; 0x61; 0x00].
Proof. repeat apply conj; vm_compute; reflexivity. Qed.

(** C2, as the claim states it, fails: the URL-safe instance decodes the
    four symbols [AAAA] to three bytes and the five symbols [AAAAB] to
    four bytes; the single leftover symbol [B], of index 1, has produced
    the byte 4.  Alone, [B] is decoded to that one byte. *)
Lemma single_leftover_symbol_emits_a_byte :
  decodeToBytes URL (str "AAAA") Undefined = Return [0; 0; 0]
  /\ decodeToBytes URL (str "AAAAB") Undefined = Return [0; 0; 0; 4]
  /\ decodeToBytes URL (str "B") Undefined = Return [4]
  /\ decode URL (str "AAAAB") Undefined = Return [0; 0; 0; 4].
Proof. repeat apply conj; vm_compute; reflexivity. Qed.

Lemma decode_emits_carry_after_every_group_witness :
  (exists out,
     DecodeToBytes URL (str "AAAA") true false = Return out
     /\ length out = (3 * (length (str "AAAA") / 4) + length (str "AAAA") mod 4)%nat
     /\ ((length (str "AAAA") mod 4 = 0)%nat ->
         DecodeToBytes URL (str "AAAA" ++ [66]) true false
         = Return (out ++ [4 * Z.of_nat 1])))
  /\ (exists out,
     Decode URL (str "AAAA") true false = Return out
     /\ length out = (3 * (length (str "AAAA") / 4) + length (str "AAAA") mod 4)%nat
     /\ ((length (str "AAAA") mod 4 = 0)%nat ->
         Decode URL (str "AAAA" ++ [66]) true false
         = Return (out ++ [4 * Z.of_nat 1]))).
Proof.
  apply (decode_emits_carry_after_every_group url_alphabet
           (Object (PaddingString [])) URL (str "AAAA") 66 1 true false).
  - exact URL_constructed.
  - repeat (apply Forall_cons; split;
              [apply list_elem_of_In; vm_compute; left; reflexivity |]).
    apply Forall_nil. exact I.
  - reflexivity.
Defined.

(** C5. With the basic instance, [AAAA==] is decoded to three zero bytes;
    [AAAA==AAAA==] is decoded with [allowConcatenation = true] to these
    bytes twice, and with [allowConcatenation = false], or without
    options, to these bytes once: what follows the first padding is
    ignored and nothing is thrown.  The same holds for the string output
    of [decode]. *)
Theorem decode_concatenated_segments :
  let segment := str "AAAA==" in
  let first : list Z := [0; 0; 0] in
  decodeToBytes BASIC segment Undefined = Return first
  /\ decodeToBytes BASIC (segment ++ segment) concatenation_on
     = Return (first ++ first)
  /\ decodeToBytes BASIC (segment ++ segment) concatenation_off = Return first
  /\ decodeToBytes BASIC (segment ++ segment) Undefined = Return first
  /\ decode BASIC segment Undefined = Return first
  /\ decode BASIC (segment ++ segment) concatenation_on = Return (first ++ first)
  /\ decode BASIC (segment ++ segment) concatenation_off = Return first.
Proof. repeat apply conj; vm_compute; reflexivity. Qed.

(** C6. With the basic instance: the bytes 0x4D, 0x61, 0x6E are encoded
    as [TWFu]; the bytes 0x4D, 0x61 are encoded as [TWE=] with padding and
    as [TWE] without; [TWE=] is decoded to the bytes 0x4D, 0x61.  This
    holds for the byte input and for the string input, and for the string
    output and the byte output. *)
Theorem basic_test_vectors :
  encodeBytesToString BASIC [0x4D; 0x61; 0x6E] Undefined = Return (str "TWFu")
  /\ encodeBytesToString BASIC [0x4D; 0x61] padding_on = Return (str "TWE=")
  /\ encodeBytesToString BASIC [0x4D; 0x61] Undefined = Return (str "TWE=")
  /\ encodeBytesToString BASIC [0x4D; 0x61] padding_off = Return (str "TWE")
  /\ decodeToBytes BASIC (str "TWE=") Undefined = Return [0x4D; 0x61]
  /\ encode BASIC (str "Man") Undefined = Return (str "TWFu")
  /\ encode BASIC (str "Ma") padding_on = Return (str "TWE=")
  /\ encode BASIC (str "Ma") padding_off = Return (str "TWE")
  /\ decode BASIC (str "TWE=") Undefined = Return (str "Ma")
  /\ encodeBytes BASIC [0x4D; 0x61; 0x6E] padding_on = Return (str "TWFu")
  /\ encodeBytes BASIC [0x4D; 0x61] padding_on = Return (str "TWE=")
  /\ encodeBytes BASIC [0x4D; 0x61] padding_off = Return (str "TWE").
Proof. repeat apply conj; vm_compute; reflexivity. Qed.

(** * Further properties *)

(** ** The decoders of bytes are the decoders of strings *)

Lemma MapGet_index_lookup (lookup : gmap (option Z) Z) (source : list Z)
    (position : nat) :
  (position < length source)%nat ->
  MapGet_index lookup (source !! position)
  = lookup !! StringCharCodeAt source position.
Proof.
  intros Hlt. unfold StringCharCodeAt.
  destruct (lookup_lt_is_Some_2 source position Hlt) as [c ->]. reflexivity.
Qed.

Lemma DecodeBytes_group_DecodeToBytes_group lookup source pc ip :
  forall n j carry position index result,
  (n = 0%nat \/ position + n <= length source)%nat ->
  DecodeBytes_group lookup source pc ip n j carry position index result
  = DecodeToBytes_group lookup source pc ip n j carry position index result.
Proof.
  induction n as [| n IH]; intros j carry position index result Hn; [reflexivity |].
  destruct Hn as [Hn | Hn]; [discriminate |].
  cbn [DecodeBytes_group DecodeToBytes_group].
  rewrite MapGet_index_lookup by lia. unfold StringCharCodeAt.
  destruct (lookup !! (source !! position)) as [charIndex |]; [| reflexivity].
  destruct (negb (DECODING_MASKS j =? 0)); apply IH; lia.
Qed.

Lemma DecodeBytesToString_group_Decode_group lookup source pc ip :
  forall n j carry position result,
  (n = 0%nat \/ position + n <= length source)%nat ->
  DecodeBytesToString_group lookup source pc ip n j carry position result
  = Decode_group lookup source pc ip n j carry position result.
Proof.
  induction n as [| n IH]; intros j carry position result Hn; [reflexivity |].
  destruct Hn as [Hn | Hn]; [discriminate |].
  cbn [DecodeBytesToString_group Decode_group].
  rewrite MapGet_index_lookup by lia. unfold StringCharCodeAt.
  destruct (lookup !! (source !! position)) as [charIndex |]; [| reflexivity].
  destruct (negb (DECODING_MASKS j =? 0)); apply IH; lia.
Qed.

Lemma GetDecodingBytes_in_range (length position : nat) :
  (GetDecodingBytes length position = 0
   \/ position + GetDecodingBytes length position <= length)%nat.
Proof.
  unfold GetDecodingBytes. destruct (length - position <? 4)%nat eqn:E.
  - apply Nat.ltb_lt in E. lia.
  - apply Nat.ltb_ge in E. lia.
Qed.

Lemma code_is_char_at (s : jsstring) (position : nat) (pc : Z) :
  code_is (s !! position) pc = bool_decide (char_at s position = Some [pc]).
Proof.
  unfold code_is, char_at. destruct (s !! position) as [c |].
  - destruct (c =? pc) eqn:E.
    + apply Z.eqb_eq in E. subst c. rewrite bool_decide_eq_true_2; reflexivity.
    + apply Z.eqb_neq in E. rewrite bool_decide_eq_false_2; [reflexivity |].
      intros [= ->]. contradiction.
  - rewrite bool_decide_eq_false_2; [reflexivity | discriminate].
Qed.

Lemma skip_padding_bytes_skip_padding (s : jsstring) (pc : Z) :
  forall fuel position,
  skip_padding_bytes s pc fuel position = skip_padding s [pc] fuel position.
Proof.
  induction fuel as [| fuel IH]; intros position; simpl;
    rewrite code_is_char_at; [reflexivity |].
  destruct (_ && _); [apply IH | reflexivity].
Qed.

Lemma DecodeBytes_for_DecodeToBytes_for lookup source pc ip ac :
  forall fuel i position index result,
  DecodeBytes_for lookup source pc ip ac fuel i position index result
  = DecodeToBytes_for lookup source [pc] pc ip ac fuel i position index result.
Proof.
  induction fuel as [| fuel IH]; intros i position index result; [reflexivity |].
  cbn [DecodeBytes_for DecodeToBytes_for].
  destruct (i <? length source)%nat; [| reflexivity].
  rewrite DecodeBytes_group_DecodeToBytes_group by apply GetDecodingBytes_in_range.
  destruct (DecodeToBytes_group _ _ _ _ _ _ _ _ _ _) as [[[p' idx'] r'] [carry | e]].
  - apply IH.
  - destruct e; try reflexivity.
    destruct ac; [| reflexivity].
    rewrite skip_padding_bytes_skip_padding.
    destruct (skip_padding _ _ _ _); simpl; [apply IH | reflexivity | reflexivity].
Qed.

Lemma DecodeBytesToString_for_Decode_for lookup source pc ip ac :
  forall fuel i position result,
  DecodeBytesToString_for lookup source pc ip ac fuel i position result
  = Decode_for lookup source [pc] pc ip ac fuel i position result.
Proof.
  induction fuel as [| fuel IH]; intros i position result; [reflexivity |].
  cbn [DecodeBytesToString_for Decode_for].
  destruct (i <? length source)%nat; [| reflexivity].
  rewrite DecodeBytesToString_group_Decode_group by apply GetDecodingBytes_in_range.
  destruct (Decode_group _ _ _ _ _ _ _ _ _) as [[p' r'] [carry | e]].
  - apply IH.
  - destruct e; try reflexivity.
    destruct ac; [| reflexivity].
    rewrite skip_padding_bytes_skip_padding.
    destruct (skip_padding _ _ _ _); simpl; [apply IH | reflexivity | reflexivity].
Qed.

(** The padding string the string decoders skip is the padding code the
    byte decoders skip. *)
Lemma constructed_padding_consistent alphabet options t :
  constructor alphabet options = Return t ->
  padding_or_nul t = [padding_code_or_zero t].
Proof.
  intros Hnew.
  destruct (constructed_padding_symbol _ _ _ Hnew) as (c & -> & -> & _).
  reflexivity.
Qed.

Lemma byte_decoders_agree_with_string_decoders_aux alphabet options t
    (source : list Z) (ip ac : bool) :
  constructor alphabet options = Return t ->
  DecodeBytes t source ip ac = DecodeToBytes t source ip ac
  /\ DecodeBytesToString t source ip ac = Decode t source ip ac.
Proof.
  intros Hnew. pose proof (constructed_padding_consistent _ _ _ Hnew) as Hpad.
  unfold DecodeBytes, DecodeToBytes, DecodeBytesToString, Decode.
  rewrite Hpad, DecodeBytes_for_DecodeToBytes_for, DecodeBytesToString_for_Decode_for.
  split; reflexivity.
Qed.

(** For an instance the constructor has returned, decoding a byte array
    is decoding the string of the same code units: [DecodeBytes] agrees
    with [DecodeToBytes] and [DecodeBytesToString] with [Decode], on every
    input and for all flags, results and errors alike. *)
Theorem byte_decoders_agree_with_string_decoders
    (alphabet : jsstring) (options : jsoptions padding_option)
    (t : Base64Encoding) (source : list Z) (ip ac : bool) :
  constructor alphabet options = Return t ->
  DecodeBytes t source ip ac = DecodeToBytes t source ip ac
  /\ DecodeBytesToString t source ip ac = Decode t source ip ac.
Proof.
  intros Hnew.
  destruct (constructed_padding_symbol _ _ _ Hnew) as (c & Hpad & Hcode & _).
  unfold DecodeBytes, DecodeBytesToString.
  rewrite DecodeBytes_for_DecodeToBytes_for, DecodeBytesToString_for_Decode_for.
  unfold DecodeToBytes, Decode. rewrite Hpad, Hcode. split; reflexivity.
Qed.

Lemma byte_decoders_agree_with_string_decoders_witness :
  DecodeBytes BASIC (str "TWE=") false false
  = DecodeToBytes BASIC (str "TWE=") false false
  /\ DecodeBytesToString BASIC (str "TWE=") false false
     = Decode BASIC (str "TWE=") false false.
Proof.
  apply (byte_decoders_agree_with_string_decoders basic_alphabet Undefined).
  exact BASIC_constructed.
Defined.

(** ** Every decoding ends, with a result or the RangeError *)

Lemma DecodeToBytes_group_progress lookup s pc ip :
  forall n j carry position index result p' idx' r' e,
  DecodeToBytes_group lookup s pc ip n j carry position index result
  = (p', idx', r', e) ->
  (position <= p' <= position + n)%nat
  /\ ((0 < n)%nat -> (position < p')%nat)
  /\ length r' = length result
  /\ match e with
     | GroupDone _ => True
     | GroupThrow PADDING => ip = false
     | GroupThrow (RangeError msg) => msg = "Invalid Base64 encoding"%string
     | GroupThrow (TypeError _) => False
     end.
Proof.
  induction n as [| n IH]; intros j carry position index result p' idx' r' e Hrun.
  - injection Hrun as <- <- <- <-. repeat split; lia.
  - cbn [DecodeToBytes_group] in Hrun.
    destruct (lookup !! StringCharCodeAt s position) as [charIndex |].
    + destruct (negb (DECODING_MASKS j =? 0)); apply IH in Hrun as (Hp & _ & Hlen & He);
        try rewrite length_insert in Hlen; repeat split; try lia; exact He.
    + destruct (code_is _ _ && negb ip) eqn:Hpad; injection Hrun as <- <- <- <-;
        repeat split; try lia.
      apply andb_true_iff in Hpad as [_ Hip]. destruct ip; [discriminate | reflexivity].
Qed.

Lemma skip_padding_Return (s padding : jsstring) :
  forall fuel position,
  (length s - position <= fuel)%nat ->
  exists p', skip_padding s padding fuel position = Return p'
    /\ (position <= p')%nat
    /\ (forall q, (position <= q < p')%nat ->
          (q < length s)%nat /\ char_at s q = Some padding)
    /\ ((p' < length s)%nat -> char_at s p' <> Some padding).
Proof.
  induction fuel as [| fuel IH]; intros position Hfuel.
  - exists position. simpl.
    rewrite (proj2 (Nat.ltb_ge _ _)) by lia. simpl.
    split; [reflexivity |]. split; [lia |]. split; intros; lia.
  - simpl. destruct ((position <? length s)%nat && _) eqn:Hcond.
    + apply andb_true_iff in Hcond as [Hlt Hz].
      apply Nat.ltb_lt in Hlt. apply bool_decide_eq_true in Hz.
      destruct (IH (S position)) as (p' & Hrun & Hle & Hpads & Hstop); [lia |].
      exists p'. split; [exact Hrun |]. split; [lia |]. split; [| exact Hstop].
      intros q Hq. destruct (decide (q = position)) as [-> | Hne]; [auto |].
      apply Hpads. lia.
    + exists position. split; [reflexivity |]. split; [lia |]. split; [intros; lia |].
      intros Hlt Hz. apply andb_false_iff in Hcond as [Hc | Hc].
      * apply Nat.ltb_ge in Hc. lia.
      * apply bool_decide_eq_false in Hc. contradiction.
Qed.

Lemma DecodeToBytes_for_ends lookup s padding pc ip ac :
  forall fuel i position index result,
  (position <= i)%nat -> (length s - position <= fuel)%nat ->
  match DecodeToBytes_for lookup s padding pc ip ac fuel i position index result with
  | Return (_, r) => length r = length result
  | Throw (RangeError msg) => msg = "Invalid Base64 encoding"%string
  | _ => False
  end.
Proof.
  induction fuel as [| fuel IH]; intros i position index result Hpi Hfuel.
  - simpl. rewrite (proj2 (Nat.ltb_ge _ _)) by lia. reflexivity.
  - cbn [DecodeToBytes_for]. destruct (i <? length s)%nat eqn:Hi; [| reflexivity].
    apply Nat.ltb_lt in Hi.
    assert (Hbytes : (0 < GetDecodingBytes (length s) position <= 4)%nat).
    { unfold GetDecodingBytes. destruct (length s - position <? 4)%nat eqn:E;
        [apply Nat.ltb_lt in E |]; lia. }
    destruct (DecodeToBytes_group _ _ _ _ _ _ _ _ _ _) as [[[p' idx'] r'] e] eqn:Hgroup.
    apply DecodeToBytes_group_progress in Hgroup as (Hp & Hlt & Hlen & He).
    specialize (Hlt ltac:(lia)).
    destruct e as [carry | [| msg | msg]].
    + specialize (IH (i + 4)%nat p' (S idx') (<[idx' := ToUint8 (Some carry)]> r')).
      rewrite length_insert, Hlen in IH. apply IH; lia.
    + destruct ac; [| exact Hlen].
      destruct (skip_padding_Return s padding (length s) p') as (p'' & -> & Hle & _);
        [lia |].
      simpl. specialize (IH (p'' + 4)%nat p'' idx' r').
      rewrite Hlen in IH. apply IH; lia.
    + exact He.
    + contradiction.
Qed.

Lemma Decode_group_progress lookup s pc ip :
  forall n j carry position result p' r' e,
  Decode_group lookup s pc ip n j carry position result = (p', r', e) ->
  (position <= p' <= position + n)%nat
  /\ ((0 < n)%nat -> (position < p')%nat)
  /\ match e with
     | GroupDone _ => True
     | GroupThrow PADDING => ip = false
     | GroupThrow (RangeError msg) => msg = "Invalid Base64 encoding"%string
     | GroupThrow (TypeError _) => False
     end.
Proof.
  induction n as [| n IH]; intros j carry position result p' r' e Hrun.
  - injection Hrun as <- <- <-. repeat split; lia.
  - cbn [Decode_group] in Hrun.
    destruct (lookup !! StringCharCodeAt s position) as [charIndex |].
    + destruct (negb (DECODING_MASKS j =? 0)); apply IH in Hrun as (Hp & _ & He);
        repeat split; try lia; exact He.
    + destruct (code_is _ _ && negb ip) eqn:Hpad; injection Hrun as <- <- <-;
        repeat split; try lia.
      apply andb_true_iff in Hpad as [_ Hip]. destruct ip; [discriminate | reflexivity].
Qed.

Lemma Decode_for_ends lookup s padding pc ip ac :
  forall fuel i position result,
  (position <= i)%nat -> (length s - position <= fuel)%nat ->
  returns_or_rejects (Decode_for lookup s padding pc ip ac fuel i position result).
Proof.
  induction fuel as [| fuel IH]; intros i position result Hpi Hfuel.
  - simpl. rewrite (proj2 (Nat.ltb_ge _ _)) by lia. exact I.
  - cbn [Decode_for]. destruct (i <? length s)%nat eqn:Hi; [| exact I].
    apply Nat.ltb_lt in Hi.
    assert (Hbytes : (0 < GetDecodingBytes (length s) position <= 4)%nat).
    { unfold GetDecodingBytes. destruct (length s - position <? 4)%nat eqn:E;
        [apply Nat.ltb_lt in E |]; lia. }
    destruct (Decode_group _ _ _ _ _ _ _ _ _) as [[p' r'] e] eqn:Hgroup.
    apply Decode_group_progress in Hgroup as (Hp & Hlt & He).
    specialize (Hlt ltac:(lia)).
    destruct e as [carry | [| msg | msg]].
    + apply IH; lia.
    + destruct ac; [| exact I].
      destruct (skip_padding_Return s padding (length s) p') as (p'' & -> & Hle & _);
        [lia |].
      simpl. apply IH; lia.
    + exact He.
    + contradiction.
Qed.

(** Every decoding ends.  For every instance, every input and all flags,
    also with concatenation, where the loop counter is reassigned, the
    four decoders return a result or throw the RangeError
    'Invalid Base64 encoding'; the [PADDING] signal never leaves them.  A
    result of [DecodeToBytes] is never longer than the capacity computed
    from the input length. *)
Theorem decoding_returns_or_rejects
    (t : Base64Encoding) (s : jsstring) (ip ac : bool) :
  returns_or_rejects (DecodeToBytes t s ip ac)
  /\ returns_or_rejects (Decode t s ip ac)
  /\ returns_or_rejects (DecodeBytes t s ip ac)
  /\ returns_or_rejects (DecodeBytesToString t s ip ac)
  /\ (forall out, DecodeToBytes t s ip ac = Return out ->
        (length out <= GetInverseCapacity (length s))%nat).
Proof.
  assert (Hbytes : forall padding,
            match DecodeToBytes_for (BaseMapLookup t) s padding
                    (padding_code_or_zero t) ip ac (length s) 0 0 0
                    (replicate (GetInverseCapacity (length s)) 0) with
            | Return (_, r) => length r = GetInverseCapacity (length s)
            | Throw (RangeError msg) => msg = "Invalid Base64 encoding"%string
            | _ => False
            end).
  { intros padding.
    pose proof (DecodeToBytes_for_ends (BaseMapLookup t) s padding
                  (padding_code_or_zero t) ip ac (length s) 0 0 0
                  (replicate (GetInverseCapacity (length s)) 0)) as H.
    rewrite length_replicate in H. apply H; lia. }
  assert (Hlen : forall (capacity index : nat) (r : list Z),
            (length (if bool_decide (capacity <> index)
                     then take index r else r) <= length r)%nat).
  { intros capacity index r. destruct (bool_decide _); [rewrite length_take |]; lia. }
  unfold DecodeToBytes, Decode, DecodeBytes, DecodeBytesToString.
  rewrite DecodeBytes_for_DecodeToBytes_for, DecodeBytesToString_for_Decode_for.
  destruct (length s =? 0)%nat eqn:Hz.
  { repeat split. intros out [= <-]. simpl. lia. }
  pose proof (Hbytes (padding_or_nul t)) as H1.
  pose proof (Hbytes [padding_code_or_zero t]) as H2.
  destruct (DecodeToBytes_for _ _ (padding_or_nul t) _ _ _ _ _ _ _ _)
    as [[idx1 r1] | [| msg1 | msg1] |]; try contradiction;
  destruct (DecodeToBytes_for _ _ [padding_code_or_zero t] _ _ _ _ _ _ _ _)
    as [[idx2 r2] | [| msg2 | msg2] |]; try contradiction; simpl;
  (split; [assumption || exact I |]);
  (split; [apply Decode_for_ends; lia |]);
  (split; [assumption || exact I |]);
  (split; [apply Decode_for_ends; lia |]);
  intros out Hout; try discriminate.
  all: injection Hout as <-; rewrite <- H1; apply Hlen.
Qed.

(** ** With [ignorePadding] every foreign symbol is rejected *)

Lemma DecodeToBytes_group_all_read lookup s pc :
  forall n j carry position index result p' idx' r' e,
  DecodeToBytes_group lookup s pc true n j carry position index result
  = (p', idx', r', e) ->
  e = GroupThrow (RangeError "Invalid Base64 encoding")
  \/ (exists carry', e = GroupDone carry') /\ p' = (position + n)%nat
     /\ forall q, (position <= q < position + n)%nat -> is_Some (lookup !! (s !! q)).
Proof.
  induction n as [| n IH]; intros j carry position index result p' idx' r' e Hrun.
  - injection Hrun as <- <- <- <-. right. split; [eauto |]. split; [lia |].
    intros q Hq. lia.
  - cbn [DecodeToBytes_group] in Hrun. unfold StringCharCodeAt in Hrun.
    destruct (lookup !! (s !! position)) as [charIndex |] eqn:Hlook.
    + assert (Hstep : forall q, (position <= q < position + S n)%nat ->
                (forall q', (S position <= q' < S position + n)%nat ->
                   is_Some (lookup !! (s !! q'))) ->
                is_Some (lookup !! (s !! q))).
      { intros q Hq Hrest. destruct (decide (q = position)) as [-> | Hne];
          [rewrite Hlook; eauto | apply Hrest; lia]. }
      destruct (negb (DECODING_MASKS j =? 0));
        apply IH in Hrun as [Hthrow | (Hdone & Hp & Hall)]; auto;
        right; (split; [exact Hdone |]); (split; [lia |]); intros q Hq; auto.
    + rewrite andb_false_r in Hrun. injection Hrun as <- <- <- <-. left. reflexivity.
Qed.

Lemma DecodeToBytes_for_all_read lookup s padding pc ac :
  forall fuel i index result,
  (length s - i <= fuel)%nat ->
  DecodeToBytes_for lookup s padding pc true ac fuel i i index result
  = Throw (RangeError "Invalid Base64 encoding")
  \/ (exists r, DecodeToBytes_for lookup s padding pc true ac fuel i i index result
                = Return r)
     /\ forall q, (i <= q < length s)%nat -> is_Some (lookup !! (s !! q)).
Proof.
  induction fuel as [| fuel IH]; intros i index result Hfuel.
  - right. rewrite DecodeToBytes_for_exit by lia. split; [eauto | intros; lia].
  - destruct (le_lt_dec (length s) i) as [Hout | Hin].
    { right. rewrite DecodeToBytes_for_exit by lia. split; [eauto | intros; lia]. }
    cbn [DecodeToBytes_for]. rewrite (proj2 (Nat.ltb_lt _ _) Hin).
    destruct (DecodeToBytes_group _ _ _ _ _ _ _ _ _ _) as [[[p' idx'] r'] e] eqn:Hgroup.
    apply DecodeToBytes_group_all_read in Hgroup as [-> | ((carry & ->) & -> & Hall)];
      [left; reflexivity |].
    unfold GetDecodingBytes in *.
    destruct (length s - i <? 4)%nat eqn:Hshort.
    + apply Nat.ltb_lt in Hshort. right.
      rewrite DecodeToBytes_for_exit by lia. split; [eauto |].
      intros q Hq. apply Hall. lia.
    + apply Nat.ltb_ge in Hshort.
      destruct (IH (i + 4)%nat (S idx') (<[idx' := ToUint8 (Some carry)]> r'))
        as [Hthrow | (Hret & Hrest)]; [lia | left; exact Hthrow | right].
      split; [exact Hret |]. intros q Hq.
      destruct (le_lt_dec (i + 4) q); [apply Hrest | apply Hall]; lia.
Qed.

Lemma Decode_group_all_read lookup s pc :
  forall n j carry position result p' r' e,
  Decode_group lookup s pc true n j carry position result = (p', r', e) ->
  e = GroupThrow (RangeError "Invalid Base64 encoding")
  \/ (exists carry', e = GroupDone carry') /\ p' = (position + n)%nat
     /\ forall q, (position <= q < position + n)%nat -> is_Some (lookup !! (s !! q)).
Proof.
  induction n as [| n IH]; intros j carry position result p' r' e Hrun.
  - injection Hrun as <- <- <-. right. split; [eauto |]. split; [lia |].
    intros q Hq. lia.
  - cbn [Decode_group] in Hrun. unfold StringCharCodeAt in Hrun.
    destruct (lookup !! (s !! position)) as [charIndex |] eqn:Hlook.
    + assert (Hstep : forall q, (position <= q < position + S n)%nat ->
                (forall q', (S position <= q' < S position + n)%nat ->
                   is_Some (lookup !! (s !! q'))) ->
                is_Some (lookup !! (s !! q))).
      { intros q Hq Hrest. destruct (decide (q = position)) as [-> | Hne];
          [rewrite Hlook; eauto | apply Hrest; lia]. }
      destruct (negb (DECODING_MASKS j =? 0));
        apply IH in Hrun as [Hthrow | (Hdone & Hp & Hall)]; auto;
        right; (split; [exact Hdone |]); (split; [lia |]); intros q Hq; auto.
    + rewrite andb_false_r in Hrun. injection Hrun as <- <- <-. left. reflexivity.
Qed.

Lemma Decode_for_all_read lookup s padding pc ac :
  forall fuel i result,
  (length s - i <= fuel)%nat ->
  Decode_for lookup s padding pc true ac fuel i i result
  = Throw (RangeError "Invalid Base64 encoding")
  \/ (exists r, Decode_for lookup s padding pc true ac fuel i i result = Return r)
     /\ forall q, (i <= q < length s)%nat -> is_Some (lookup !! (s !! q)).
Proof.
  induction fuel as [| fuel IH]; intros i result Hfuel.
  - right. rewrite Decode_for_exit by lia. split; [eauto | intros; lia].
  - destruct (le_lt_dec (length s) i) as [Hout | Hin].
    { right. rewrite Decode_for_exit by lia. split; [eauto | intros; lia]. }
    cbn [Decode_for]. rewrite (proj2 (Nat.ltb_lt _ _) Hin).
    destruct (Decode_group _ _ _ _ _ _ _ _ _) as [[p' r'] e] eqn:Hgroup.
    apply Decode_group_all_read in Hgroup as [-> | ((carry & ->) & -> & Hall)];
      [left; reflexivity |].
    unfold GetDecodingBytes in *.
    destruct (length s - i <? 4)%nat eqn:Hshort.
    + apply Nat.ltb_lt in Hshort. right.
      rewrite Decode_for_exit by lia. split; [eauto |].
      intros q Hq. apply Hall. lia.
    + apply Nat.ltb_ge in Hshort.
      destruct (IH (i + 4)%nat (r' ++ StringFromCharCode carry))
        as [Hthrow | (Hret & Hrest)]; [lia | left; exact Hthrow | right].
      split; [exact Hret |]. intros q Hq.
      destruct (le_lt_dec (i + 4) q); [apply Hrest | apply Hall]; lia.
Qed.

(** With [ignorePadding = true] the decoders of an instance the
    constructor has returned reject every input that contains a symbol
    outside the alphabet, wherever it stands, with the RangeError
    'Invalid Base64 encoding'.  The padding symbol is such a symbol: it is
    not skipped but rejected. *)
Theorem ignorePadding_rejects_foreign_symbols
    (alphabet : jsstring) (options : jsoptions padding_option)
    (t : Base64Encoding) (s : jsstring) (c : Z) (ac : bool) :
  constructor alphabet options = Return t ->
  c ∈ s -> c ∉ alphabet ->
  DecodeToBytes t s true ac = Throw (RangeError "Invalid Base64 encoding")
  /\ Decode t s true ac = Throw (RangeError "Invalid Base64 encoding")
  /\ DecodeBytes t s true ac = Throw (RangeError "Invalid Base64 encoding")
  /\ DecodeBytesToString t s true ac = Throw (RangeError "Invalid Base64 encoding").
Proof.
  intros Hnew Hin Hout.
  apply list_elem_of_lookup in Hin as [p Hp].
  pose proof (lookup_lt_Some _ _ _ Hp) as Hlen.
  assert (Hbad : ~ is_Some (BaseMapLookup t !! (s !! p))).
  { rewrite Hp, (constructed_BaseMapLookup_None _ _ _ Hnew _ Hout).
    intros [v Hv]. discriminate. }
  destruct (byte_decoders_agree_with_string_decoders_aux _ _ _ s true ac Hnew)
    as [-> ->].
  assert (Hz : (length s =? 0)%nat = false) by (apply Nat.eqb_neq; lia).
  unfold DecodeToBytes, Decode. rewrite Hz.
  destruct (DecodeToBytes_for_all_read (BaseMapLookup t) s (padding_or_nul t)
              (padding_code_or_zero t) ac (length s) 0 0
              (replicate (GetInverseCapacity (length s)) 0))
    as [-> | [_ Hall]]; [lia | | exfalso; apply Hbad, Hall; lia].
  destruct (Decode_for_all_read (BaseMapLookup t) s (padding_or_nul t)
              (padding_code_or_zero t) ac (length s) 0 [])
    as [-> | [_ Hall]]; [lia | | exfalso; apply Hbad, Hall; lia].
  repeat split.
Qed.

Lemma ignorePadding_rejects_foreign_symbols_witness :
  DecodeToBytes BASIC (str "TQ==") true false
  = Throw (RangeError "Invalid Base64 encoding")
  /\ Decode BASIC (str "TQ==") true false
     = Throw (RangeError "Invalid Base64 encoding")
  /\ DecodeBytes BASIC (str "TQ==") true false
     = Throw (RangeError "Invalid Base64 encoding")
  /\ DecodeBytesToString BASIC (str "TQ==") true false
     = Throw (RangeError "Invalid Base64 encoding").
Proof.
  apply (ignorePadding_rejects_foreign_symbols basic_alphabet Undefined BASIC
           (str "TQ==") 61 false).
  - exact BASIC_constructed.
  - vm_compute. do 2 apply list_elem_of_further. apply list_elem_of_here.
  - intros H. apply list_elem_of_In in H. vm_compute in H.
    repeat (destruct H as [H | H]; [discriminate H |]). exact H.
Defined.

(** ** The string encoders reject code units above 0xFF *)

Lemma Encode_group_all_read alphabet string :
  forall n j position carry result,
  Encode_group alphabet string n j position carry result
  = Throw (RangeError "Invalid ASCII encoding")
  \/ (exists carry' result',
        Encode_group alphabet string n j position carry result
        = Return ((position + n)%nat, carry', result'))
     /\ forall q, (position <= q < position + n)%nat ->
          num_gt (string !! q) 0xff = false.
Proof.
  induction n as [| n IH]; intros j position carry result.
  - right. simpl. rewrite Nat.add_0_r. split; [eauto | intros; lia].
  - cbn [Encode_group]. unfold StringCharCodeAt.
    destruct (num_gt (string !! position) 255) eqn:Hbad; [left; reflexivity |].
    match goal with |- context [Encode_group _ _ n ?j' ?p' ?c' ?r'] =>
      destruct (IH j' p' c' r') as [-> | ((c2 & r2 & ->) & Hall)] end;
      [left; reflexivity | right].
    split; [exists c2, r2; f_equal; f_equal; f_equal; lia |].
    intros q Hq. destruct (decide (q = position)) as [-> | Hne];
      [exact Hbad | apply Hall; lia].
Qed.

Lemma Encode_for_all_read alphabet string :
  forall fuel i result,
  (length string - i <= fuel)%nat ->
  Encode_for alphabet string fuel i i result
  = Throw (RangeError "Invalid ASCII encoding")
  \/ (exists r, Encode_for alphabet string fuel i i result = Return r)
     /\ forall q, (i <= q < length string)%nat -> num_gt (string !! q) 0xff = false.
Proof.
  induction fuel as [| fuel IH]; intros i result Hfuel.
  - right. rewrite Encode_for_exit by lia. split; [eauto | intros; lia].
  - destruct (le_lt_dec (length string) i) as [Hout | Hin].
    { right. rewrite Encode_for_exit by lia. split; [eauto | intros; lia]. }
    cbn [Encode_for]. rewrite (proj2 (Nat.ltb_lt _ _) Hin).
    destruct (Encode_group_all_read alphabet string
                (GetEncodingBytes (length string) i) 0 i 0 result)
      as [-> | ((c2 & r2 & ->) & Hall)]; [left; reflexivity |].
    simpl. unfold GetEncodingBytes in *.
    destruct (length string - i <? 3)%nat eqn:Hshort.
    + apply Nat.ltb_lt in Hshort. right.
      rewrite Encode_for_exit by lia. split; [eauto |].
      intros q Hq. apply Hall. lia.
    + apply Nat.ltb_ge in Hshort.
      destruct (IH (i + 3)%nat (r2 ++ ToString (string_index alphabet c2)))
        as [-> | (Hret & Hrest)]; [lia | left; reflexivity | right].
      split; [exact Hret |]. intros q Hq.
      destruct (le_lt_dec (i + 3) q); [apply Hrest | apply Hall]; lia.
Qed.

Lemma EncodeToBytes_group_all_read baseMap string :
  forall n j position carry index result,
  EncodeToBytes_group baseMap string n j position carry index result
  = Throw (RangeError "Invalid ASCII encoding")
  \/ (exists carry' index' result',
        EncodeToBytes_group baseMap string n j position carry index result
        = Return ((position + n)%nat, carry', index', result'))
     /\ forall q, (position <= q < position + n)%nat ->
          num_gt (string !! q) 0xff = false.
Proof.
  induction n as [| n IH]; intros j position carry index result.
  - right. simpl. rewrite Nat.add_0_r. split; [eauto | intros; lia].
  - cbn [EncodeToBytes_group]. unfold StringCharCodeAt.
    destruct (num_gt (string !! position) 255) eqn:Hbad; [left; reflexivity |].
    match goal with |- context [EncodeToBytes_group _ _ n ?j' ?p' ?c' ?i' ?r'] =>
      destruct (IH j' p' c' i' r') as [-> | ((c2 & i2 & r2 & ->) & Hall)] end;
      [left; reflexivity | right].
    split; [exists c2, i2, r2; do 4 f_equal; lia |].
    intros q Hq. destruct (decide (q = position)) as [-> | Hne];
      [exact Hbad | apply Hall; lia].
Qed.

Lemma EncodeToBytes_for_all_read baseMap string :
  forall fuel i index result,
  (length string - i <= fuel)%nat ->
  EncodeToBytes_for baseMap string fuel i i index result
  = Throw (RangeError "Invalid ASCII encoding")
  \/ (exists r, EncodeToBytes_for baseMap string fuel i i index result = Return r)
     /\ forall q, (i <= q < length string)%nat -> num_gt (string !! q) 0xff = false.
Proof.
  induction fuel as [| fuel IH]; intros i index result Hfuel.
  - right. rewrite EncodeToBytes_for_exit by lia. split; [eauto | intros; lia].
  - destruct (le_lt_dec (length string) i) as [Hout | Hin].
    { right. rewrite EncodeToBytes_for_exit by lia. split; [eauto | intros; lia]. }
    cbn [EncodeToBytes_for]. rewrite (proj2 (Nat.ltb_lt _ _) Hin).
    destruct (EncodeToBytes_group_all_read baseMap string
                (GetEncodingBytes (length string) i) 0 i 0 index result)
      as [-> | ((c2 & i2 & r2 & ->) & Hall)]; [left; reflexivity |].
    simpl. unfold GetEncodingBytes in *.
    destruct (length string - i <? 3)%nat eqn:Hshort.
    + apply Nat.ltb_lt in Hshort. right.
      rewrite EncodeToBytes_for_exit by lia. split; [eauto |].
      intros q Hq. apply Hall. lia.
    + apply Nat.ltb_ge in Hshort.
      destruct (IH (i + 3)%nat (S i2) (<[i2 := MapGet_code baseMap c2]> r2))
        as [-> | (Hret & Hrest)]; [lia | left; reflexivity | right].
      split; [exact Hret |]. intros q Hq.
      destruct (le_lt_dec (i + 3) q); [apply Hrest | apply Hall]; lia.
Qed.

(** [Encode] and [EncodeToBytes] encode strings of single bytes only: for
    every instance and both values of [withPadding], a string that
    contains a code unit above 0xFF, wherever it stands, is rejected with
    the RangeError 'Invalid ASCII encoding' and nothing is returned. *)
Theorem string_encoders_reject_wide_characters
    (t : Base64Encoding) (string : jsstring) (c : Z) (withPadding : bool) :
  c ∈ string -> 0xff < c ->
  Encode t string withPadding = Throw (RangeError "Invalid ASCII encoding")
  /\ EncodeToBytes t string withPadding
     = Throw (RangeError "Invalid ASCII encoding").
Proof.
  intros Hin Hwide.
  apply list_elem_of_lookup in Hin as [p Hp].
  pose proof (lookup_lt_Some _ _ _ Hp) as Hlen.
  assert (Hbad : num_gt (string !! p) 0xff = true)
    by (rewrite Hp; simpl; lia).
  assert (Hz : (length string =? 0)%nat = false) by (apply Nat.eqb_neq; lia).
  unfold Encode, EncodeToBytes. rewrite Hz.
  destruct (Encode_for_all_read (Alphabet t) string (length string) 0 [])
    as [-> | [_ Hall]]; [lia | | rewrite Hall in Hbad by lia; discriminate].
  destruct (EncodeToBytes_for_all_read (BaseMap t) string (length string) 0 0
              (replicate (GetCapacity (length string) withPadding) 0))
    as [-> | [_ Hall]]; [lia | | rewrite Hall in Hbad by lia; discriminate].
  split; reflexivity.
Qed.

Lemma string_encoders_reject_wide_characters_witness :
  Encode BASIC [0x4D; 0x100] true = Throw (RangeError "Invalid ASCII encoding")
  /\ EncodeToBytes BASIC [0x4D; 0x100] true
     = Throw (RangeError "Invalid ASCII encoding").
Proof.
  apply (string_encoders_reject_wide_characters BASIC [0x4D; 0x100] 0x100 true).
  - apply list_elem_of_further, list_elem_of_here.
  - lia.
Defined.

(** ** What the constructor accepts and what it builds *)

Lemma constructor_padding_accepted alphabet options padding code :
  constructor_padding options = Return (padding, code) ->
  (forall c, padding = [c] -> c ∉ alphabet) ->
  padding_accepted alphabet options.
Proof.
  intros Hpad Hfresh.
  destruct options as [| | [| | [| c [| c' s]]]]; simpl in *; try discriminate.
  - injection Hpad as <- <-. apply Hfresh. reflexivity.
  - injection Hpad as <- <-. apply Hfresh. reflexivity.
  - exact I.
  - destruct (c <? 33) eqn:Hlo; [discriminate |].
    destruct (126 <? c) eqn:Hhi; [discriminate |]. simpl in Hpad.
    injection Hpad as <- <-. split; [lia | apply Hfresh; reflexivity].
Qed.

(** The constructor returns only for validated arguments: an alphabet of
    63 or 64 characters, all different, with codes in [0x21, 0x7E], and a
    padding that is absent (then [=], which must not be in the alphabet),
    empty, or one character with a code in [0x21, 0x7E] that is not in
    the alphabet.  The instance holds the alphabet as it was given. *)
Theorem constructor_returns_only_for_validated_arguments
    (alphabet : jsstring) (options : jsoptions padding_option)
    (t : Base64Encoding) :
  constructor alphabet options = Return t ->
  Alphabet t = alphabet
  /\ (63 <= length alphabet <= 64)%nat
  /\ NoDup alphabet
  /\ Forall (fun c => 0x21 <= c <= 0x7e) alphabet
  /\ padding_accepted alphabet options
  /\ constructor_padding options = Return (Padding t, PaddingCharCode t).
Proof.
  intros Hnew.
  destruct (constructor_Return _ _ _ Hnew) as (Halpha & _ & _ & Hpad & Hfresh).
  split; [exact Halpha |].
  split; [exact (constructed_length _ _ _ Hnew) |].
  split; [exact (constructed_NoDup _ _ _ Hnew) |].
  split.
  { apply Forall_lookup. intros m c Hm.
    exact (constructed_code_range _ _ _ Hnew _ _ Hm). }
  split; [| exact Hpad].
  apply (constructor_padding_accepted _ _ _ _ Hpad).
  intros c Hc Hin. apply list_elem_of_lookup in Hin as [m Hm].
  apply (constructed_AlphabetLookup _ _ _ Hnew) in Hm.
  rewrite Hc in Hfresh. congruence.
Qed.

Lemma constructor_returns_only_for_validated_arguments_witness :
  Alphabet URL = url_alphabet
  /\ (63 <= length url_alphabet <= 64)%nat
  /\ NoDup url_alphabet
  /\ Forall (fun c => 0x21 <= c <= 0x7e) url_alphabet
  /\ padding_accepted url_alphabet (Object (PaddingString []))
  /\ constructor_padding (Object (PaddingString []))
     = Return (Padding URL, PaddingCharCode URL).
Proof.
  apply (constructor_returns_only_for_validated_arguments url_alphabet
           (Object (PaddingString [])) URL).
  exact URL_constructed.
Defined.

Lemma constructor_loop_Return (alphabet : jsstring) :
  NoDup alphabet ->
  Forall (fun c => 0x21 <= c <= 0x7e) alphabet ->
  forall n i tb,
  tables_upto alphabet i tb ->
  (i + n <= length alphabet)%nat ->
  exists tb', constructor_loop alphabet n i tb = Return tb'.
Proof.
  intros Hnodup Hrange.
  induction n as [| n IH]; intros i tb Hinv Hlen; [simpl; eauto |].
  destruct (lookup_lt_is_Some_2 alphabet i) as [c Hc]; [lia |].
  assert (Hchar : char_at alphabet i = Some [c]) by (apply char_at_Some; exact Hc).
  assert (Hfresh : alphabetLookup tb !! char_at alphabet i = None).
  { destruct (alphabetLookup tb !! char_at alphabet i) as [v |] eqn:E; [| reflexivity].
    destruct Hinv as (HA & _). apply HA in E as (m & Hm & Heq & _).
    rewrite Hchar in Heq. apply char_at_Some in Heq.
    pose proof (NoDup_lookup _ _ _ _ Hnodup Heq Hc). lia. }
  assert (Hcode : 0x21 <= c <= 0x7e).
  { rewrite Forall_lookup in Hrange. exact (Hrange _ _ Hc). }
  assert (Hlo : num_lt (StringCharCodeAt alphabet i) 0x21 = false)
    by (unfold StringCharCodeAt; rewrite Hc; simpl; lia).
  assert (Hhi : num_gt (StringCharCodeAt alphabet i) 0x7e = false)
    by (unfold StringCharCodeAt; rewrite Hc; simpl; lia).
  cbn [constructor_loop]. rewrite Hfresh.
  rewrite bool_decide_eq_false_2 by (intros [v Hv]; discriminate).
  rewrite Hlo, Hhi. simpl. apply IH; [| lia].
  apply tables_upto_step; assumption.
Qed.

(** The constructor returns for every validated pair of arguments: an
    alphabet of 64 different characters with codes in [0x21, 0x7E] and an
    accepted padding.  The instance holds the alphabet, and the padding
    the options give. *)
Theorem constructor_returns_for_valid_arguments
    (alphabet : jsstring) (options : jsoptions padding_option) :
  length alphabet = 64%nat ->
  NoDup alphabet ->
  Forall (fun c => 0x21 <= c <= 0x7e) alphabet ->
  padding_accepted alphabet options ->
  exists t, constructor alphabet options = Return t
    /\ Alphabet t = alphabet
    /\ Padding t = match options with
                   | Object (PaddingString s) => s
                   | _ => DEFAULT_PADDING
                   end
    /\ PaddingCharCode t = match options with
                           | Object (PaddingString s) => s !! 0%nat
                           | _ => Some DEFAULT_PADDING_CHAR_CODE
                           end.
Proof.
  intros Hlen Hnodup Hrange Hpad.
  destruct (constructor_loop_Return alphabet Hnodup Hrange 64 0 empty_tables)
    as [tb Hloop]; [apply tables_upto_empty | lia |].
  pose proof (constructor_loop_tables _ _ _ _ _ (tables_upto_empty alphabet) Hloop)
    as (HA & _).
  assert (Hkey : forall c, c ∉ alphabet -> alphabetLookup tb !! Some [c] = None).
  { intros c Hc. destruct (alphabetLookup tb !! Some [c]) as [v |] eqn:E; [| reflexivity].
    apply HA in E as (m & _ & Hm & _). apply char_at_Some in Hm.
    exfalso. apply Hc. apply list_elem_of_lookup. eauto. }
  assert (Hempty : alphabetLookup tb !! Some [] = None).
  { destruct (alphabetLookup tb !! Some []) as [v |] eqn:E; [| reflexivity].
    apply HA in E as (m & _ & Hm & _). unfold char_at in Hm.
    destruct (alphabet !! m); discriminate. }
  set (padding := match options with
                  | Object (PaddingString s) => s
                  | _ => DEFAULT_PADDING
                  end).
  set (code := match options with
               | Object (PaddingString s) => s !! 0%nat
               | _ => Some DEFAULT_PADDING_CHAR_CODE
               end).
  assert (Hoptions : constructor_padding options = Return (padding, code)
                     /\ alphabetLookup tb !! Some padding = None).
  { subst padding code.
    destruct options as [| | [| | [| c [| c' s]]]]; cbn [padding_accepted] in Hpad;
      try contradiction.
    - split; [reflexivity | exact (Hkey _ Hpad)].
    - split; [reflexivity | exact (Hkey _ Hpad)].
    - split; [reflexivity | exact Hempty].
    - destruct Hpad as [Hc Hout]. split; [| exact (Hkey _ Hout)].
      cbn. destruct (c <? 33) eqn:Hlo; [lia |].
      destruct (126 <? c) eqn:Hhi; [lia |]. reflexivity. }
  destruct Hoptions as [Hoptions Hnone].
  exists {| Alphabet := alphabet;
            AlphabetLookup := alphabetLookup tb;
            BaseMap := baseMap tb;
            BaseMapLookup := baseMapLookup tb;
            Padding := padding;
            PaddingCharCode := code |}.
  split; [| auto].
  unfold constructor. cbv zeta. rewrite Hlen.
  change ((64 =? 0)%nat || (64 <? 64)%nat) with false. cbv iota.
  rewrite Hloop. cbn [bind]. rewrite Hoptions. cbn [bind]. rewrite Hnone.
  rewrite bool_decide_eq_false_2 by (intros [v Hv]; discriminate).
  reflexivity.
Qed.

Lemma constructor_returns_for_valid_arguments_witness :
  exists t, constructor url_alphabet (Object (PaddingString [0x2e])) = Return t
    /\ Alphabet t = url_alphabet
    /\ Padding t = [0x2e]
    /\ PaddingCharCode t = Some 0x2e.
Proof.
  apply (constructor_returns_for_valid_arguments url_alphabet
           (Object (PaddingString [0x2e]))).
  - reflexivity.
  - apply (bool_decide_unpack _). vm_compute. exact I.
  - apply (bool_decide_unpack _). vm_compute. exact I.
  - split; [lia |]. apply (bool_decide_unpack _). vm_compute. exact I.
Defined.

(** ** Decoding up to a padding *)

Lemma skip_padding_to_end (s : jsstring) (pc : Z) :
  forall fuel position,
  (length s - position <= fuel)%nat ->
  (position <= length s)%nat ->
  (forall q, (position <= q < length s)%nat -> s !! q = Some pc) ->
  skip_padding s [pc] fuel position = Return (length s).
Proof.
  induction fuel as [| fuel IH]; intros position Hfuel Hle Hall.
  - assert (position = length s) as -> by lia.
    simpl. rewrite Nat.ltb_irrefl. reflexivity.
  - cbn [skip_padding]. destruct (position <? length s)%nat eqn:E.
    + apply Nat.ltb_lt in E.
      rewrite bool_decide_eq_true_2 by (apply char_at_Some; apply Hall; lia).
      simpl. apply IH; try lia. intros q Hq. apply Hall. lia.
    + apply Nat.ltb_ge in E. simpl. f_equal. lia.
Qed.

(** One iteration on a group that meets the padding after the recognized
    symbols [ks]: without concatenation the loop is left; with it, and
    when only padding follows, the loop is left as well. *)
Lemma DecodeToBytes_for_stop (lookup : gmap (option Z) Z) (s : jsstring)
    (pc : Z) (ac : bool) (fuel i : nat) (pre : list Z) (k : nat) (ks : list Z) :
  (i < length s)%nat ->
  (length ks < GetDecodingBytes (length s) i)%nat ->
  recognized_at lookup s i ks ->
  lookup !! Some pc = None ->
  s !! (i + length ks)%nat = Some pc ->
  (ac = false
   \/ forall q, (i + length ks <= q < length s)%nat -> s !! q = Some pc) ->
  (length (group_octets wrap_byte ks 0 0) <= k)%nat ->
  DecodeToBytes_for lookup s [pc] pc false ac (S fuel) i i
    (length pre) (pre ++ replicate k 0)
  = Return ((length pre + length (group_octets wrap_byte ks 0 0))%nat,
            (pre ++ group_octets wrap_byte ks 0 0)
            ++ replicate (k - length (group_octets wrap_byte ks 0 0)) 0).
Proof.
  intros Hi Hlen Hrec Hnone Hpad Hrest Hk.
  cbn [DecodeToBytes_for]. rewrite (proj2 (Nat.ltb_lt _ _) Hi).
  replace (GetDecodingBytes (length s) i)
    with (length ks + S (GetDecodingBytes (length s) i - S (length ks)))%nat by lia.
  rewrite DecodeToBytes_group_recognized by (auto; lia).
  cbn [DecodeToBytes_group]. unfold StringCharCodeAt.
  rewrite Hpad, Hnone. cbn [code_is]. rewrite Z.eqb_refl. cbn [andb negb].
  destruct Hrest as [-> | Hall]; [reflexivity |].
  destruct ac; [| reflexivity].
  assert (Hin : (i + length ks < length s)%nat)
    by (apply lookup_lt_Some in Hpad; exact Hpad).
  rewrite skip_padding_to_end.
  - cbn [bind]. apply DecodeToBytes_for_exit. lia.
  - lia.
  - lia.
  - intros q Hq. apply Hall. lia.
Qed.

Lemma DecodeToBytes_for_upto_padding (lookup : gmap (option Z) Z)
    (s : jsstring) (pc : Z) (ac : bool) :
  forall fuel i pre k ks,
  (length s - i <= fuel)%nat ->
  recognized_at lookup s i ks ->
  (length ks mod 4 <> 0)%nat ->
  lookup !! Some pc = None ->
  s !! (i + length ks)%nat = Some pc ->
  (ac = false
   \/ forall q, (i + length ks <= q < length s)%nat -> s !! q = Some pc) ->
  (length (payload wrap_byte ks) <= k)%nat ->
  DecodeToBytes_for lookup s [pc] pc false ac fuel i i
    (length pre) (pre ++ replicate k 0)
  = Return ((length pre + length (payload wrap_byte ks))%nat,
            (pre ++ payload wrap_byte ks)
            ++ replicate (k - length (payload wrap_byte ks)) 0).
Proof.
  induction fuel as [| fuel IH];
    intros i pre k ks Hfuel Hrec Hmod Hnone Hpad Hrest Hk;
    pose proof (lookup_lt_Some _ _ _ Hpad) as Hin; [lia |].
  destruct (le_lt_dec 4 (length ks)) as [Hfull | Hshort].
  - rewrite (payload_full _ ks) in * by lia.
    rewrite length_app in Hk.
    assert (Hdrop : length (drop 4 ks) = (length ks - 4)%nat)
      by apply length_drop.
    assert (Hpos : (i + 4 + length (drop 4 ks) = i + length ks)%nat) by lia.
    rewrite (DecodeToBytes_for_group _ _ _ _ _ _ _ _ _ _ (take 4 ks)).
    + rewrite length_take, Nat.min_l by lia.
      replace (length pre + length (octets wrap_byte (take 4 ks)))%nat
        with (length (pre ++ octets wrap_byte (take 4 ks)))
        by (rewrite length_app; reflexivity).
      rewrite (IH _ _ _ (drop 4 ks)).
      * rewrite !length_app, <- !app_assoc.
        rewrite Nat.add_assoc, Nat.sub_add_distr. reflexivity.
      * lia.
      * apply recognized_at_drop. exact Hrec.
      * rewrite Hdrop.
        replace (length ks) with ((length ks - 4) + 1 * 4)%nat in Hmod by lia.
        rewrite Nat.Div0.mod_add in Hmod. exact Hmod.
      * exact Hnone.
      * rewrite Hpos. exact Hpad.
      * rewrite Hpos. exact Hrest.
      * lia.
    + lia.
    + rewrite length_take. unfold GetDecodingBytes.
      rewrite (proj2 (Nat.ltb_ge _ _)) by lia. lia.
    + apply recognized_at_take. exact Hrec.
    + lia.
  - rewrite (payload_short _ ks) in * by lia.
    apply DecodeToBytes_for_stop; try assumption; try lia.
    unfold GetDecodingBytes.
    destruct (length s - i <? 4)%nat eqn:E; lia.
Qed.

Lemma Decode_for_stop (lookup : gmap (option Z) Z) (s : jsstring)
    (pc : Z) (ac : bool) (fuel i : nat) (result : jsstring) (ks : list Z) :
  (i < length s)%nat ->
  (length ks < GetDecodingBytes (length s) i)%nat ->
  recognized_at lookup s i ks ->
  lookup !! Some pc = None ->
  s !! (i + length ks)%nat = Some pc ->
  (ac = false
   \/ forall q, (i + length ks <= q < length s)%nat -> s !! q = Some pc) ->
  Decode_for lookup s [pc] pc false ac (S fuel) i i result
  = Return (result ++ group_octets wrap_unit ks 0 0).
Proof.
  intros Hi Hlen Hrec Hnone Hpad Hrest.
  cbn [Decode_for]. rewrite (proj2 (Nat.ltb_lt _ _) Hi).
  replace (GetDecodingBytes (length s) i)
    with (length ks + S (GetDecodingBytes (length s) i - S (length ks)))%nat by lia.
  rewrite Decode_group_recognized by auto.
  cbn [Decode_group]. unfold StringCharCodeAt.
  rewrite Hpad, Hnone. cbn [code_is]. rewrite Z.eqb_refl. cbn [andb negb].
  destruct Hrest as [-> | Hall]; [reflexivity |].
  destruct ac; [| reflexivity].
  assert (Hin : (i + length ks < length s)%nat)
    by (apply lookup_lt_Some in Hpad; exact Hpad).
  rewrite skip_padding_to_end.
  - cbn [bind]. apply Decode_for_exit. lia.
  - lia.
  - lia.
  - intros q Hq. apply Hall. lia.
Qed.

Lemma Decode_for_upto_padding (lookup : gmap (option Z) Z)
    (s : jsstring) (pc : Z) (ac : bool) :
  forall fuel i result ks,
  (length s - i <= fuel)%nat ->
  recognized_at lookup s i ks ->
  (length ks mod 4 <> 0)%nat ->
  lookup !! Some pc = None ->
  s !! (i + length ks)%nat = Some pc ->
  (ac = false
   \/ forall q, (i + length ks <= q < length s)%nat -> s !! q = Some pc) ->
  Decode_for lookup s [pc] pc false ac fuel i i result
  = Return (result ++ payload wrap_unit ks).
Proof.
  induction fuel as [| fuel IH];
    intros i result ks Hfuel Hrec Hmod Hnone Hpad Hrest;
    pose proof (lookup_lt_Some _ _ _ Hpad) as Hin; [lia |].
  destruct (le_lt_dec 4 (length ks)) as [Hfull | Hshort].
  - rewrite (payload_full _ ks) by lia.
    assert (Hdrop : length (drop 4 ks) = (length ks - 4)%nat)
      by apply length_drop.
    assert (Hpos : (i + 4 + length (drop 4 ks) = i + length ks)%nat) by lia.
    rewrite (Decode_for_group _ _ _ _ _ _ _ _ _ (take 4 ks)).
    + rewrite length_take, Nat.min_l by lia.
      rewrite (IH _ _ (drop 4 ks)).
      * rewrite <- app_assoc. reflexivity.
      * lia.
      * apply recognized_at_drop. exact Hrec.
      * rewrite Hdrop.
        replace (length ks) with ((length ks - 4) + 1 * 4)%nat in Hmod by lia.
        rewrite Nat.Div0.mod_add in Hmod. exact Hmod.
      * exact Hnone.
      * rewrite Hpos. exact Hpad.
      * rewrite Hpos. exact Hrest.
    + lia.
    + rewrite length_take. unfold GetDecodingBytes.
      rewrite (proj2 (Nat.ltb_ge _ _)) by lia. lia.
    + apply recognized_at_take. exact Hrec.
  - rewrite (payload_short _ ks) by lia.
    apply Decode_for_stop; try assumption; try lia.
    unfold GetDecodingBytes.
    destruct (length s - i <? 4)%nat eqn:E; lia.
Qed.

(** ** What the encoders return *)

Lemma emit_bytes_symbols alphabet options t (ks : list Z) :
  constructor alphabet options = Return t ->
  length alphabet = 64%nat -> Forall is_sextet ks ->
  emit_bytes (BaseMap t) ks = map (symbol alphabet) ks.
Proof.
  intros Hnew Hlen. induction ks as [| k ks IH]; intros Hks; [reflexivity |].
  apply Forall_cons in Hks as [Hk Hks]. unfold is_sextet in Hk.
  destruct (string_index_symbol alphabet k) as [_ Hl]; [lia |].
  pose proof (constructed_BaseMap _ _ _ Hnew _ _ Hl) as Hmap.
  pose proof (constructed_code_range _ _ _ Hnew _ _ Hl) as Hrange.
  rewrite Z2Nat.id in Hmap by lia.
  cbn [emit_bytes map]. unfold MapGet_code at 1. rewrite Hmap. cbn [ToUint8].
  rewrite Z.mod_small by lia. f_equal. apply IH. exact Hks.
Qed.

Lemma constructed_padding_byte alphabet options t :
  constructor alphabet options = Return t ->
  padding_byte t = padding_code_or_zero t.
Proof.
  intros Hnew. unfold padding_byte, padding_code_or_zero.
  destruct (constructed_padding _ _ _ Hnew)
    as [[_ ->] | (c & _ & -> & Hrange & _)]; simpl; [reflexivity |].
  destruct (c =? 0); simpl; [reflexivity |]. apply Z.mod_small. lia.
Qed.

(** The four encoders return the symbols of the indices of the input,
    with the padding of [withPadding]. *)
Lemma encoders_return alphabet options t (b : list Z) (withPadding : bool) :
  constructor alphabet options = Return t ->
  length alphabet = 64%nat ->
  Forall is_byte b ->
  let e := padded withPadding (padding_code_or_zero t)
             (map (symbol alphabet) (indices b)) in
  Encode t b withPadding = Return e
  /\ EncodeBytesToString t b withPadding = Return e
  /\ EncodeToBytes t b withPadding = Return e
  /\ EncodeBytes t b withPadding = Return e.
Proof.
  intros Hnew Hlen Hb e. subst e.
  pose proof (constructed_padding_consistent _ _ _ Hnew) as Hpad.
  pose proof (indices_range b Hb) as Hks.
  rewrite (Encode_eq t _ b withPadding Hpad Hb).
  rewrite (EncodeBytesToString_eq t _ b withPadding Hpad).
  rewrite (EncodeToBytes_eq t b withPadding Hb).
  rewrite (EncodeBytes_eq t b withPadding).
  rewrite (constructed_Alphabet _ _ _ Hnew).
  rewrite (emit_string_symbols alphabet _ Hlen Hks).
  rewrite (emit_bytes_symbols _ _ _ _ Hnew Hlen Hks).
  rewrite (constructed_padding_byte _ _ _ Hnew).
  repeat split; reflexivity.
Qed.

(** ** What the decoders make of an encoding *)

Ltac bits_unit :=
  cbn [indices payload decoded
       sextets group_indices group_carry octets group_octets group_rest app
       ENCODING_SHIFTS ENCODING_MASKS ENCODING_DIGITS
       DECODING_SHIFTS DECODING_MASKS DECODING_DIGITS nth negb Z.eqb];
  unfold wrap_unit; autorewrite with bits.

Lemma octets_unit_sextets (a b c : Z) :
  is_byte a -> is_byte b -> is_byte c ->
  octets wrap_unit (sextets [a; b; c]) = [a; b; c].
Proof.
  unfold is_byte. intros Ha Hb Hc. bits_unit.
  repeat f_equal; Z.div_mod_to_equations; lia.
Qed.

Lemma payload_unit_indices (b : list Z) :
  Forall is_byte b -> payload wrap_unit (indices b) = b.
Proof.
  induction b as [| x | x y | x y z l IH] using list_ind3; intros Hall.
  - reflexivity.
  - apply Forall_cons in Hall as [Hx _]. unfold is_byte in Hx.
    cbn [indices payload]. bits_unit. repeat f_equal. Z.div_mod_to_equations. lia.
  - apply Forall_cons in Hall as [Hx Hall]. apply Forall_cons in Hall as [Hy _].
    unfold is_byte in Hx, Hy.
    cbn [indices payload]. bits_unit. repeat f_equal; Z.div_mod_to_equations; lia.
  - apply Forall_cons in Hall as [Hx Hall]. apply Forall_cons in Hall as [Hy Hall].
    apply Forall_cons in Hall as [Hz Hall].
    change (indices (x :: y :: z :: l)) with (sextets [x; y; z] ++ indices l).
    pose proof (octets_unit_sextets x y z Hx Hy Hz) as Hgroup.
    cbn [sextets group_indices group_carry app] in *.
    cbn [payload]. rewrite Hgroup, IH by assumption. reflexivity.
Qed.

Lemma decoded_unit_indices (b : list Z) :
  Forall is_byte b ->
  decoded wrap_unit (indices b)
  = b ++ (if (length b mod 3 =? 0)%nat then [] else [0]).
Proof.
  induction b as [| x | x y | x y z l IH] using list_ind3; intros Hall.
  - reflexivity.
  - apply Forall_cons in Hall as [Hx _]. unfold is_byte in Hx.
    cbn [indices decoded]. bits_unit. simpl.
    repeat f_equal; Z.div_mod_to_equations; lia.
  - apply Forall_cons in Hall as [Hx Hall]. apply Forall_cons in Hall as [Hy _].
    unfold is_byte in Hx, Hy.
    cbn [indices decoded]. bits_unit. simpl.
    repeat f_equal; Z.div_mod_to_equations; lia.
  - apply Forall_cons in Hall as [Hx Hall]. apply Forall_cons in Hall as [Hy Hall].
    apply Forall_cons in Hall as [Hz Hall].
    change (indices (x :: y :: z :: l)) with (sextets [x; y; z] ++ indices l).
    pose proof (octets_unit_sextets x y z Hx Hy Hz) as Hgroup.
    cbn [sextets group_indices group_carry app] in *.
    cbn [decoded]. rewrite Hgroup, IH by assumption.
    replace (length (x :: y :: z :: l)) with (length l + 1 * 3)%nat
      by (simpl; lia).
    rewrite Nat.Div0.mod_add. reflexivity.
Qed.

Lemma payload_length wrap (ks : list Z) :
  length (payload wrap ks) = (3 * (length ks / 4) + (length ks mod 4 - 1))%nat.
Proof.
  induction ks as [| a | a b | a b c | a b c d l IH] using list_ind4;
    try reflexivity.
  change (payload wrap (a :: b :: c :: d :: l))
    with (octets wrap [a; b; c; d] ++ payload wrap l).
  rewrite length_app, IH.
  replace (length (a :: b :: c :: d :: l)) with (length l + 1 * 4)%nat
    by (simpl; lia).
  rewrite Nat.div_add, Nat.Div0.mod_add by lia.
  change (length (octets wrap [a; b; c; d])) with 3%nat. lia.
Qed.

(** The decoders on recognized symbols followed by a padding symbol that
    does not start a group: what follows the padding is not read without
    concatenation, and is skipped with it when it is padding. *)
Lemma decoders_upto_padding alphabet options t (ks : list Z) (rest : list Z)
    (ac : bool) :
  constructor alphabet options = Return t ->
  length alphabet = 64%nat ->
  Forall is_sextet ks ->
  (length ks mod 4 <> 0)%nat ->
  (ac = false \/ Forall (fun x => x = padding_code_or_zero t) rest) ->
  let s := map (symbol alphabet) ks ++ padding_code_or_zero t :: rest in
  DecodeToBytes t s false ac = Return (payload wrap_byte ks)
  /\ Decode t s false ac = Return (payload wrap_unit ks).
Proof.
  intros Hnew Hlen Hks Hmod Hrest s.
  destruct (constructed_padding_symbol _ _ _ Hnew) as (c & Hpad & Hcode & Hnone).
  subst c. set (c := padding_code_or_zero t) in *.
  pose proof (recognized_symbols _ _ _ ks (c :: rest) Hnew Hlen Hks) as Hrec.
  fold s in Hrec.
  assert (Hlens : length s = (length ks + S (length rest))%nat)
    by (unfold s; rewrite length_app, length_map; reflexivity).
  assert (Hat : s !! (0 + length ks)%nat = Some c).
  { unfold s. simpl. rewrite lookup_app_r by (rewrite length_map; lia).
    rewrite length_map, Nat.sub_diag. reflexivity. }
  assert (Hafter : ac = false
                   \/ forall q, (0 + length ks <= q < length s)%nat ->
                        s !! q = Some c).
  { destruct Hrest as [Hac | Hall]; [left; exact Hac | right].
    intros q Hq. unfold s. rewrite lookup_app_r by (rewrite length_map; lia).
    rewrite length_map.
    destruct (q - length ks)%nat as [| m] eqn:E; [reflexivity |]. simpl.
    destruct (lookup_lt_is_Some_2 rest m) as [x Hx]; [lia |].
    rewrite Hx. f_equal.
    rewrite Forall_lookup in Hall. exact (Hall _ _ Hx). }
  assert (Hz : (length s =? 0)%nat = false) by (apply Nat.eqb_neq; lia).
  split.
  - unfold DecodeToBytes. cbv zeta. rewrite Hz, Hpad. fold c.
    pose proof (DecodeToBytes_for_upto_padding (BaseMapLookup t) s c ac
                  (length s) 0 [] (GetInverseCapacity (length s)) ks) as Hfor.
    simpl length in Hfor. simpl app in Hfor.
    rewrite Hfor; clear Hfor; try assumption; try lia.
    + cbn [bind]. f_equal. apply slice_written.
    + rewrite payload_length, Hlens. unfold GetInverseCapacity. nat_div_lia.
  - unfold Decode. cbv zeta. rewrite Hz, Hpad. fold c.
    rewrite (Decode_for_upto_padding (BaseMapLookup t) s c ac (length s) 0 [] ks);
      try assumption; try lia.
    reflexivity.
Qed.

Lemma padded_full {A} (pad : A) (f : Z -> A) (b : list Z) :
  (length b mod 3 = 0)%nat ->
  padded true pad (map f (indices b)) = map f (indices b).
Proof.
  intros Hfull. unfold padded, padding_count, GetPaddedLength.
  rewrite length_map, indices_length.
  assert (((length b * 4 + 2) / 3) mod 4 = 0)%nat as -> by nat_div_lia.
  simpl. rewrite Nat.sub_diag. apply app_nil_r.
Qed.

Lemma padded_short {A} (pad : A) (f : Z -> A) (b : list Z) :
  (length b mod 3 <> 0)%nat ->
  (length (indices b) mod 4 <> 0)%nat
  /\ exists m, padded true pad (map f (indices b))
               = map f (indices b) ++ pad :: replicate m pad.
Proof.
  intros Hshort.
  assert (Hmod : (length (indices b) mod 4 <> 0)%nat)
    by (rewrite indices_length; nat_div_lia).
  split; [exact Hmod |].
  destruct (padding_count_spec (length (indices b))) as (_ & _ & Hpos).
  specialize (Hpos Hmod).
  unfold padded. rewrite length_map.
  destruct (padding_count (length (indices b))) as [| m]; [lia |].
  exists m. reflexivity.
Qed.

Lemma symbols_in_alphabet (alphabet : jsstring) (ks : list Z) :
  length alphabet = 64%nat -> Forall is_sextet ks ->
  Forall (fun x => x ∈ alphabet) (map (symbol alphabet) ks).
Proof.
  intros Hlen Hks. apply Forall_fmap. apply (Forall_impl _ _ _ Hks).
  intros k Hk. unfold is_sextet in Hk. simpl.
  destruct (string_index_symbol alphabet k) as [_ Hl]; [lia |].
  apply list_elem_of_lookup. eauto.
Qed.

(** The four encoders agree.  For an instance the constructor has
    returned from a 64-character alphabet and every sequence [b] of byte
    values, [Encode], [EncodeBytesToString], [EncodeToBytes] and
    [EncodeBytes] return the same sequence of codes: ceil(4n/3) symbols
    of the alphabet for the [n] bytes, followed with [withPadding] by the
    padding code (0 without a padding symbol) up to 4 * ceil(n/3). *)
Theorem encoders_agree
    (alphabet : jsstring) (options : jsoptions padding_option)
    (t : Base64Encoding) (b : list Z) (withPadding : bool) :
  constructor alphabet options = Return t ->
  length alphabet = 64%nat ->
  Forall is_byte b ->
  exists e,
    Encode t b withPadding = Return e
    /\ EncodeBytesToString t b withPadding = Return e
    /\ EncodeToBytes t b withPadding = Return e
    /\ EncodeBytes t b withPadding = Return e
    /\ length e = (if withPadding then 4 * ((length b + 2) / 3)
                   else (length b * 4 + 2) / 3)%nat
    /\ Forall (fun x => x ∈ alphabet) (take ((length b * 4 + 2) / 3) e)
    /\ Forall (fun x => x = padding_code_or_zero t)
         (drop ((length b * 4 + 2) / 3) e).
Proof.
  intros Hnew Hlen Hb.
  destruct (encoders_return _ _ _ b withPadding Hnew Hlen Hb)
    as (H1 & H2 & H3 & H4).
  eexists. split; [exact H1 |]. split; [exact H2 |].
  split; [exact H3 |]. split; [exact H4 |].
  pose proof (indices_length b) as Hn.
  pose proof (symbols_in_alphabet alphabet _ Hlen (indices_range b Hb)) as Hsym.
  assert (Hmap : length (map (symbol alphabet) (indices b))
                 = ((length b * 4 + 2) / 3)%nat)
    by (rewrite length_map; exact Hn).
  unfold padded. destruct withPadding.
  - split; [| split].
    + rewrite length_app, length_replicate, Hmap.
      unfold padding_count, GetPaddedLength.
      destruct (((length b * 4 + 2) / 3) mod 4 =? 0)%nat eqn:E.
      * apply Nat.eqb_eq in E. nat_div_lia.
      * apply Nat.eqb_neq in E. nat_div_lia.
    + rewrite <- Hmap, take_app_length. exact Hsym.
    + rewrite <- Hmap, drop_app_length. apply Forall_replicate. reflexivity.
  - split; [exact Hmap |]. split.
    + rewrite <- Hmap, firstn_all. exact Hsym.
    + rewrite <- Hmap, drop_all. apply Forall_nil. exact I.
Qed.

Lemma encoders_agree_witness :
  exists e,
    Encode BASIC [0x4D; 0x61] true = Return e
    /\ EncodeBytesToString BASIC [0x4D; 0x61] true = Return e
    /\ EncodeToBytes BASIC [0x4D; 0x61] true = Return e
    /\ EncodeBytes BASIC [0x4D; 0x61] true = Return e
    /\ length e = 4%nat
    /\ Forall (fun x => x ∈ basic_alphabet) (take 3 e)
    /\ Forall (fun x => x = padding_code_or_zero BASIC) (drop 3 e).
Proof.
  apply (encoders_agree basic_alphabet Undefined BASIC [0x4D; 0x61] true).
  - exact BASIC_constructed.
  - reflexivity.
  - repeat (apply List.Forall_cons; [unfold is_byte; lia |]). apply List.Forall_nil.
Defined.

Lemma decoders_on_padded_encoding alphabet options t (b : list Z) (ac : bool) :
  constructor alphabet options = Return t ->
  length alphabet = 64%nat ->
  Forall is_byte b ->
  let e := padded true (padding_code_or_zero t)
             (map (symbol alphabet) (indices b)) in
  DecodeToBytes t e false ac = Return b /\ Decode t e false ac = Return b.
Proof.
  intros Hnew Hlen Hb e. subst e.
  pose proof (indices_range b Hb) as Hks.
  set (c := padding_code_or_zero t) in *.
  destruct (Nat.eq_dec (length b mod 3)%nat 0%nat) as [Hfull | Hshort].
  - rewrite (padded_full c _ b Hfull).
    pose proof (recognized_symbols _ _ _ (indices b) [] Hnew Hlen Hks) as Hrec.
    rewrite app_nil_r in Hrec.
    rewrite (DecodeToBytes_recognized t _ (indices b))
      by (try rewrite length_map; auto).
    rewrite (Decode_recognized t _ (indices b))
      by (try rewrite length_map; auto).
    rewrite decoded_indices, decoded_unit_indices by assumption.
    rewrite (proj2 (Nat.eqb_eq _ _) Hfull), app_nil_r. auto.
  - destruct (padded_short c (symbol alphabet) b Hshort) as (Hmod & m & Hshape).
    rewrite Hshape.
    destruct (decoders_upto_padding _ _ _ (indices b) (replicate m c) ac
                Hnew Hlen Hks Hmod) as [HB HS].
    { right. apply Forall_replicate. reflexivity. }
    fold c in HB, HS. rewrite HB, HS.
    rewrite payload_indices, payload_unit_indices by assumption. auto.
Qed.

(** Round trip with padding.  For an instance the constructor has
    returned from a 64-character alphabet and every sequence [b] of byte
    values, the four decoders, with [ignorePadding = false] and with or
    without concatenation, return [b] from the encoding of [b] with
    padding.  For an instance with a padding symbol this is the round
    trip of the methods without options. *)
Theorem padded_encoding_round_trip
    (alphabet : jsstring) (options : jsoptions padding_option)
    (t : Base64Encoding) (b : list Z) (ac : bool) :
  constructor alphabet options = Return t ->
  length alphabet = 64%nat ->
  Forall is_byte b ->
  exists e,
    EncodeBytesToString t b true = Return e
    /\ DecodeToBytes t e false ac = Return b
    /\ Decode t e false ac = Return b
    /\ DecodeBytes t e false ac = Return b
    /\ DecodeBytesToString t e false ac = Return b
    /\ (Padding t <> [] ->
        encodeBytesToString t b Undefined = Return e
        /\ decodeToBytes t e Undefined = Return b
        /\ decode t e Undefined = Return b
        /\ decodeBytes t e Undefined = Return b
        /\ decodeBytesToString t e Undefined = Return b).
Proof.
  intros Hnew Hlen Hb.
  destruct (encoders_return _ _ _ b true Hnew Hlen Hb) as (_ & Henc & _).
  destruct (decoders_on_padded_encoding _ _ _ b ac Hnew Hlen Hb) as [HB HS].
  destruct (decoders_on_padded_encoding _ _ _ b false Hnew Hlen Hb) as [HB0 HS0].
  set (e := padded true (padding_code_or_zero t)
              (map (symbol alphabet) (indices b))) in *.
  destruct (byte_decoders_agree_with_string_decoders_aux _ _ _ e false ac Hnew)
    as [HBB HBS].
  destruct (byte_decoders_agree_with_string_decoders_aux _ _ _ e false false Hnew)
    as [HBB0 HBS0].
  exists e. split; [exact Henc |]. split; [exact HB |]. split; [exact HS |].
  split; [rewrite HBB; exact HB |]. split; [rewrite HBS; exact HS |].
  intros Hpadding.
  assert (Htruthy : truthy_string (Padding t) = true)
    by (destruct (Padding t); [contradiction | reflexivity]).
  unfold encodeBytesToString, decodeToBytes, decode, decodeBytes,
    decodeBytesToString. simpl.
  rewrite Htruthy. simpl. rewrite HBB0, HBS0. auto.
Qed.

Lemma padded_encoding_round_trip_witness :
  exists e,
    EncodeBytesToString BASIC [0x4D] true = Return e
    /\ DecodeToBytes BASIC e false true = Return [0x4D]
    /\ Decode BASIC e false true = Return [0x4D]
    /\ DecodeBytes BASIC e false true = Return [0x4D]
    /\ DecodeBytesToString BASIC e false true = Return [0x4D]
    /\ (Padding BASIC <> [] ->
        encodeBytesToString BASIC [0x4D] Undefined = Return e
        /\ decodeToBytes BASIC e Undefined = Return [0x4D]
        /\ decode BASIC e Undefined = Return [0x4D]
        /\ decodeBytes BASIC e Undefined = Return [0x4D]
        /\ decodeBytesToString BASIC e Undefined = Return [0x4D]).
Proof.
  apply (padded_encoding_round_trip basic_alphabet Undefined BASIC [0x4D] true).
  - exact BASIC_constructed.
  - reflexivity.
  - repeat (apply List.Forall_cons; [unfold is_byte; lia |]). apply List.Forall_nil.
Defined.

Lemma decoders_on_unpadded_encoding alphabet options t (b : list Z)
    (ip ac : bool) :
  constructor alphabet options = Return t ->
  length alphabet = 64%nat ->
  Forall is_byte b ->
  let e := map (symbol alphabet) (indices b) in
  let out := b ++ (if (length b mod 3 =? 0)%nat then [] else [0]) in
  DecodeToBytes t e ip ac = Return out /\ Decode t e ip ac = Return out.
Proof.
  intros Hnew Hlen Hb e out. subst e out.
  pose proof (indices_range b Hb) as Hks.
  pose proof (recognized_symbols _ _ _ (indices b) [] Hnew Hlen Hks) as Hrec.
  rewrite app_nil_r in Hrec.
  rewrite (DecodeToBytes_recognized t _ (indices b))
    by (try rewrite length_map; auto).
  rewrite (Decode_recognized t _ (indices b))
    by (try rewrite length_map; auto).
  rewrite decoded_indices, decoded_unit_indices by assumption. auto.
Qed.

(** Round trip without padding.  For an instance the constructor has
    returned from a 64-character alphabet and every sequence [b] of byte
    values, the four decoders, whatever their flags, return from the
    encoding of [b] without padding the bytes [b], followed by one byte
    0x00 when the length of [b] is not a multiple of 3.  For an instance
    without a padding symbol this is what the methods do without
    options. *)
Theorem unpadded_encoding_round_trip
    (alphabet : jsstring) (options : jsoptions padding_option)
    (t : Base64Encoding) (b : list Z) (ip ac : bool) :
  constructor alphabet options = Return t ->
  length alphabet = 64%nat ->
  Forall is_byte b ->
  let out := b ++ (if (length b mod 3 =? 0)%nat then [] else [0]) in
  exists e,
    EncodeBytesToString t b false = Return e
    /\ DecodeToBytes t e ip ac = Return out
    /\ Decode t e ip ac = Return out
    /\ DecodeBytes t e ip ac = Return out
    /\ DecodeBytesToString t e ip ac = Return out
    /\ (Padding t = [] ->
        encodeBytesToString t b Undefined = Return e
        /\ decodeToBytes t e Undefined = Return out
        /\ decode t e Undefined = Return out
        /\ decodeBytes t e Undefined = Return out
        /\ decodeBytesToString t e Undefined = Return out).
Proof.
  intros Hnew Hlen Hb out.
  destruct (encoders_return _ _ _ b false Hnew Hlen Hb) as (_ & Henc & _).
  destruct (decoders_on_unpadded_encoding _ _ _ b ip ac Hnew Hlen Hb) as [HB HS].
  destruct (decoders_on_unpadded_encoding _ _ _ b true false Hnew Hlen Hb)
    as [HB0 HS0].
  unfold padded in Henc.
  set (e := map (symbol alphabet) (indices b)) in *.
  destruct (byte_decoders_agree_with_string_decoders_aux _ _ _ e ip ac Hnew)
    as [HBB HBS].
  destruct (byte_decoders_agree_with_string_decoders_aux _ _ _ e true false Hnew)
    as [HBB0 HBS0].
  exists e. split; [exact Henc |]. split; [exact HB |]. split; [exact HS |].
  split; [rewrite HBB; exact HB |]. split; [rewrite HBS; exact HS |].
  intros Hpadding.
  unfold encodeBytesToString, decodeToBytes, decode, decodeBytes,
    decodeBytesToString. simpl.
  rewrite Hpadding. simpl. rewrite HBB0, HBS0. auto.
Qed.

Lemma unpadded_encoding_round_trip_witness :
  exists e,
    EncodeBytesToString URL [0x4D; 0x61] false = Return e
    /\ DecodeToBytes URL e true false = Return [0x4D; 0x61; 0]
    /\ Decode URL e true false = Return [0x4D; 0x61; 0]
    /\ DecodeBytes URL e true false = Return [0x4D; 0x61; 0]
    /\ DecodeBytesToString URL e true false = Return [0x4D; 0x61; 0]
    /\ (Padding URL = [] ->
        encodeBytesToString URL [0x4D; 0x61] Undefined = Return e
        /\ decodeToBytes URL e Undefined = Return [0x4D; 0x61; 0]
        /\ decode URL e Undefined = Return [0x4D; 0x61; 0]
        /\ decodeBytes URL e Undefined = Return [0x4D; 0x61; 0]
        /\ decodeBytesToString URL e Undefined = Return [0x4D; 0x61; 0]).
Proof.
  apply (unpadded_encoding_round_trip url_alphabet (Object (PaddingString []))
           URL [0x4D; 0x61] true false).
  - exact URL_constructed.
  - reflexivity.
  - repeat (apply List.Forall_cons; [unfold is_byte; lia |]). apply List.Forall_nil.
Defined.

(** Without concatenation the decoders stop at the first padding.  For
    an instance the constructor has returned from a 64-character alphabet,
    every sequence [b] of byte values whose length is not a multiple of 3
    and every [rest], the four decoders, with [ignorePadding = false] and
    [allowConcatenation = false], return [b] from the padded encoding of
    [b] followed by [rest]: what follows the padding is not read, and
    nothing in it is rejected. *)
Theorem decoding_stops_at_the_first_padding
    (alphabet : jsstring) (options : jsoptions padding_option)
    (t : Base64Encoding) (b rest : list Z) :
  constructor alphabet options = Return t ->
  length alphabet = 64%nat ->
  Forall is_byte b ->
  (length b mod 3 <> 0)%nat ->
  exists e,
    EncodeBytesToString t b true = Return e
    /\ DecodeToBytes t (e ++ rest) false false = Return b
    /\ Decode t (e ++ rest) false false = Return b
    /\ DecodeBytes t (e ++ rest) false false = Return b
    /\ DecodeBytesToString t (e ++ rest) false false = Return b.
Proof.
  intros Hnew Hlen Hb Hshort.
  destruct (encoders_return _ _ _ b true Hnew Hlen Hb) as (_ & Henc & _).
  pose proof (indices_range b Hb) as Hks.
  set (c := padding_code_or_zero t) in *.
  destruct (padded_short c (symbol alphabet) b Hshort) as (Hmod & m & Hshape).
  rewrite Hshape in Henc.
  eexists. split; [exact Henc |].
  rewrite <- app_assoc. cbn [app].
  destruct (decoders_upto_padding _ _ _ (indices b) (replicate m c ++ rest) false
              Hnew Hlen Hks Hmod) as [HB HS]; [left; reflexivity |].
  fold c in HB, HS.
  rewrite payload_indices in HB by assumption.
  rewrite payload_unit_indices in HS by assumption.
  destruct (byte_decoders_agree_with_string_decoders_aux _ _ _
              (map (symbol alphabet) (indices b) ++ c :: replicate m c ++ rest)
              false false Hnew) as [HBB HBS].
  split; [exact HB |]. split; [exact HS |].
  split; [rewrite HBB; exact HB | rewrite HBS; exact HS].
Qed.

Lemma decoding_stops_at_the_first_padding_witness :
  exists e,
    EncodeBytesToString BASIC [0x4D] true = Return e
    /\ DecodeToBytes BASIC (e ++ [0x2a; 0x2a]) false false = Return [0x4D]
    /\ Decode BASIC (e ++ [0x2a; 0x2a]) false false = Return [0x4D]
    /\ DecodeBytes BASIC (e ++ [0x2a; 0x2a]) false false = Return [0x4D]
    /\ DecodeBytesToString BASIC (e ++ [0x2a; 0x2a]) false false = Return [0x4D].
Proof.
  apply (decoding_stops_at_the_first_padding basic_alphabet Undefined BASIC
           [0x4D] [0x2a; 0x2a]).
  - exact BASIC_constructed.
  - reflexivity.
  - repeat (apply List.Forall_cons; [unfold is_byte; lia |]). apply List.Forall_nil.
  - simpl. lia.
Defined.

(** ** The tables of an instance *)

(** The three maps of an instance are the alphabet and its inverse.  For
    an instance the constructor has returned, [BaseMap] maps an index to
    a code exactly when the alphabet has this code at this index, and
    [BaseMapLookup] and [AlphabetLookup] map a code, or the one-character
    string of a code, to an index exactly then; the string keys of
    [AlphabetLookup] are single characters. *)
Theorem tables_invert_the_alphabet
    (alphabet : jsstring) (options : jsoptions padding_option)
    (t : Base64Encoding) :
  constructor alphabet options = Return t ->
  (forall i c, BaseMap t !! i = Some (Some c)
               <-> 0 <= i /\ alphabet !! Z.to_nat i = Some c)
  /\ (forall c i, BaseMapLookup t !! Some c = Some i
                  <-> 0 <= i /\ alphabet !! Z.to_nat i = Some c)
  /\ (forall c i, AlphabetLookup t !! Some [c] = Some i
                  <-> 0 <= i /\ alphabet !! Z.to_nat i = Some c)
  /\ (forall s i, AlphabetLookup t !! Some s = Some i -> exists c, s = [c]).
Proof.
  intros Hnew.
  destruct (constructed_tables _ _ _ Hnew) as (HA & HB & HL & _).
  pose proof (constructed_length _ _ _ Hnew) as Hlen.
  cbn [tables_of alphabetLookup baseMap baseMapLookup] in HA, HB, HL.
  assert (Hin : forall m c, alphabet !! m = Some c -> (m < 64)%nat).
  { intros m c Hm. apply lookup_lt_Some in Hm. lia. }
  split; [| split; [| split]].
  - intros i c. rewrite HB. split.
    + intros (m & Hm & -> & Hc). split; [lia |].
      rewrite Nat2Z.id. unfold StringCharCodeAt in Hc. congruence.
    + intros [Hi Hc]. exists (Z.to_nat i).
      split; [exact (Hin _ _ Hc) |]. split; [lia |].
      unfold StringCharCodeAt. congruence.
  - intros c i. rewrite HL. split.
    + intros (m & Hm & Hc & ->). split; [lia |].
      rewrite Nat2Z.id. exact Hc.
    + intros [Hi Hc]. exists (Z.to_nat i).
      split; [exact (Hin _ _ Hc) |]. split; [exact Hc | lia].
  - intros c i. rewrite HA. split.
    + intros (m & Hm & Hc & ->). split; [lia |].
      rewrite Nat2Z.id. apply char_at_Some. exact Hc.
    + intros [Hi Hc]. exists (Z.to_nat i).
      split; [exact (Hin _ _ Hc) |]. split; [apply char_at_Some; exact Hc | lia].
  - intros s i Hs. apply HA in Hs as (m & _ & Hc & _).
    unfold char_at in Hc. destruct (alphabet !! m) as [c |]; [| discriminate].
    exists c. congruence.
Qed.

Lemma tables_invert_the_alphabet_witness :
  (forall i c, BaseMap BASIC !! i = Some (Some c)
               <-> 0 <= i /\ basic_alphabet !! Z.to_nat i = Some c)
  /\ (forall c i, BaseMapLookup BASIC !! Some c = Some i
                  <-> 0 <= i /\ basic_alphabet !! Z.to_nat i = Some c)
  /\ (forall c i, AlphabetLookup BASIC !! Some [c] = Some i
                  <-> 0 <= i /\ basic_alphabet !! Z.to_nat i = Some c)
  /\ (forall s i, AlphabetLookup BASIC !! Some s = Some i -> exists c, s = [c]).
Proof.
  apply (tables_invert_the_alphabet basic_alphabet Undefined BASIC).
  exact BASIC_constructed.
Defined.

(** ** The value of an encoded integer *)

Lemma horner_leading_zeros (ds : list Z) :
  forall lz, (forall q, (q < lz)%nat -> ds !! q = Some 0) ->
  horner ds 0 = horner (drop lz ds) 0.
Proof.
  induction ds as [| d ds IH]; intros lz Hz.
  - rewrite drop_nil. reflexivity.
  - destruct lz as [| lz]; [reflexivity |].
    assert (d = 0) as -> by (specialize (Hz 0%nat); simpl in Hz; injection Hz; lia).
    cbn [drop]. rewrite <- (IH lz).
    + reflexivity.
    + intros q Hq. apply (Hz (S q)). lia.
Qed.

(** [decodeBigInt] and [decodeInt] return the value of the digits in base
    64.  For an instance the constructor has returned from a 64-character
    alphabet and every non-empty sequence of indices below 64, the string
    of their symbols is decoded by [decodeBigInt] to the number these
    digits denote in base 64, most significant first, whatever the number
    of leading zero digits, and by [decodeInt] to the same number when it
    is a safe integer. *)
Theorem decoded_integer_is_the_base_64_value
    (alphabet : jsstring) (options : jsoptions padding_option)
    (t : Base64Encoding) (ds : list Z) :
  constructor alphabet options = Return t ->
  length alphabet = 64%nat ->
  Forall is_sextet ds ->
  ds <> [] ->
  decodeBigInt t (map (symbol alphabet) ds) = Return (horner ds 0)
  /\ (horner ds 0 <= MAX_SAFE_INTEGER ->
      decodeInt t (map (symbol alphabet) ds) = Return (Some (horner ds 0)))
  /\ 0 <= horner ds 0 < 64 ^ Z.of_nat (length ds).
Proof.
  intros Hnew Hlen Hds Hne.
  set (s := map (symbol alphabet) ds).
  assert (Hs : (length s =? 0)%nat = false).
  { unfold s. rewrite length_map. destruct ds; [contradiction | reflexivity]. }
  destruct (leading_zeros_Return s (char_at (Alphabet t) 0) (length s) 0)
    as (lz & Hrun & _ & Hzeros & _); [lia |].
  assert (Hlz : (lz <= length s)%nat).
  { destruct lz as [| lz]; [lia |].
    destruct (Hzeros lz) as [Hq _]; lia. }
  assert (Hzero : forall q, (q < lz)%nat -> ds !! q = Some 0).
  { intros q Hq. destruct (Hzeros q) as [Hin Hchar]; [lia |].
    rewrite (zero_char _ _ _ Hnew Hlen) in Hchar.
    apply char_at_Some in Hchar. unfold s in Hchar, Hin.
    rewrite length_map in Hin.
    destruct (lookup_lt_is_Some_2 ds q Hin) as [d Hd].
    rewrite list_lookup_fmap, Hd in Hchar. simpl in Hchar.
    rewrite Forall_lookup in Hds. pose proof (Hds _ _ Hd) as Hrange.
    destruct (digit_lookup _ _ _ Hnew Hlen d Hrange) as [_ Hl].
    destruct (digit_lookup _ _ _ Hnew Hlen 0) as [_ Hl0]; [lia |].
    assert (symbol alphabet d = symbol alphabet 0) as Heq by congruence.
    rewrite Heq in Hl. rewrite Hd. congruence. }
  assert (Hdrop : drop lz s = map (symbol alphabet) (drop lz ds))
    by (unfold s; rewrite fmap_drop; reflexivity).
  assert (Hrest : Forall (fun d => AlphabetLookup t !! Some [symbol alphabet d]
                                   = Some d) (drop lz ds)).
  { apply (digits_lookup _ _ _ Hnew Hlen). apply Forall_drop. exact Hds. }
  assert (Hcount : (length s - lz)%nat = length (drop lz ds))
    by (unfold s; rewrite length_map, length_drop; reflexivity).
  split; [| split].
  - unfold decodeBigInt, DecodeBigInt. cbv zeta. rewrite Hs, Hrun. cbn [bind].
    rewrite Hcount.
    rewrite (DecodeBigInt_for_horner alphabet _ s _ _ 0 Hdrop Hrest).
    rewrite <- horner_leading_zeros by exact Hzero. reflexivity.
  - intros _. unfold decodeInt, DecodeInt. cbv zeta. rewrite Hs, Hrun. cbn [bind].
    rewrite Hcount.
    rewrite (DecodeInt_for_horner alphabet _ s _ _ 0 Hdrop Hrest).
    rewrite <- horner_leading_zeros by exact Hzero. reflexivity.
  - clear - Hds. induction ds as [| d ds IH] using rev_ind; [simpl; lia |].
    apply Forall_app in Hds as [Hds Hd]. apply Forall_cons in Hd as [Hd _].
    unfold is_sextet in Hd. specialize (IH Hds).
    rewrite horner_snoc, length_app. simpl length.
    rewrite Nat2Z.inj_add, Z.pow_add_r by lia. simpl (64 ^ Z.of_nat 1). lia.
Qed.

Lemma decoded_integer_is_the_base_64_value_witness :
  decodeBigInt BASIC (map (symbol basic_alphabet) [0; 0; 1; 2]) = Return 66
  /\ (horner [0; 0; 1; 2] 0 <= MAX_SAFE_INTEGER ->
      decodeInt BASIC (map (symbol basic_alphabet) [0; 0; 1; 2])
      = Return (Some 66))
  /\ 0 <= 66 < 64 ^ Z.of_nat 4.
Proof.
  apply (decoded_integer_is_the_base_64_value basic_alphabet Undefined BASIC
           [0; 0; 1; 2]).
  - exact BASIC_constructed.
  - reflexivity.
  - repeat (apply List.Forall_cons; [unfold is_sextet; lia |]). apply List.Forall_nil.
  - discriminate.
Defined.

(** ** Text *)

(** Round trip of a text.  For an instance the constructor has returned
    from a 64-character alphabet, and external [UTF8Encode] and
    [UTF8Decode] of which the first gives byte values for [text] and the
    second gives [text] back from them, [DecodeText] and
    [DecodeBytesToText], with [ignorePadding = false], return [text] from
    what [EncodeText] and [EncodeTextToBytes] return for [text] with
    padding, which is the same sequence of codes.  For an instance with a
    padding symbol this is the round trip of [encodeText], [decodeText]
    and [decodeBytesToText] called without options. *)
Theorem text_round_trip
    (UTF8Encode : jsstring -> list Z) (UTF8Decode : list Z -> jsstring)
    (alphabet : jsstring) (options : jsoptions padding_option)
    (t : Base64Encoding) (text : jsstring) (ac : bool) :
  constructor alphabet options = Return t ->
  length alphabet = 64%nat ->
  Forall is_byte (UTF8Encode text) ->
  UTF8Decode (UTF8Encode text) = text ->
  exists e,
    EncodeText UTF8Encode t text true = Return e
    /\ EncodeTextToBytes UTF8Encode t text true = Return e
    /\ DecodeText UTF8Decode t e false ac = Return text
    /\ DecodeBytesToText UTF8Decode t e false ac = Return text
    /\ (Padding t <> [] ->
        encodeText UTF8Encode t text Undefined = Return e
        /\ decodeText UTF8Decode t e Undefined = Return text
        /\ decodeBytesToText UTF8Decode t e Undefined = Return text).
Proof.
  intros Hnew Hlen Hbytes Hinv.
  destruct (encoders_return _ _ _ (UTF8Encode text) true Hnew Hlen Hbytes)
    as (_ & Hs & _ & Hb).
  destruct (decoders_on_padded_encoding _ _ _ (UTF8Encode text) ac Hnew Hlen Hbytes)
    as [HB _].
  destruct (decoders_on_padded_encoding _ _ _ (UTF8Encode text) false Hnew Hlen
              Hbytes) as [HB0 _].
  set (e := padded true (padding_code_or_zero t)
              (map (symbol alphabet) (indices (UTF8Encode text)))) in *.
  destruct (byte_decoders_agree_with_string_decoders_aux _ _ _ e false ac Hnew)
    as [HBB _].
  destruct (byte_decoders_agree_with_string_decoders_aux _ _ _ e false false Hnew)
    as [HBB0 _].
  exists e.
  unfold encodeText, decodeText, decodeBytesToText,
    EncodeText, EncodeTextToBytes, DecodeText, DecodeBytesToText.
  split; [exact Hs |]. split; [exact Hb |].
  rewrite HBB, HB. cbn [bind]. rewrite Hinv.
  split; [reflexivity |]. split; [reflexivity |].
  intros Hpadding.
  assert (Htruthy : truthy_string (Padding t) = true)
    by (destruct (Padding t); [contradiction | reflexivity]).
  simpl. rewrite Htruthy. simpl. rewrite HBB0, HB0. cbn [bind]. rewrite Hinv.
  auto.
Qed.

Lemma text_round_trip_witness :
  exists e,
    EncodeText (fun s => s) BASIC (str "Ma") true = Return e
    /\ EncodeTextToBytes (fun s => s) BASIC (str "Ma") true = Return e
    /\ DecodeText (fun b => b) BASIC e false false = Return (str "Ma")
    /\ DecodeBytesToText (fun b => b) BASIC e false false = Return (str "Ma")
    /\ (Padding BASIC <> [] ->
        encodeText (fun s => s) BASIC (str "Ma") Undefined = Return e
        /\ decodeText (fun b => b) BASIC e Undefined = Return (str "Ma")
        /\ decodeBytesToText (fun b => b) BASIC e Undefined = Return (str "Ma")).
Proof.
  apply (text_round_trip (fun s => s) (fun b => b) basic_alphabet Undefined BASIC
           (str "Ma") false).
  - exact BASIC_constructed.
  - reflexivity.
  - apply (bool_decide_unpack _). vm_compute. exact I.
  - reflexivity.
Defined.

(** ** Concatenated encodings *)

Lemma skip_padding_run (s : jsstring) (pc : Z) (p' : nat) :
  (p' <= length s)%nat ->
  ((p' < length s)%nat -> s !! p' <> Some pc) ->
  forall fuel position,
  (p' - position <= fuel)%nat ->
  (position <= p')%nat ->
  (forall q, (position <= q < p')%nat -> s !! q = Some pc) ->
  skip_padding s [pc] fuel position = Return p'.
Proof.
  intros Hin Hend.
  assert (Hstop : forall fuel, skip_padding s [pc] fuel p' = Return p').
  { intros fuel. destruct fuel; cbn [skip_padding];
      (destruct (p' <? length s)%nat eqn:E; [| reflexivity]);
      apply Nat.ltb_lt in E;
      (rewrite bool_decide_eq_false_2;
         [reflexivity | rewrite char_at_Some; apply Hend; exact E]). }
  induction fuel as [| fuel IH]; intros position Hfuel Hle Hall.
  - assert (position = p') as -> by lia. apply Hstop.
  - destruct (Nat.eq_dec position p') as [-> | Hne]; [apply Hstop |].
    cbn [skip_padding].
    rewrite (proj2 (Nat.ltb_lt _ _)) by lia.
    rewrite bool_decide_eq_true_2 by (apply char_at_Some; apply Hall; lia).
    simpl. apply IH; try lia. intros q Hq. apply Hall. lia.
Qed.

(** One iteration on a full or final group of recognized symbols, where
    [i] need not be the position. *)
Lemma DecodeToBytes_for_group_at (lookup : gmap (option Z) Z)
    (s padding : jsstring) (pc : Z) (ip ac : bool) (fuel i position : nat)
    (pre : list Z) (k : nat) (ks : list Z) :
  (i < length s)%nat ->
  length ks = GetDecodingBytes (length s) position ->
  recognized_at lookup s position ks ->
  (length (octets wrap_byte ks) <= k)%nat ->
  DecodeToBytes_for lookup s padding pc ip ac (S fuel) i position
    (length pre) (pre ++ replicate k 0)
  = DecodeToBytes_for lookup s padding pc ip ac fuel (i + 4)
      (position + length ks)
      (length pre + length (octets wrap_byte ks))
      ((pre ++ octets wrap_byte ks)
       ++ replicate (k - length (octets wrap_byte ks)) 0).
Proof.
  intros Hi Hlen Hrec Hk. rewrite octets_length in *.
  cbn [DecodeToBytes_for]. rewrite (proj2 (Nat.ltb_lt _ _) Hi).
  rewrite <- Hlen. rewrite <- (Nat.add_0_r (length ks)) at 1.
  rewrite DecodeToBytes_group_recognized by (auto; lia).
  cbn [DecodeToBytes_group].
  set (g := group_octets wrap_byte ks 0 0) in *.
  replace (length pre + length g)%nat with (length (pre ++ g))
    by (rewrite length_app; reflexivity).
  rewrite write_next by lia.
  f_equal.
  - rewrite length_app. lia.
  - unfold octets. fold g. rewrite <- !app_assoc. simpl.
    replace (k - length g - 1)%nat with (k - S (length g))%nat by lia.
    reflexivity.
Qed.

Lemma Decode_for_group_at (lookup : gmap (option Z) Z) (s padding : jsstring)
    (pc : Z) (ip ac : bool) (fuel i position : nat) (result : jsstring)
    (ks : list Z) :
  (i < length s)%nat ->
  length ks = GetDecodingBytes (length s) position ->
  recognized_at lookup s position ks ->
  Decode_for lookup s padding pc ip ac (S fuel) i position result
  = Decode_for lookup s padding pc ip ac fuel (i + 4) (position + length ks)
      (result ++ octets wrap_unit ks).
Proof.
  intros Hi Hlen Hrec.
  cbn [Decode_for]. rewrite (proj2 (Nat.ltb_lt _ _) Hi).
  rewrite <- Hlen. rewrite <- (Nat.add_0_r (length ks)) at 1.
  rewrite Decode_group_recognized by auto.
  cbn [Decode_group]. unfold octets, StringFromCharCode.
  rewrite <- !app_assoc. reflexivity.
Qed.

(** With concatenation, the loop on recognized symbols [ks] followed by
    a run of padding up to [p']: it goes on at [p'], with [i] four
    positions ahead. *)
Lemma DecodeToBytes_for_resume (lookup : gmap (option Z) Z)
    (s : jsstring) (pc : Z) (p' : nat) :
  (p' <= length s)%nat ->
  ((p' < length s)%nat -> s !! p' <> Some pc) ->
  lookup !! Some pc = None ->
  forall fuel i pre k ks,
  (length ks / 4 < fuel)%nat ->
  recognized_at lookup s i ks ->
  (length ks mod 4 <> 0)%nat ->
  (i + length ks < p')%nat ->
  (forall q, (i + length ks <= q < p')%nat -> s !! q = Some pc) ->
  (length (payload wrap_byte ks) <= k)%nat ->
  DecodeToBytes_for lookup s [pc] pc false true fuel i i
    (length pre) (pre ++ replicate k 0)
  = DecodeToBytes_for lookup s [pc] pc false true
      (fuel - S (length ks / 4)) (p' + 4) p'
      (length pre + length (payload wrap_byte ks))
      ((pre ++ payload wrap_byte ks)
       ++ replicate (k - length (payload wrap_byte ks)) 0).
Proof.
  intros Hin Hend Hnone.
  induction fuel as [| fuel IH]; intros i pre k ks Hfuel Hrec Hmod Hlt Hrun Hk;
    [lia |].
  destruct (le_lt_dec 4 (length ks)) as [Hfull | Hshort].
  - rewrite (payload_full _ ks) in * by lia.
    rewrite length_app in Hk.
    assert (Hdrop : length (drop 4 ks) = (length ks - 4)%nat)
      by apply length_drop.
    assert (Hpos : (i + 4 + length (drop 4 ks) = i + length ks)%nat) by lia.
    assert (Hdiv : (length (drop 4 ks) / 4 = length ks / 4 - 1)%nat)
      by (rewrite Hdrop; nat_div_lia).
    rewrite (DecodeToBytes_for_group _ _ _ _ _ _ _ _ _ _ (take 4 ks)).
    + rewrite length_take, Nat.min_l by lia.
      replace (length pre + length (octets wrap_byte (take 4 ks)))%nat
        with (length (pre ++ octets wrap_byte (take 4 ks)))
        by (rewrite length_app; reflexivity).
      rewrite (IH _ _ _ (drop 4 ks)).
      * rewrite !length_app, <- !app_assoc.
        rewrite Nat.add_assoc, Nat.sub_add_distr. f_equal.
        rewrite Hdiv. nat_div_lia.
      * rewrite Hdiv. nat_div_lia.
      * apply recognized_at_drop. exact Hrec.
      * rewrite Hdrop.
        replace (length ks) with ((length ks - 4) + 1 * 4)%nat in Hmod by lia.
        rewrite Nat.Div0.mod_add in Hmod. exact Hmod.
      * lia.
      * rewrite Hpos. exact Hrun.
      * lia.
    + lia.
    + rewrite length_take. unfold GetDecodingBytes.
      rewrite (proj2 (Nat.ltb_ge _ _)) by lia. lia.
    + apply recognized_at_take. exact Hrec.
    + lia.
  - rewrite (payload_short _ ks) in * by lia.
    rewrite (Nat.div_small (length ks) 4) by lia.
    replace (S fuel - 1)%nat with fuel by lia.
    assert (Hpad : s !! (i + length ks)%nat = Some pc) by (apply Hrun; lia).
    assert (Hbytes : (length ks < GetDecodingBytes (length s) i)%nat).
    { unfold GetDecodingBytes. destruct (length s - i <? 4)%nat eqn:E; lia. }
    cbn [DecodeToBytes_for]. rewrite (proj2 (Nat.ltb_lt _ _)) by lia.
    replace (GetDecodingBytes (length s) i)
      with (length ks + S (GetDecodingBytes (length s) i - S (length ks)))%nat
      by lia.
    rewrite DecodeToBytes_group_recognized by (auto; lia).
    cbn [DecodeToBytes_group]. unfold StringCharCodeAt.
    rewrite Hpad, Hnone. cbn [code_is]. rewrite Z.eqb_refl. cbn [andb negb].
    rewrite (skip_padding_run s pc p' Hin Hend); try lia.
    + reflexivity.
    + intros q Hq. apply Hrun. lia.
Qed.

Lemma Decode_for_resume (lookup : gmap (option Z) Z)
    (s : jsstring) (pc : Z) (p' : nat) :
  (p' <= length s)%nat ->
  ((p' < length s)%nat -> s !! p' <> Some pc) ->
  lookup !! Some pc = None ->
  forall fuel i result ks,
  (length ks / 4 < fuel)%nat ->
  recognized_at lookup s i ks ->
  (length ks mod 4 <> 0)%nat ->
  (i + length ks < p')%nat ->
  (forall q, (i + length ks <= q < p')%nat -> s !! q = Some pc) ->
  Decode_for lookup s [pc] pc false true fuel i i result
  = Decode_for lookup s [pc] pc false true
      (fuel - S (length ks / 4)) (p' + 4) p'
      (result ++ payload wrap_unit ks).
Proof.
  intros Hin Hend Hnone.
  induction fuel as [| fuel IH]; intros i result ks Hfuel Hrec Hmod Hlt Hrun;
    [lia |].
  destruct (le_lt_dec 4 (length ks)) as [Hfull | Hshort].
  - rewrite (payload_full _ ks) by lia.
    assert (Hdrop : length (drop 4 ks) = (length ks - 4)%nat)
      by apply length_drop.
    assert (Hpos : (i + 4 + length (drop 4 ks) = i + length ks)%nat) by lia.
    assert (Hdiv : (length (drop 4 ks) / 4 = length ks / 4 - 1)%nat)
      by (rewrite Hdrop; nat_div_lia).
    rewrite (Decode_for_group _ _ _ _ _ _ _ _ _ (take 4 ks)).
    + rewrite length_take, Nat.min_l by lia.
      rewrite (IH _ _ (drop 4 ks)).
      * rewrite <- app_assoc. f_equal. rewrite Hdiv. nat_div_lia.
      * rewrite Hdiv. nat_div_lia.
      * apply recognized_at_drop. exact Hrec.
      * rewrite Hdrop.
        replace (length ks) with ((length ks - 4) + 1 * 4)%nat in Hmod by lia.
        rewrite Nat.Div0.mod_add in Hmod. exact Hmod.
      * lia.
      * rewrite Hpos. exact Hrun.
    + lia.
    + rewrite length_take. unfold GetDecodingBytes.
      rewrite (proj2 (Nat.ltb_ge _ _)) by lia. lia.
    + apply recognized_at_take. exact Hrec.
  - rewrite (payload_short _ ks) by lia.
    rewrite (Nat.div_small (length ks) 4) by lia.
    replace (S fuel - 1)%nat with fuel by lia.
    assert (Hpad : s !! (i + length ks)%nat = Some pc) by (apply Hrun; lia).
    assert (Hbytes : (length ks < GetDecodingBytes (length s) i)%nat).
    { unfold GetDecodingBytes. destruct (length s - i <? 4)%nat eqn:E; lia. }
    cbn [Decode_for]. rewrite (proj2 (Nat.ltb_lt _ _)) by lia.
    replace (GetDecodingBytes (length s) i)
      with (length ks + S (GetDecodingBytes (length s) i - S (length ks)))%nat
      by lia.
    rewrite Decode_group_recognized by auto.
    cbn [Decode_group]. unfold StringCharCodeAt.
    rewrite Hpad, Hnone. cbn [code_is]. rewrite Z.eqb_refl. cbn [andb negb].
    rewrite (skip_padding_run s pc p' Hin Hend); try lia.
    + reflexivity.
    + intros q Hq. apply Hrun. lia.
Qed.

Lemma full_groups_nonempty {A} (ks : list A) :
  ks <> [] -> (length ks mod 4 = 0)%nat -> (4 <= length ks)%nat.
Proof.
  intros Hne Hmod.
  assert (length ks <> 0)%nat by (destruct ks; [contradiction | simpl; lia]).
  nat_div_lia.
Qed.

(** The loop once [i] is four positions ahead: the groups of recognized
    symbols are decoded as long as four more positions are left after
    them; the last group is not read. *)
Lemma DecodeToBytes_for_ahead (lookup : gmap (option Z) Z)
    (s padding : jsstring) (pc : Z) (ip ac : bool) :
  forall fuel position pre k ks,
  (length ks / 4 <= fuel)%nat ->
  recognized_at lookup s position ks ->
  (length ks mod 4 = 0)%nat ->
  (length s <= position + length ks + 4)%nat ->
  (ks <> [] -> (position + length ks < length s)%nat) ->
  (length (decoded wrap_byte ks) <= k)%nat ->
  DecodeToBytes_for lookup s padding pc ip ac fuel (position + 4) position
    (length pre) (pre ++ replicate k 0)
  = Return ((length pre + length (decoded wrap_byte ks))%nat,
            (pre ++ decoded wrap_byte ks)
            ++ replicate (k - length (decoded wrap_byte ks)) 0).
Proof.
  induction fuel as [| fuel IH];
    intros position pre k ks Hfuel Hrec Hmod Hend Hmore Hk.
  - assert (ks = []) as ->.
    { destruct (decide (ks = [])) as [He | Hne]; [exact He |]. exfalso.
      pose proof (full_groups_nonempty ks Hne Hmod). nat_div_lia. }
    simpl in Hend. rewrite DecodeToBytes_for_exit by lia.
    simpl. rewrite app_nil_r, Nat.add_0_r, Nat.sub_0_r. reflexivity.
  - destruct (decide (ks = [])) as [-> | Hne].
    + simpl in Hend. rewrite DecodeToBytes_for_exit by lia.
      simpl. rewrite app_nil_r, Nat.add_0_r, Nat.sub_0_r. reflexivity.
    + pose proof (Hmore Hne) as Hlt.
      pose proof (full_groups_nonempty ks Hne Hmod) as Hfull.
      assert (Hdrop : length (drop 4 ks) = (length ks - 4)%nat)
        by apply length_drop.
      rewrite (decoded_full _ ks) in * by lia. rewrite length_app in Hk.
      rewrite (DecodeToBytes_for_group_at _ _ _ _ _ _ _ _ _ _ _ (take 4 ks)).
      * rewrite length_take, Nat.min_l by lia.
        replace (length pre + length (octets wrap_byte (take 4 ks)))%nat
          with (length (pre ++ octets wrap_byte (take 4 ks)))
          by (rewrite length_app; reflexivity).
        rewrite (IH _ _ _ (drop 4 ks)).
        -- rewrite !length_app, <- !app_assoc.
           rewrite Nat.add_assoc, Nat.sub_add_distr. reflexivity.
        -- rewrite Hdrop. nat_div_lia.
        -- apply recognized_at_drop. exact Hrec.
        -- rewrite Hdrop.
           replace (length ks) with ((length ks - 4) + 1 * 4)%nat in Hmod by lia.
           rewrite Nat.Div0.mod_add in Hmod. exact Hmod.
        -- lia.
        -- intros _. lia.
        -- lia.
      * lia.
      * rewrite length_take. unfold GetDecodingBytes.
        rewrite (proj2 (Nat.ltb_ge _ _)) by lia. lia.
      * apply recognized_at_take. exact Hrec.
      * lia.
Qed.

Lemma Decode_for_ahead (lookup : gmap (option Z) Z)
    (s padding : jsstring) (pc : Z) (ip ac : bool) :
  forall fuel position result ks,
  (length ks / 4 <= fuel)%nat ->
  recognized_at lookup s position ks ->
  (length ks mod 4 = 0)%nat ->
  (length s <= position + length ks + 4)%nat ->
  (ks <> [] -> (position + length ks < length s)%nat) ->
  Decode_for lookup s padding pc ip ac fuel (position + 4) position result
  = Return (result ++ decoded wrap_unit ks).
Proof.
  induction fuel as [| fuel IH];
    intros position result ks Hfuel Hrec Hmod Hend Hmore.
  - assert (ks = []) as ->.
    { destruct (decide (ks = [])) as [He | Hne]; [exact He |]. exfalso.
      pose proof (full_groups_nonempty ks Hne Hmod). nat_div_lia. }
    simpl in Hend. rewrite Decode_for_exit by lia.
    simpl. rewrite app_nil_r. reflexivity.
  - destruct (decide (ks = [])) as [-> | Hne].
    + simpl in Hend. rewrite Decode_for_exit by lia.
      simpl. rewrite app_nil_r. reflexivity.
    + pose proof (Hmore Hne) as Hlt.
      pose proof (full_groups_nonempty ks Hne Hmod) as Hfull.
      assert (Hdrop : length (drop 4 ks) = (length ks - 4)%nat)
        by apply length_drop.
      rewrite (decoded_full _ ks) by lia.
      rewrite (Decode_for_group_at _ _ _ _ _ _ _ _ _ _ (take 4 ks)).
      * rewrite length_take, Nat.min_l by lia.
        rewrite (IH _ _ (drop 4 ks)).
        -- rewrite <- app_assoc. reflexivity.
        -- rewrite Hdrop. nat_div_lia.
        -- apply recognized_at_drop. exact Hrec.
        -- rewrite Hdrop.
           replace (length ks) with ((length ks - 4) + 1 * 4)%nat in Hmod by lia.
           rewrite Nat.Div0.mod_add in Hmod. exact Hmod.
        -- lia.
        -- intros _. lia.
      * lia.
      * rewrite length_take. unfold GetDecodingBytes.
        rewrite (proj2 (Nat.ltb_ge _ _)) by lia. lia.
      * apply recognized_at_take. exact Hrec.
Qed.

Lemma indices_app (x y : list Z) :
  (length x mod 3 = 0)%nat -> indices (x ++ y) = indices x ++ indices y.
Proof.
  induction x as [| a | a b | a b c l IH] using list_ind3; intros Hmod.
  - reflexivity.
  - discriminate Hmod.
  - discriminate Hmod.
  - change (indices ((a :: b :: c :: l) ++ y))
      with (sextets [a; b; c] ++ indices (l ++ y)).
    change (indices (a :: b :: c :: l)) with (sextets [a; b; c] ++ indices l).
    rewrite IH, app_assoc; [reflexivity |].
    replace (length (a :: b :: c :: l)) with (length l + 1 * 3)%nat in Hmod
      by (simpl; lia).
    rewrite Nat.Div0.mod_add in Hmod. exact Hmod.
Qed.

Lemma indices_take (b : list Z) (m : nat) :
  (3 * m <= length b)%nat ->
  take (4 * m) (indices b) = indices (take (3 * m) b).
Proof.
  intros Hm.
  assert (Hlen : length (take (3 * m) b) = (3 * m)%nat)
    by (rewrite length_take; lia).
  rewrite <- (take_drop (3 * m) b) at 1.
  rewrite indices_app by (rewrite Hlen; nat_div_lia).
  apply take_app_length'.
  rewrite indices_length, Hlen. nat_div_lia.
Qed.

Lemma padded_encoding_length {A} (pad : A) (f : Z -> A) (b : list Z) :
  length (padded true pad (map f (indices b))) = (4 * groups (length b))%nat.
Proof.
  unfold padded, groups.
  rewrite length_app, length_replicate, length_map, indices_length.
  unfold padding_count, GetPaddedLength.
  destruct (((length b * 4 + 2) / 3) mod 4 =? 0)%nat eqn:E.
  - apply Nat.eqb_eq in E. nat_div_lia.
  - apply Nat.eqb_neq in E. nat_div_lia.
Qed.

Lemma recognized_symbols_at alphabet options t (before : jsstring)
    (ks : list Z) (tail : jsstring) :
  constructor alphabet options = Return t ->
  length alphabet = 64%nat -> Forall is_sextet ks ->
  recognized_at (BaseMapLookup t) (before ++ map (symbol alphabet) ks ++ tail)
    (length before) ks.
Proof.
  intros Hnew Hlen Hks p k Hp.
  rewrite lookup_app_r by lia.
  replace (length before + p - length before)%nat with p by lia.
  exact (recognized_symbols _ _ _ ks tail Hnew Hlen Hks p k Hp).
Qed.

(** The two string decoders on the padded encoding of [b1], which ends
    with padding, followed by the padded encoding of [b2], with
    concatenation. *)
Lemma decoders_on_concatenation alphabet options t (b1 b2 : list Z) :
  constructor alphabet options = Return t ->
  length alphabet = 64%nat ->
  Forall is_byte b1 -> Forall is_byte b2 ->
  (length b1 mod 3 <> 0)%nat ->
  let c := padding_code_or_zero t in
  let e1 := padded true c (map (symbol alphabet) (indices b1)) in
  let e2 := padded true c (map (symbol alphabet) (indices b2)) in
  let out := b1 ++ take (3 * (groups (length b2) - 1)) b2 in
  DecodeToBytes t (e1 ++ e2) false true = Return out
  /\ Decode t (e1 ++ e2) false true = Return out.
Proof.
  intros Hnew Hlen Hb1 Hb2 Hshort c e1 e2 out.
  destruct (constructed_padding_symbol _ _ _ Hnew) as (c' & Hpad & Hcode & Hnone).
  fold c in Hcode. subst c'.
  pose proof (indices_range b1 Hb1) as Hks1.
  pose proof (indices_range b2 Hb2) as Hks2.
  destruct (padded_short c (symbol alphabet) b1 Hshort) as (Hmod & m & Hshape).
  pose proof (padded_encoding_length c (symbol alphabet) b1) as Hlen1.
  pose proof (padded_encoding_length c (symbol alphabet) b2) as Hlen2.
  fold e1 in Hshape, Hlen1. fold e2 in Hlen2.
  set (ks1 := indices b1) in *.
  set (g2 := groups (length b2)) in *.
  set (x := take (3 * (g2 - 1)) b2) in *.
  set (ks := take (4 * (g2 - 1)) (indices b2)).
  assert (Hg2 : (3 * (g2 - 1) <= length b2)%nat)
    by (unfold g2, groups; nat_div_lia).
  assert (Hks : ks = indices x) by (apply indices_take; exact Hg2).
  assert (Hx : Forall is_byte x) by (apply Forall_take; exact Hb2).
  assert (Hxlen : length x = (3 * (g2 - 1))%nat)
    by (unfold x; rewrite length_take; lia).
  assert (Hkslen : length ks = (4 * (g2 - 1))%nat)
    by (rewrite Hks, indices_length, Hxlen; nat_div_lia).
  assert (He1 : length e1 = (length ks1 + S m)%nat)
    by (rewrite Hshape, length_app, length_map; cbn [length];
        rewrite length_replicate; lia).
  assert (Hpayload : payload wrap_byte ks1 = b1) by (apply payload_indices; exact Hb1).
  assert (Hpayload' : payload wrap_unit ks1 = b1)
    by (apply payload_unit_indices; exact Hb1).
  assert (Hdecoded : decoded wrap_byte ks = x).
  { rewrite Hks, decoded_indices by exact Hx.
    assert ((length x mod 3 =? 0)%nat = true) as ->
      by (apply Nat.eqb_eq; rewrite Hxlen; nat_div_lia).
    apply app_nil_r. }
  assert (Hdecoded' : decoded wrap_unit ks = x).
  { rewrite Hks, decoded_unit_indices by exact Hx.
    assert ((length x mod 3 =? 0)%nat = true) as ->
      by (apply Nat.eqb_eq; rewrite Hxlen; nat_div_lia).
    apply app_nil_r. }
  remember (e1 ++ e2) as s eqn:Hs.
  assert (Hslen : length s = (length e1 + 4 * g2)%nat)
    by (rewrite Hs, length_app; lia).
  assert (Hrec1 : recognized_at (BaseMapLookup t) s 0 ks1).
  { rewrite Hs, Hshape, <- app_assoc.
    apply (recognized_symbols _ _ _ ks1 _ Hnew Hlen Hks1). }
  assert (Hrun : forall q, (0 + length ks1 <= q < length e1)%nat -> s !! q = Some c).
  { intros q Hq. rewrite Hs, lookup_app_l by lia.
    rewrite Hshape, lookup_app_r by (rewrite length_map; lia).
    rewrite length_map.
    change (c :: replicate m c) with (replicate (S m) c).
    apply lookup_replicate_2. lia. }
  assert (Hend : (length e1 < length s)%nat -> s !! length e1 <> Some c).
  { intros Hlt. rewrite Hs, lookup_app_r by lia. rewrite Nat.sub_diag.
    assert (Hb2len : (0 < length (indices b2))%nat).
    { rewrite indices_length. unfold g2, groups in *. nat_div_lia. }
    destruct (indices b2) as [| k0 rest] eqn:E; [simpl in Hb2len; lia |].
    unfold e2, padded. simpl. intros [= Heq].
    pose proof (recognized_symbols _ _ _ [k0] [] Hnew Hlen) as Hk0.
    specialize (Hk0 ltac:(apply Forall_cons in Hks2 as [Hk _];
                          apply Forall_cons; split; [exact Hk | apply Forall_nil; exact I])
                  0%nat k0 eq_refl).
    simpl in Hk0. rewrite Heq, Hnone in Hk0. discriminate. }
  assert (Hrec2 : recognized_at (BaseMapLookup t) s (length e1) ks).
  { apply recognized_at_take. rewrite Hs. unfold e2 at 1, padded.
    apply (recognized_symbols_at _ _ _ e1 _ _ Hnew Hlen Hks2). }
  assert (Hz : (length s =? 0)%nat = false) by (apply Nat.eqb_neq; lia).
  assert (Hdiv1 : (length ks1 / 4 < length s)%nat) by nat_div_lia.
  assert (Hfuel : (length ks / 4 <= length s - S (length ks1 / 4))%nat).
  { rewrite Hkslen, Hslen, He1. nat_div_lia. }
  assert (Hstop : (length s <= length e1 + length ks + 4)%nat)
    by (rewrite Hkslen, Hslen; lia).
  assert (Hmore : ks <> [] -> (length e1 + length ks < length s)%nat).
  { intros Hne. assert (length ks <> 0)%nat
      by (destruct ks; [contradiction | simpl; lia]). lia. }
  assert (Hksmod : (length ks mod 4 = 0)%nat) by (rewrite Hkslen; nat_div_lia).
  assert (Hcap : (length b1 + length x <= GetInverseCapacity (length s))%nat).
  { unfold GetInverseCapacity. rewrite Hslen, Hlen1, Hxlen.
    unfold groups. nat_div_lia. }
  split.
  - unfold DecodeToBytes. cbv zeta. rewrite Hz, Hpad. fold c.
    pose proof (DecodeToBytes_for_resume (BaseMapLookup t) s c (length e1)
                  ltac:(lia) Hend Hnone (length s) 0 []
                  (GetInverseCapacity (length s)) ks1 Hdiv1 Hrec1 Hmod
                  ltac:(lia) Hrun ltac:(rewrite Hpayload; lia)) as H1.
    rewrite Hpayload in H1. cbn [length app Nat.add] in H1.
    rewrite H1; clear H1.
    rewrite (DecodeToBytes_for_ahead (BaseMapLookup t) s [c] c false true
               _ (length e1) b1 _ ks Hfuel Hrec2 Hksmod Hstop Hmore)
      by (rewrite Hdecoded; lia).
    cbn [bind]. rewrite Hdecoded. f_equal.
    rewrite <- length_app, <- Nat.sub_add_distr, <- length_app.
    apply slice_written.
  - unfold Decode. cbv zeta. rewrite Hz, Hpad. fold c.
    rewrite (Decode_for_resume (BaseMapLookup t) s c (length e1)
               ltac:(lia) Hend Hnone (length s) 0 [] ks1 Hdiv1 Hrec1 Hmod
               ltac:(lia) Hrun).
    rewrite Hpayload'. cbn [app].
    rewrite (Decode_for_ahead (BaseMapLookup t) s [c] c false true
               _ (length e1) b1 ks Hfuel Hrec2 Hksmod Hstop Hmore).
    rewrite Hdecoded'. reflexivity.
Qed.

(** With concatenation the decoders lose the last group of what follows
    a padding.  For an instance the constructor has returned from a
    64-character alphabet and byte sequences [b1], whose length is not a
    multiple of 3, and [b2], the four decoders, with
    [allowConcatenation = true], return from the padded encoding of [b1]
    followed by the padded encoding of [b2] the bytes [b1] and the bytes
    of all groups of [b2] but the last: after the padding [i] is four
    positions ahead of the position read, and the loop ends one group
    early.  Whenever [b2] is not empty, bytes of it are missing. *)
Theorem concatenation_drops_the_last_group
    (alphabet : jsstring) (options : jsoptions padding_option)
    (t : Base64Encoding) (b1 b2 : list Z) :
  constructor alphabet options = Return t ->
  length alphabet = 64%nat ->
  Forall is_byte b1 -> Forall is_byte b2 ->
  (length b1 mod 3 <> 0)%nat ->
  let out := b1 ++ take (3 * (groups (length b2) - 1)) b2 in
  exists e1 e2,
    EncodeBytesToString t b1 true = Return e1
    /\ EncodeBytesToString t b2 true = Return e2
    /\ DecodeToBytes t (e1 ++ e2) false true = Return out
    /\ Decode t (e1 ++ e2) false true = Return out
    /\ DecodeBytes t (e1 ++ e2) false true = Return out
    /\ DecodeBytesToString t (e1 ++ e2) false true = Return out
    /\ (b2 <> [] -> (length out < length (b1 ++ b2))%nat).
Proof.
  intros Hnew Hlen Hb1 Hb2 Hshort out.
  destruct (encoders_return _ _ _ b1 true Hnew Hlen Hb1) as (_ & Henc1 & _).
  destruct (encoders_return _ _ _ b2 true Hnew Hlen Hb2) as (_ & Henc2 & _).
  destruct (decoders_on_concatenation _ _ _ b1 b2 Hnew Hlen Hb1 Hb2 Hshort)
    as [HB HS].
  fold out in HB, HS.
  set (e1 := padded true (padding_code_or_zero t)
               (map (symbol alphabet) (indices b1))) in *.
  set (e2 := padded true (padding_code_or_zero t)
               (map (symbol alphabet) (indices b2))) in *.
  destruct (byte_decoders_agree_with_string_decoders_aux _ _ _ (e1 ++ e2)
              false true Hnew) as [HBB HBS].
  exists e1, e2. split; [exact Henc1 |]. split; [exact Henc2 |].
  split; [exact HB |]. split; [exact HS |].
  split; [rewrite HBB; exact HB |]. split; [rewrite HBS; exact HS |].
  intros Hne. unfold out. rewrite !length_app, length_take.
  assert (length b2 <> 0)%nat by (destruct b2; [contradiction | simpl; lia]).
  unfold groups. nat_div_lia.
Qed.

Lemma concatenation_drops_the_last_group_witness :
  exists e1 e2,
    EncodeBytesToString BASIC [0x4D] true = Return e1
    /\ EncodeBytesToString BASIC [0x4D; 0x61; 0x6E; 0x4D] true = Return e2
    /\ DecodeToBytes BASIC (e1 ++ e2) false true
       = Return [0x4D; 0x4D; 0x61; 0x6E]
    /\ Decode BASIC (e1 ++ e2) false true = Return [0x4D; 0x4D; 0x61; 0x6E]
    /\ DecodeBytes BASIC (e1 ++ e2) false true
       = Return [0x4D; 0x4D; 0x61; 0x6E]
    /\ DecodeBytesToString BASIC (e1 ++ e2) false true
       = Return [0x4D; 0x4D; 0x61; 0x6E]
    /\ ([0x4D; 0x61; 0x6E; 0x4D] <> [] ->
        (length [0x4D; 0x4D; 0x61; 0x6E]
         < length ([0x4D] ++ [0x4D; 0x61; 0x6E; 0x4D]))%nat).
Proof.
  apply (concatenation_drops_the_last_group basic_alphabet Undefined BASIC
           [0x4D] [0x4D; 0x61; 0x6E; 0x4D]).
  - exact BASIC_constructed.
  - reflexivity.
  - apply (bool_decide_unpack _). vm_compute. exact I.
  - apply (bool_decide_unpack _). vm_compute. exact I.
  - simpl. lia.
Defined.

(** ** Inputs without the padding symbol *)

Lemma DecodeToBytes_group_no_padding lookup (s : jsstring) (pc : Z) (ip : bool) :
  pc ∉ s ->
  forall n j carry position index result,
  DecodeToBytes_group lookup s pc ip n j carry position index result
  = DecodeToBytes_group lookup s pc true n j carry position index result.
Proof.
  intros Hno. induction n as [| n IH]; intros j carry position index result;
    [reflexivity |].
  cbn [DecodeToBytes_group].
  destruct (lookup !! StringCharCodeAt s position) as [charIndex |].
  - destruct (negb (DECODING_MASKS j =? 0)); apply IH.
  - assert (code_is (StringCharCodeAt s position) pc = false) as ->;
      [| reflexivity].
    unfold StringCharCodeAt, code_is.
    destruct (s !! position) as [c |] eqn:E; [| reflexivity].
    apply Z.eqb_neq. intros ->. apply Hno. apply list_elem_of_lookup. eauto.
Qed.

Lemma DecodeToBytes_for_no_padding lookup (s padding : jsstring) (pc : Z)
    (ip ac : bool) :
  pc ∉ s ->
  forall fuel i position index result,
  DecodeToBytes_for lookup s padding pc ip ac fuel i position index result
  = DecodeToBytes_for lookup s padding pc true false fuel i position index result.
Proof.
  intros Hno. induction fuel as [| fuel IH]; intros i position index result;
    cbn [DecodeToBytes_for]; destruct (i <? length s)%nat; try reflexivity.
  rewrite (DecodeToBytes_group_no_padding lookup s pc ip Hno).
  destruct (DecodeToBytes_group lookup s pc true
              (GetDecodingBytes (length s) position) 0 0 position index result)
    as [[[p' idx'] r'] e] eqn:E.
  destruct e as [carry | [| msg | msg]]; try reflexivity; [apply IH |].
  apply DecodeToBytes_group_progress in E as (_ & _ & _ & Habs). discriminate.
Qed.

Lemma Decode_group_no_padding lookup (s : jsstring) (pc : Z) (ip : bool) :
  pc ∉ s ->
  forall n j carry position result,
  Decode_group lookup s pc ip n j carry position result
  = Decode_group lookup s pc true n j carry position result.
Proof.
  intros Hno. induction n as [| n IH]; intros j carry position result;
    [reflexivity |].
  cbn [Decode_group].
  destruct (lookup !! StringCharCodeAt s position) as [charIndex |].
  - destruct (negb (DECODING_MASKS j =? 0)); apply IH.
  - assert (code_is (StringCharCodeAt s position) pc = false) as ->;
      [| reflexivity].
    unfold StringCharCodeAt, code_is.
    destruct (s !! position) as [c |] eqn:E; [| reflexivity].
    apply Z.eqb_neq. intros ->. apply Hno. apply list_elem_of_lookup. eauto.
Qed.

Lemma Decode_for_no_padding lookup (s padding : jsstring) (pc : Z)
    (ip ac : bool) :
  pc ∉ s ->
  forall fuel i position result,
  Decode_for lookup s padding pc ip ac fuel i position result
  = Decode_for lookup s padding pc true false fuel i position result.
Proof.
  intros Hno. induction fuel as [| fuel IH]; intros i position result;
    cbn [Decode_for]; destruct (i <? length s)%nat; try reflexivity.
  rewrite (Decode_group_no_padding lookup s pc ip Hno).
  destruct (Decode_group lookup s pc true
              (GetDecodingBytes (length s) position) 0 0 position result)
    as [[p' r'] e] eqn:E.
  destruct e as [carry | [| msg | msg]]; try reflexivity; [apply IH |].
  apply Decode_group_progress in E as (_ & _ & Habs). discriminate.
Qed.

(** The flags matter only when the padding symbol occurs.  For an
    instance the constructor has returned and every input in which the
    padding code (0 for an instance without a padding symbol) does not
    occur, each of the four decoders completes in the same way whatever
    [ignorePadding] and [allowConcatenation] are. *)
Theorem flags_matter_only_with_padding
    (alphabet : jsstring) (options : jsoptions padding_option)
    (t : Base64Encoding) (s : jsstring) (ip ac ip' ac' : bool) :
  constructor alphabet options = Return t ->
  padding_code_or_zero t ∉ s ->
  DecodeToBytes t s ip ac = DecodeToBytes t s ip' ac'
  /\ Decode t s ip ac = Decode t s ip' ac'
  /\ DecodeBytes t s ip ac = DecodeBytes t s ip' ac'
  /\ DecodeBytesToString t s ip ac = DecodeBytesToString t s ip' ac'.
Proof.
  intros Hnew Hno.
  assert (HB : forall ip ac, DecodeToBytes t s ip ac = DecodeToBytes t s true false).
  { intros x y. unfold DecodeToBytes. cbv zeta.
    destruct (length s =? 0)%nat; [reflexivity |].
    rewrite (DecodeToBytes_for_no_padding _ s _ _ x y Hno). reflexivity. }
  assert (HS : forall ip ac, Decode t s ip ac = Decode t s true false).
  { intros x y. unfold Decode. cbv zeta.
    destruct (length s =? 0)%nat; [reflexivity |].
    apply (Decode_for_no_padding _ s _ _ x y Hno). }
  destruct (byte_decoders_agree_with_string_decoders_aux _ _ _ s ip ac Hnew)
    as [-> ->].
  destruct (byte_decoders_agree_with_string_decoders_aux _ _ _ s ip' ac' Hnew)
    as [-> ->].
  rewrite (HB ip ac), (HB ip' ac'), (HS ip ac), (HS ip' ac'). auto.
Qed.

Lemma flags_matter_only_with_padding_witness :
  DecodeToBytes BASIC (str "TWFu*") false true
  = DecodeToBytes BASIC (str "TWFu*") true false
  /\ Decode BASIC (str "TWFu*") false true = Decode BASIC (str "TWFu*") true false
  /\ DecodeBytes BASIC (str "TWFu*") false true
     = DecodeBytes BASIC (str "TWFu*") true false
  /\ DecodeBytesToString BASIC (str "TWFu*") false true
     = DecodeBytesToString BASIC (str "TWFu*") true false.
Proof.
  apply (flags_matter_only_with_padding basic_alphabet Undefined BASIC
           (str "TWFu*") false true true false).
  - exact BASIC_constructed.
  - apply (bool_decide_unpack _). vm_compute. exact I.
Defined.

(** ** The digits of an encoded integer *)

Lemma horner_split (ds : list Z) :
  Forall is_sextet ds ->
  forall acc, horner ds acc = acc * 64 ^ Z.of_nat (length ds) + horner ds 0
              /\ 0 <= horner ds 0 < 64 ^ Z.of_nat (length ds).
Proof.
  induction ds as [| d ds IH] using rev_ind; intros Hds acc.
  - simpl. lia.
  - apply Forall_app in Hds as [Hds Hd]. apply Forall_cons in Hd as [Hd _].
    unfold is_sextet in Hd.
    destruct (IH Hds acc) as [Hacc _]. destruct (IH Hds 0) as [_ Hrange].
    rewrite !horner_snoc, length_app. cbn [length].
    rewrite Nat2Z.inj_add, Z.pow_add_r by lia.
    change (64 ^ Z.of_nat 1) with 64. rewrite Hacc. split; lia.
Qed.

(** What [encodeBigInt] and [encodeInt] return for a positive integer.
    For an instance the constructor has returned from a 64-character
    alphabet and every [n > 0], [encodeBigInt] returns the symbols of the
    digits of [n] in base 64, most significant first and without a
    leading zero digit, so of the least possible length; [encodeInt]
    returns the same string when [n] is a safe integer. *)
Theorem encoded_integer_is_the_digit_string
    (alphabet : jsstring) (options : jsoptions padding_option)
    (t : Base64Encoding) (n : Z) :
  constructor alphabet options = Return t ->
  length alphabet = 64%nat ->
  0 < n ->
  exists ds,
    encodeBigInt t n = Return (Some (map (symbol alphabet) ds))
    /\ (n <= MAX_SAFE_INTEGER ->
        encodeInt t (Finite n) = Return (Some (map (symbol alphabet) ds)))
    /\ Forall is_sextet ds
    /\ horner ds 0 = n
    /\ 64 ^ (Z.of_nat (length ds) - 1) <= n < 64 ^ Z.of_nat (length ds).
Proof.
  intros Hnew Hlen Hn.
  destruct (EncodeInt_while_digits alphabet Hlen (S (Z.to_nat (Z.log2 n))) n [])
    as (ds & Hrun & Hrange & Hval & d & ds' & Hhd & Hnz); [lia | |].
  { pose proof (Z.log2_nonneg n). lia. }
  rewrite app_nil_r in Hrun.
  assert (Hz : (n =? 0) = false) by lia.
  assert (Hneg : (n <? 0) = false) by lia.
  exists ds. split; [| split; [| split; [exact Hrange | split; [exact Hval |]]]].
  - unfold encodeBigInt, EncodeBigInt. cbv zeta. rewrite Hneg, Hz.
    rewrite EncodeBigInt_while_EncodeInt_while by lia.
    rewrite Z.abs_eq by lia.
    rewrite (constructed_Alphabet _ _ _ Hnew), Hrun. reflexivity.
  - intros _. unfold encodeInt, EncodeInt. cbv zeta. rewrite Hneg, Hz.
    rewrite (constructed_Alphabet _ _ _ Hnew), Hrun. reflexivity.
  - subst ds. apply Forall_cons in Hrange as [Hd Hrest]. unfold is_sextet in Hd.
    change (horner (d :: ds') 0) with (horner ds' (0 * 64 + d)) in Hval.
    destruct (horner_split ds' Hrest (0 * 64 + d)) as [Hsplit Hlow].
    rewrite Hsplit in Hval. cbn [length].
    replace (Z.of_nat (S (length ds')) - 1) with (Z.of_nat (length ds')) by lia.
    rewrite Nat2Z.inj_succ, Z.pow_succ_r by lia.
    nia.
Qed.

Lemma encoded_integer_is_the_digit_string_witness :
  exists ds,
    encodeBigInt BASIC 66 = Return (Some (map (symbol basic_alphabet) ds))
    /\ (66 <= MAX_SAFE_INTEGER ->
        encodeInt BASIC (Finite 66) = Return (Some (map (symbol basic_alphabet) ds)))
    /\ Forall is_sextet ds
    /\ horner ds 0 = 66
    /\ 64 ^ (Z.of_nat (length ds) - 1) <= 66 < 64 ^ Z.of_nat (length ds).
Proof.
  apply (encoded_integer_is_the_digit_string basic_alphabet Undefined BASIC 66).
  - exact BASIC_constructed.
  - reflexivity.
  - lia.
Defined.
